(** * go-metrics-graphite: the Graphite exporter of graphite.go

    A shallow embedding of [graphite.go] (package [graphite]): the name/tag
    split, the per-metric serializer, and one flush cycle with its
    connection, buffered writer, clock and log.  The Go standard-library
    routines the exporter calls ([strings], [strconv], [fmt], [bufio]) are
    modelled next to it, each restricted to the verbs and modes the
    exporter uses. *)

From Stdlib Require Import ZArith QArith Qpower List String Ascii Bool Lia.
From Stdlib Require Import DecimalString.
From Stdlib Require Import Floats.SpecFloat.
Import ListNotations.

Local Open Scope string_scope.
Local Open Scope Z_scope.

(* ------------------------------------------------------------------ *)
(** ** Package [strings] *)

Module strings.

(** [s[n:]] and [s[:n]] on byte strings. *)
Fixpoint drop (n : nat) (s : string) : string :=
  match n, s with
  | O, _ => s
  | S _, EmptyString => EmptyString
  | S n', String _ s' => drop n' s'
  end.

Fixpoint take (n : nat) (s : string) : string :=
  match n, s with
  | O, _ => EmptyString
  | S _, EmptyString => EmptyString
  | S n', String c s' => String c (take n' s')
  end.

Fixpoint HasPrefix (s prefix : string) : bool :=
  match prefix, s with
  | EmptyString, _ => true
  | String _ _, EmptyString => false
  | String c p', String d s' => Ascii.eqb c d && HasPrefix s' p'
  end.

(** [strings.Index]: the byte offset of the first instance of [substr] in
    [s], or [-1]. *)
Fixpoint Index (s substr : string) : Z :=
  if HasPrefix s substr then 0
  else match s with
       | EmptyString => -1
       | String _ s' =>
           let i := Index s' substr in
           if i <? 0 then -1 else 1 + i
       end.

(** [strings.Contains(s, substr)] is [Index(s, substr) >= 0]. *)
Definition Contains (s substr : string) : bool := 0 <=? Index s substr.

(** The loop of [genSplit]: at most [n] cuts, the rest of [s] is the last
    piece. *)
Fixpoint genSplit_loop (n : nat) (s sep : string) : list string :=
  match n with
  | O => [s]
  | S n' =>
      let m := Index s sep in
      if m <? 0 then [s]
      else take (Z.to_nat m) s
             :: genSplit_loop n' (drop (Z.to_nat m + String.length sep) s) sep
  end.

(** [explode], on single-byte characters. *)
Fixpoint explode (n : nat) (s : string) : list string :=
  match s with
  | EmptyString => []
  | String c s' =>
      match n with
      | O => []
      | S O => [s]
      | S n' => String c EmptyString :: explode n' s'
      end
  end.

(** [strings.SplitN(s, sep, n)] for [n >= 0]: [n = 0] gives no piece, an
    empty separator splits after each character, and otherwise [s] is cut at
    the first [n-1] separators ([n] capped at [len(s)+1]). *)
Definition SplitN (s sep : string) (n : nat) : list string :=
  match n with
  | O => []
  | S _ =>
      match sep with
      | EmptyString => explode n s
      | String _ _ =>
          let n := Nat.min n (String.length s + 1) in
          genSplit_loop (n - 1) s sep
      end
  end.

(** [strings.Replace(s, old, new, 1)] for a non-empty [old]: the first
    instance of [old] is replaced, a string without one is returned as it
    is. *)
Definition Replace1 (s old new : string) : string :=
  if String.eqb old new then s
  else
    let j := Index s old in
    if j <? 0 then s
    else take (Z.to_nat j) s ++ new ++ drop (Z.to_nat j + String.length old) s.

End strings.

(* ------------------------------------------------------------------ *)
(** ** [float64] and [int64] *)

(** Go's [float64] is IEEE 754 binary64 with round-to-nearest-even: the
    Standard Library's specification floats at precision 53 and maximal
    exponent 1024.  A finite value [S754_finite s m e] is
    [(-1)^s * m * 2^e]. *)
Module float64.

Definition t := spec_float.
Definition prec : Z := 53.
Definition emax : Z := 1024.

(** [float64(n)] for an integer [n]. *)
Definition of_int (n : Z) : t := binary_normalize prec emax n 0 false.

Definition mul : t -> t -> t := SFmul prec emax.
Definition div : t -> t -> t := SFdiv prec emax.

(** A decimal constant [digits / 10^scale] of the source text, converted to
    the nearest [float64] (both operands are exact for the constants used
    here, and the division rounds once). *)
Definition lit (digits : Z) (scale : Z) : t :=
  div (of_int digits) (of_int (10 ^ scale)).

(** The [float64] nearest to the decimal [a * 10^k]: what reading the
    decimal gives. *)
Definition of_decimal (a : positive) (k : Z) : t :=
  if 0 <=? k then binary_round prec emax false (a * Z.to_pos (10 ^ k)) 0
  else SFdiv prec emax (S754_finite false a 0)
         (S754_finite false (Z.to_pos (10 ^ (- k))) 0).

(** The integer a finite value truncates to (toward zero). *)
Definition trunc (f : t) : option Z :=
  match f with
  | S754_zero _ => Some 0
  | S754_finite s m e =>
      let v := if 0 <=? e then Zpos m * 2 ^ e else Zpos m / 2 ^ (- e) in
      Some (if s then - v else v)
  | S754_infinity _ | S754_nan => None
  end.

End float64.

Module int64.

Definition min_int : Z := - 2 ^ 63.
Definition max_int : Z := 2 ^ 63 - 1.
Definition in_range (z : Z) : bool := (min_int <=? z) && (z <=? max_int).

(** Two's-complement wrap-around into 64 bits. *)
Definition wrap (z : Z) : Z := (z + 2 ^ 63) mod 2 ^ 64 - 2 ^ 63.

(** [int64(f)] for a [float64]: the value truncated toward zero when it
    fits; otherwise the conversion succeeds with an
    implementation-dependent result, here [overflow f]. *)
Definition of_float (overflow : float64.t -> Z) (f : float64.t) : Z :=
  match float64.trunc f with
  | Some z => if in_range z then z else wrap (overflow f)
  | None => wrap (overflow f)
  end.

(** [a / b]: truncated division; [None] is the run-time panic of a zero
    divisor.  [min_int / -1] wraps to [min_int]. *)
Definition div (a b : Z) : option Z :=
  if b =? 0 then None else Some (wrap (Z.quot a b)).

End int64.

(* ------------------------------------------------------------------ *)
(** ** Package [strconv] *)

Module strconv.

(** Decimal rendering of an integer, ["-"] first when negative. *)
Definition itoa (z : Z) : string := NilZero.string_of_int (Z.to_int z).

Definition digit_char (d : Z) : ascii := ascii_of_nat (48 + Z.to_nat d).

(** The [n] low-order decimal digits of [v], most significant first. *)
Fixpoint lastDigits (n : nat) (v : Z) : string :=
  match n with
  | O => ""
  | S n' => lastDigits n' (v / 10) ++ String (digit_char (v mod 10)) ""
  end.

(** Round-half-to-even of [num / den], [den > 0]. *)
Definition round_half_even (num den : Z) : Z :=
  let a := num / den in
  match 2 * (num - a * den) ?= den with
  | Lt => a
  | Gt => a + 1
  | Eq => if Z.even a then a else a + 1
  end.

(** *** Shortest digits

    [FormatFloat(f, 'f', -1, 64)] prints the fewest decimal digits that
    still identify [f].  For [x = m * 2^e] the decimals that read back as
    [x] are those between the midpoints to the neighbouring floats; the
    midpoints themselves count when [m] is even.  All three are kept as
    integers over the common factor [2^E]. *)
Record interval := {
  iv_x : Z;          (* the value *)
  iv_lower : Z;      (* midpoint to the next lower float *)
  iv_upper : Z;      (* midpoint to the next higher float *)
  iv_exp : Z;        (* E *)
  iv_inclusive : bool
}.

Definition bounds (m : positive) (e : Z) : interval :=
  let mz := Zpos m in
  {| iv_x := 4 * mz;
     iv_lower := if (2 ^ 52 <? mz) || (e =? -1074) then 4 * mz - 2
                 else 4 * mz - 1;
     iv_upper := 4 * mz + 2;
     iv_exp := e - 2;
     iv_inclusive := Z.even mz |}.

(** [v * 2^E] compared at the digit position [k] (unit [10^k]):
    [v * 2^E / 10^k = scale_num E k v / scale_den E k]. *)
Definition scale_num (E k v : Z) : Z :=
  v * 2 ^ Z.max E 0 * 10 ^ Z.max (- k) 0.
Definition scale_den (E k : Z) : Z :=
  2 ^ Z.max (- E) 0 * 10 ^ Z.max k 0.

(** Walk the digit positions downwards from [k].  At each one the value
    cut off there ([a]) and the next number above it ([a + 1]) are the two
    candidates; the walk stops at the first position where one of them is
    inside the interval, taking the nearer one when both are. *)
Fixpoint shortest_loop (fuel : nat) (iv : interval) (k : Z) : option (Z * Z) :=
  match fuel with
  | O => None
  | S fuel' =>
      let E := iv_exp iv in
      let den := scale_den E k in
      let nx := scale_num E k (iv_x iv) in
      let nl := scale_num E k (iv_lower iv) in
      let nu := scale_num E k (iv_upper iv) in
      let a := nx / den in
      let okdown := (nl <? a * den) || (iv_inclusive iv && (nl =? a * den)) in
      let okup :=
        ((a + 1) * den <? nu) || (iv_inclusive iv && ((a + 1) * den =? nu)) in
      if okdown && okup then Some (round_half_even nx den, k)
      else if okdown then Some (a, k)
      else if okup then Some (a + 1, k)
      else shortest_loop fuel' iv (k - 1)
  end.

(** The first position: past the leading digit of the upper midpoint. *)
Definition start_pos (iv : interval) : Z :=
  Z.max 0 (Z.log2 (iv_upper iv) + 1 + iv_exp iv).

Definition shortest (m : positive) (e : Z) : option (Z * Z) :=
  let iv := bounds m e in
  let k0 := start_pos iv in
  shortest_loop (Z.to_nat (k0 - Z.min (iv_exp iv) 0 + 1)) iv k0.

(** Trailing zeros behind the decimal point are not digits. *)
Fixpoint trim (fuel : nat) (a k : Z) : Z * Z :=
  match fuel with
  | O => (a, k)
  | S fuel' =>
      if (k <? 0) && (a mod 10 =? 0) then trim fuel' (a / 10) (k + 1)
      else (a, k)
  end.

(** [a * 10^k], [a >= 0], in positional notation without exponent. *)
Definition positional (a k : Z) : string :=
  if 0 <=? k then itoa (a * 10 ^ k)
  else itoa (a / 10 ^ (- k)) ++ "." ++ lastDigits (Z.to_nat (- k)) a.

Definition sign_prefix (s : bool) : string := if s then "-" else "".

(** [strconv.FormatFloat(f, 'f', -1, 64)]. *)
Definition FormatFloat_shortest (f : float64.t) : string :=
  match f with
  | S754_nan => "NaN"
  | S754_infinity s => if s then "-Inf" else "+Inf"
  | S754_zero s => sign_prefix s ++ "0"
  | S754_finite s m e =>
      match shortest m e with
      | Some (a, k) =>
          let '(a', k') := trim (Z.to_nat (- k)) a k in
          sign_prefix s ++ positional a' k'
      | None => sign_prefix s ++ "0"
      end
  end.

(** [strconv.FormatFloat(f, 'f', prec, 64)] for [prec >= 0]: the exact
    value rounded half-to-even at [prec] decimals. *)
Definition FormatFloat_fixed (f : float64.t) (prec : nat) : string :=
  let frac q :=
    match prec with
    | O => ""
    | S _ => "." ++ lastDigits prec q
    end in
  match f with
  | S754_nan => "NaN"
  | S754_infinity s => if s then "-Inf" else "+Inf"
  | S754_zero s => sign_prefix s ++ "0" ++ frac 0
  | S754_finite s m e =>
      let num := Zpos m * 2 ^ Z.max e 0 * 10 ^ Z.of_nat prec in
      let den := 2 ^ Z.max (- e) 0 in
      let q := round_half_even num den in
      sign_prefix s ++ itoa (q / 10 ^ Z.of_nat prec) ++ frac q
  end.

End strconv.

(* ------------------------------------------------------------------ *)
(** ** Package [fmt] *)

Module fmt.

(** An operand of a formatting call.  [Dyn] carries the name of the dynamic
    type of a value that is only ever printed with [%T]. *)
Inductive arg :=
| Str (s : string)
| Int (z : Z)
| Float (f : float64.t)
| Dyn (type_name : string).

(** [%f] with a precision; infinities and NaN print as [strconv] names
    them. *)
Definition fmtFloat (f : float64.t) (prec : nat) : string :=
  strconv.FormatFloat_fixed f prec.

(** What Go prints where a verb has no operand or one of another type
    (outline only: the exporter's calls give every verb its operand). *)
Definition bad (verb : string) : string := "%!" ++ verb ++ "(BADARG)".

Definition digit_of (c : ascii) : option nat :=
  let n := nat_of_ascii c in
  if (48 <=? n)%nat && (n <=? 57)%nat then Some (n - 48)%nat else None.

Definition verb_s (a : list arg) (k : list arg -> string) : string :=
  match a with
  | Str s :: a' => s ++ k a'
  | _ :: a' => bad "s" ++ k a'
  | [] => bad "s" ++ k []
  end.

Definition verb_d (a : list arg) (k : list arg -> string) : string :=
  match a with
  | Int z :: a' => strconv.itoa z ++ k a'
  | _ :: a' => bad "d" ++ k a'
  | [] => bad "d" ++ k []
  end.

Definition verb_f (prec : nat) (a : list arg) (k : list arg -> string) : string :=
  match a with
  | Float f :: a' => fmtFloat f prec ++ k a'
  | _ :: a' => bad "f" ++ k a'
  | [] => bad "f" ++ k []
  end.

Definition verb_T (a : list arg) (k : list arg -> string) : string :=
  match a with
  | Str _ :: a' => "string" ++ k a'
  | Int _ :: a' => "int64" ++ k a'
  | Float _ :: a' => "float64" ++ k a'
  | Dyn t :: a' => t ++ k a'
  | [] => bad "T" ++ k []
  end.

(** [fmt.Sprintf] for the verbs [%s], [%d], [%f], [%.Nf] (one digit [N])
    and [%T]; [%f] alone has precision 6. *)
Fixpoint Sprintf (format : string) (a : list arg) : string :=
  match format with
  | EmptyString => EmptyString
  | String "%" (String "s" rest) => verb_s a (Sprintf rest)
  | String "%" (String "d" rest) => verb_d a (Sprintf rest)
  | String "%" (String "f" rest) => verb_f 6 a (Sprintf rest)
  | String "%" (String "T" rest) => verb_T a (Sprintf rest)
  | String "%" (String "." (String p (String "f" rest))) =>
      match digit_of p with
      | Some prec => verb_f prec a (Sprintf rest)
      | None => String "%" (String "." (String p (String "f" (Sprintf rest a))))
      end
  | String c rest => String c (Sprintf rest a)
  end.

End fmt.

(* ------------------------------------------------------------------ *)
(** ** [splitNameAndTags] *)

(** Go returns a pair of strings; a split with other than two pieces (the
    inner [else]) returns the name as it came. *)
Definition splitNameAndTags (name : string) : string * string :=
  if strings.Contains name ";" then
    let splitted := strings.SplitN name ";" 2 in
    match splitted with
    | [s0; s1] => (s0, ";" ++ s1)
    | _ => (name, "")
    end
  else (name, "").

(* ------------------------------------------------------------------ *)
(** ** Interpreted string literals *)

(** A Go string literal ["...\n"] holds a line feed where it writes [\n];
    [golit] reads the escape the same way, so that the format strings below
    are the ones of the source. *)
Definition LF : string := String (ascii_of_nat 10) "".

Fixpoint golit (s : string) : string :=
  match s with
  | EmptyString => EmptyString
  | String "\" (String "n" rest) => LF ++ golit rest
  | String c rest => String c (golit rest)
  end.

(* ------------------------------------------------------------------ *)
(** ** Package [metrics]: what the exporter reads of a metric *)

Module metrics.

(** The values a histogram snapshot answers with.  [Percentiles] computes
    each score from its own fraction, so it is a map of [Percentile]. *)
Module Histogram.
Record Snapshot := {
  Count : Z;
  Max : Z;
  Mean : float64.t;
  Min : Z;
  Percentile : float64.t -> float64.t;
  StdDev : float64.t
}.
Definition Percentiles (h : Snapshot) (ps : list float64.t) : list float64.t :=
  map (Percentile h) ps.
End Histogram.

Module Meter.
Record Snapshot := {
  Count : Z;
  Rate1 : float64.t;
  Rate5 : float64.t;
  Rate15 : float64.t;
  RateMean : float64.t
}.
End Meter.

Module Timer.
Record Snapshot := {
  Count : Z;
  Max : Z;
  Mean : float64.t;
  Min : Z;
  Percentile : float64.t -> float64.t;
  Rate1 : float64.t;
  Rate5 : float64.t;
  Rate15 : float64.t;
  RateMean : float64.t;
  StdDev : float64.t
}.
Definition Percentiles (t : Snapshot) (ps : list float64.t) : list float64.t :=
  map (Percentile t) ps.
End Timer.

(** The dynamic type of a registered value, as the type switch of
    [graphite] tells them apart.  [Counter] and [Gauge] carry what
    [Count()] and [Value()] return, the next three their [Snapshot()];
    [Other] is any value of another type, with the name [%T] prints. *)
Inductive Metric :=
| Counter (count : Z)
| Gauge (value : Z)
| GaugeFloat64 (value : float64.t)
| Histogram (h : Histogram.Snapshot)
| Meter (m : Meter.Snapshot)
| Timer (t : Timer.Snapshot)
| Other (type_name : string).

(** A registry, as the sequence of named metrics [Each] visits. *)
Definition Registry := list (string * Metric).

End metrics.

(* ------------------------------------------------------------------ *)
(** ** [Config] *)

Definition TCPAddr := string.

Module time.
Definition Nanosecond : Z := 1.
Definition Second : Z := 1000000000.
End time.

Record Config := {
  Addr : TCPAddr;
  Registry : metrics.Registry;
  FlushInterval : Z;
  DurationUnit : Z;
  Prefix : string;
  Percentiles : list float64.t
}.

(** The configuration [Graphite] hands to [WithConfig]. *)
Definition GraphiteConfig (r : metrics.Registry) (d : Z) (prefix : string)
  (addr : TCPAddr) : Config :=
  {| Addr := addr;
     Registry := r;
     FlushInterval := d;
     DurationUnit := time.Nanosecond;
     Prefix := prefix;
     Percentiles := [float64.lit 5 1; float64.lit 75 2; float64.lit 95 2;
                     float64.lit 99 2; float64.lit 999 3] |}.

(* ------------------------------------------------------------------ *)
(** ** The callback of [Registry.Each] *)

(** The callback never looks at what its writes return, so it is a
    sequence of output commands, cut short by a run-time panic. *)
Inductive cmd :=
| CFprintf (text : string)   (* fmt.Fprintf(w, ...), rendered *)
| CLogf (text : string)      (* log.Printf(...), rendered *)
| CFlush.                    (* w.Flush() *)

Inductive result (A : Type) :=
| Ok (a : A)
| Panic (msg : string).
Arguments Ok {A} a.
Arguments Panic {A} msg.

Module Out.

Definition t (A : Type) : Type := list cmd * result A.

Definition ret {A} (a : A) : t A := ([], Ok a).

Definition bind {A B} (m : t A) (f : A -> t B) : t B :=
  match m with
  | (cs, Ok a) => let '(cs', r) := f a in ((cs ++ cs')%list, r)
  | (cs, Panic msg) => (cs, Panic msg)
  end.

Definition panic {A} (msg : string) : t A := ([], Panic msg).

(** [fmt.Fprintf(w, format, a...)]: one write of the rendered text. *)
Definition Fprintf (format : string) (a : list fmt.arg) : t unit :=
  ([CFprintf (fmt.Sprintf format a)], Ok tt).

(** [log.Printf], without the logger's own date prefix. *)
Definition Printf (format : string) (a : list fmt.arg) : t unit :=
  ([CLogf (fmt.Sprintf format a)], Ok tt).

Definition Flush : t unit := ([CFlush], Ok tt).

(** [for i, x := range l { body }]. *)
Fixpoint range_from {A} (i : nat) (l : list A) (body : nat -> A -> t unit) : t unit :=
  match l with
  | [] => ret tt
  | x :: l' => bind (body i x) (fun _ => range_from (S i) l' body)
  end.

Definition range {A} (l : list A) (body : nat -> A -> t unit) : t unit :=
  range_from 0 l body.

(** [ps[i]]. *)
Definition index (ps : list float64.t) (i : nat) : t float64.t :=
  match nth_error ps i with
  | Some v => ret v
  | None => panic "runtime error: index out of range"
  end.

(** Integer division. *)
Definition quo (a b : Z) : t Z :=
  match int64.div a b with
  | Some q => ret q
  | None => panic "runtime error: integer divide by zero"
  end.

End Out.

Declare Scope out_scope.
Delimit Scope out_scope with out.
Notation "x <- m ;; k" := (Out.bind m (fun x => k))
  (at level 61, m at next level, right associativity) : out_scope.
Notation "m ;; k" := (Out.bind m (fun _ => k))
  (at level 61, right associativity) : out_scope.

Import fmt.

(** [key := strings.Replace(strconv.FormatFloat(psKey*100.0, 'f', -1, 64),
    ".", "", 1)]. *)
Definition percentileKey (psKey : float64.t) : string :=
  strings.Replace1
    (strconv.FormatFloat_shortest (float64.mul psKey (float64.of_int 100)))
    "." "".

(** The function literal passed to [c.Registry.Each]; [now], [du] and
    [flushSeconds] are the locals of [graphite] it closes over, and
    [to_int64] is the conversion [int64(du)]. *)
Definition visit (to_int64 : float64.t -> Z) (c : Config) (now : Z)
  (du flushSeconds : float64.t) (name : string) (i : metrics.Metric) : Out.t unit :=
  (let '(name, tags) := splitNameAndTags name in
   match i with
   | metrics.Counter count =>
       Out.Fprintf (golit "%s.%s.count%s %d %d\n") [Str (Prefix c); Str name; Str tags; Int count; Int now] ;;
       Out.Fprintf (golit "%s.%s.count_ps%s %.2f %d\n") [Str (Prefix c); Str name; Str tags; Float (float64.div (float64.of_int count) flushSeconds); Int now]
   | metrics.Gauge value =>
       Out.Fprintf (golit "%s.%s.value%s %d %d\n") [Str (Prefix c); Str name; Str tags; Int value; Int now]
   | metrics.GaugeFloat64 value =>
       Out.Fprintf (golit "%s.%s.value%s %f %d\n") [Str (Prefix c); Str name; Str tags; Float value; Int now]
   | metrics.Histogram h =>
       let ps := metrics.Histogram.Percentiles h (Percentiles c) in
       Out.Fprintf (golit "%s.%s.count%s %d %d\n") [Str (Prefix c); Str name; Str tags; Int (metrics.Histogram.Count h); Int now] ;;
       Out.Fprintf (golit "%s.%s.min%s %d %d\n") [Str (Prefix c); Str name; Str tags; Int (metrics.Histogram.Min h); Int now] ;;
       Out.Fprintf (golit "%s.%s.max%s %d %d\n") [Str (Prefix c); Str name; Str tags; Int (metrics.Histogram.Max h); Int now] ;;
       Out.Fprintf (golit "%s.%s.mean%s %.2f %d\n") [Str (Prefix c); Str name; Str tags; Float (metrics.Histogram.Mean h); Int now] ;;
       Out.Fprintf (golit "%s.%s.std-dev%s %.2f %d\n") [Str (Prefix c); Str name; Str tags; Float (metrics.Histogram.StdDev h); Int now] ;;
       Out.range (Percentiles c) (fun psIdx psKey =>
         let key := percentileKey psKey in
         v <- Out.index ps psIdx ;;
         Out.Fprintf (golit "%s.%s.%s-percentile%s %.2f %d\n") [Str (Prefix c); Str name; Str tags; Str key; Float v; Int now])
   | metrics.Meter m =>
       Out.Fprintf (golit "%s.%s.count%s %d %d\n") [Str (Prefix c); Str name; Str tags; Int (metrics.Meter.Count m); Int now] ;;
       Out.Fprintf (golit "%s.%s.one-minute%s %.2f %d\n") [Str (Prefix c); Str name; Str tags; Float (metrics.Meter.Rate1 m); Int now] ;;
       Out.Fprintf (golit "%s.%s.five-minute%s %.2f %d\n") [Str (Prefix c); Str name; Str tags; Float (metrics.Meter.Rate5 m); Int now] ;;
       Out.Fprintf (golit "%s.%s.fifteen-minute%s %.2f %d\n") [Str (Prefix c); Str name; Str tags; Float (metrics.Meter.Rate15 m); Int now] ;;
       Out.Fprintf (golit "%s.%s.mean%s %.2f %d\n") [Str (Prefix c); Str name; Str tags; Float (metrics.Meter.RateMean m); Int now]
   | metrics.Timer t =>
       let ps := metrics.Timer.Percentiles t (Percentiles c) in
       let count := metrics.Timer.Count t in
       Out.Fprintf (golit "%s.%s.count%s %d %d\n") [Str (Prefix c); Str name; Str tags; Int count; Int now] ;;
       Out.Fprintf (golit "%s.%s.count_ps%s %.2f %d\n") [Str (Prefix c); Str name; Str tags; Float (float64.div (float64.of_int count) flushSeconds); Int now] ;;
       tmin <- Out.quo (metrics.Timer.Min t) (to_int64 du) ;;
       Out.Fprintf (golit "%s.%s.min%s %d %d\n") [Str (Prefix c); Str name; Str tags; Int tmin; Int now] ;;
       tmax <- Out.quo (metrics.Timer.Max t) (to_int64 du) ;;
       Out.Fprintf (golit "%s.%s.max%s %d %d\n") [Str (Prefix c); Str name; Str tags; Int tmax; Int now] ;;
       Out.Fprintf (golit "%s.%s.mean%s %.2f %d\n") [Str (Prefix c); Str name; Str tags; Float (float64.div (metrics.Timer.Mean t) du); Int now] ;;
       Out.Fprintf (golit "%s.%s.std-dev%s %.2f %d\n") [Str (Prefix c); Str name; Str tags; Float (float64.div (metrics.Timer.StdDev t) du); Int now] ;;
       Out.range (Percentiles c) (fun psIdx psKey =>
         let key := percentileKey psKey in
         v <- Out.index ps psIdx ;;
         Out.Fprintf (golit "%s.%s.%s-percentile%s %.2f %d\n") [Str (Prefix c); Str name; Str tags; Str key; Float (float64.div v du); Int now]) ;;
       Out.Fprintf (golit "%s.%s.one-minute%s %.2f %d\n") [Str (Prefix c); Str name; Str tags; Float (metrics.Timer.Rate1 t); Int now] ;;
       Out.Fprintf (golit "%s.%s.five-minute%s %.2f %d\n") [Str (Prefix c); Str name; Str tags; Float (metrics.Timer.Rate5 t); Int now] ;;
       Out.Fprintf (golit "%s.%s.fifteen-minute%s %.2f %d\n") [Str (Prefix c); Str name; Str tags; Float (metrics.Timer.Rate15 t); Int now] ;;
       Out.Fprintf (golit "%s.%s.mean-rate%s %.2f %d\n") [Str (Prefix c); Str name; Str tags; Float (metrics.Timer.RateMean t); Int now]
   | metrics.Other type_name =>
       Out.Printf (golit "unable to record metric of type %T\n") [Dyn type_name]
   end ;;
   Out.Flush)%out.

(* ------------------------------------------------------------------ *)
(** ** The surroundings of a flush cycle *)

(** What one [Write] on the connection does: it takes all bytes, or it
    fails with an error after taking the first [n]. *)
Inductive write_outcome :=
| Wrote
| Failed (n : nat) (err : string).

(** The answers of the surroundings, each indexed by how many calls of its
    kind came before. *)
Record Env := {
  clock : nat -> Z;                            (* time.Now().Unix() *)
  dial : nat -> TCPAddr -> option string;      (* the error of net.DialTCP, if any *)
  conn_write : nat -> string -> write_outcome; (* Write on a connection *)
  float_overflow : float64.t -> Z              (* int64(f) for an f out of range *)
}.

(** Everything a cycle does to its surroundings, in the order it does it.
    Connections are numbered by the dial that opened them. *)
Inductive io_event :=
| ETime (unix : Z)
| EDial (addr : TCPAddr) (err : option string)
| EWrite (conn : nat) (p : string) (r : write_outcome)
| EClose (conn : nat)
| ELog (text : string)
| EEach
| EVisit (name : string)
| EFprintf (text : string)
| EFlush.

Definition trace := list io_event.

Definition is_time (e : io_event) : bool :=
  match e with ETime _ => true | _ => false end.
Definition is_dial (e : io_event) : bool :=
  match e with EDial _ _ => true | _ => false end.
Definition is_write (e : io_event) : bool :=
  match e with EWrite _ _ _ => true | _ => false end.
Definition is_each (e : io_event) : bool :=
  match e with EEach => true | _ => false end.

Definition count (p : io_event -> bool) (tr : trace) : nat :=
  List.length (filter p tr).

(** The texts handed to [fmt.Fprintf], the names visited, the log lines and
    the bytes the connection took. *)
Fixpoint emitted (tr : trace) : list string :=
  match tr with
  | [] => []
  | EFprintf s :: tr' => s :: emitted tr'
  | _ :: tr' => emitted tr'
  end.

Fixpoint visited (tr : trace) : list string :=
  match tr with
  | [] => []
  | EVisit n :: tr' => n :: visited tr'
  | _ :: tr' => visited tr'
  end.

Fixpoint logged (tr : trace) : list string :=
  match tr with
  | [] => []
  | ELog s :: tr' => s :: logged tr'
  | _ :: tr' => logged tr'
  end.

Fixpoint sent (tr : trace) : string :=
  match tr with
  | [] => ""
  | EWrite _ p Wrote :: tr' => p ++ sent tr'
  | EWrite _ p (Failed n _) :: tr' => strings.take n p ++ sent tr'
  | _ :: tr' => sent tr'
  end.

(** Computations of the cycle: they read the surroundings, extend the
    trace, and end with a value or in a panic. *)
Module M.

Definition t (A : Type) : Type := Env -> trace -> result A * trace.

Definition ret {A} (a : A) : t A := fun _ tr => (Ok a, tr).

Definition bind {A B} (m : t A) (f : A -> t B) : t B :=
  fun env tr =>
    match m env tr with
    | (Ok a, tr') => f a env tr'
    | (Panic msg, tr') => (Panic msg, tr')
    end.

Definition panic {A} (msg : string) : t A := fun _ tr => (Panic msg, tr).

Definition tell (e : io_event) : t unit := fun _ tr => (Ok tt, (tr ++ [e])%list).

(** [defer d; body]: [d] runs when [body] is over, also when it panics. *)
Definition defer {A} (d : t unit) (body : t A) : t A :=
  fun env tr =>
    let '(r, tr') := body env tr in
    let '(_, tr'') := d env tr' in
    (r, tr'').

End M.

Declare Scope m_scope.
Delimit Scope m_scope with M.
Notation "x <- m ;; k" := (M.bind m (fun x => k))
  (at level 61, m at next level, right associativity) : m_scope.
Notation "m ;; k" := (M.bind m (fun _ => k))
  (at level 61, right associativity) : m_scope.

Definition time_Now_Unix : M.t Z :=
  fun env tr =>
    let v := clock env (count is_time tr) in
    (Ok v, (tr ++ [ETime v])%list).

(** [net.DialTCP("tcp", nil, addr)]: the new connection, or the error. *)
Definition DialTCP (addr : TCPAddr) : M.t (nat + string) :=
  fun env tr =>
    let k := count is_dial tr in
    let r := dial env k addr in
    (Ok (match r with None => inl k | Some err => inr err end),
     (tr ++ [EDial addr r])%list).

Definition conn_Write (conn : nat) (p : string) : M.t write_outcome :=
  fun env tr =>
    let r :=
      match conn_write env (count is_write tr) p with
      | Wrote => Wrote
      | Failed n err => Failed (Nat.min n (String.length p)) err
      end in
    (Ok r, (tr ++ [EWrite conn p r])%list).

Definition conn_Close (conn : nat) : M.t unit := M.tell (EClose conn).

(* ------------------------------------------------------------------ *)
(** ** Package [bufio] *)

Module bufio.

Definition defaultBufSize : nat := 4096.

(** A [bufio.Writer]: the bytes it holds, its sticky error and the
    connection below it. *)
Record Writer := {
  buf : string;
  err : option string;
  wr : nat
}.

Definition NewWriter (conn : nat) : Writer :=
  {| buf := ""; err := None; wr := conn |}.

Definition Buffered (b : Writer) : nat := String.length (buf b).
Definition Available (b : Writer) : nat := defaultBufSize - Buffered b.

Definition Flush (b : Writer) : M.t Writer :=
  match err b with
  | Some _ => M.ret b
  | None =>
      match Buffered b with
      | O => M.ret b
      | S _ =>
          (r <- conn_Write (wr b) (buf b) ;;
           match r with
           | Wrote => M.ret {| buf := ""; err := None; wr := wr b |}
           | Failed n e =>
               M.ret {| buf := strings.drop n (buf b); err := Some e; wr := wr b |}
           end)%M
      end
  end.

(** The loop of [Write]: while [p] does not fit and no error is set, an
    empty buffer passes [p] straight to the connection and a used one is
    filled up and flushed. *)
Fixpoint Write_loop (fuel : nat) (b : Writer) (p : string) : M.t (Writer * string) :=
  match err b with
  | Some _ => M.ret (b, p)
  | None =>
      if (String.length p <=? Available b)%nat then M.ret (b, p)
      else
        match fuel with
        | O => M.ret (b, p)
        | S fuel' =>
            match Buffered b with
            | O =>
                (r <- conn_Write (wr b) p ;;
                 match r with
                 | Wrote => Write_loop fuel' b ""
                 | Failed n e =>
                     Write_loop fuel' {| buf := buf b; err := Some e; wr := wr b |}
                       (strings.drop n p)
                 end)%M
            | S _ =>
                let n := Available b in
                (b' <- Flush {| buf := buf b ++ strings.take n p; err := err b; wr := wr b |} ;;
                 Write_loop fuel' b' (strings.drop n p))%M
            end
        end
  end.

Definition Write (b : Writer) (p : string) : M.t Writer :=
  (bp <- Write_loop 2 b p ;;
   let '(b', p') := bp in
   match err b' with
   | Some _ => M.ret b'
   | None => M.ret {| buf := buf b' ++ p'; err := None; wr := wr b' |}
   end)%M.

End bufio.

(* ------------------------------------------------------------------ *)
(** ** One flush cycle *)

(** The commands of one callback, carried out on the writer [w]. *)
Fixpoint perform (w : bufio.Writer) (cs : list cmd) : M.t bufio.Writer :=
  match cs with
  | [] => M.ret w
  | CFprintf s :: cs' =>
      (M.tell (EFprintf s) ;; w' <- bufio.Write w s ;; perform w' cs')%M
  | CLogf s :: cs' =>
      (M.tell (ELog s) ;; perform w cs')%M
  | CFlush :: cs' =>
      (M.tell EFlush ;; w' <- bufio.Flush w ;; perform w' cs')%M
  end.

(** [r.Each(f)]: [f] is called on every registered metric in turn; a
    panic of [f] ends the enumeration. *)
Fixpoint Each_loop (r : metrics.Registry) (f : string -> metrics.Metric -> Out.t unit)
  (w : bufio.Writer) : M.t bufio.Writer :=
  match r with
  | [] => M.ret w
  | (name, i) :: r' =>
      (M.tell (EVisit name) ;;
       let '(cs, res) := f name i in
       w' <- perform w cs ;;
       match res with
       | Ok _ => Each_loop r' f w'
       | Panic msg => M.panic msg
       end)%M
  end.

Definition Each (r : metrics.Registry) (f : string -> metrics.Metric -> Out.t unit)
  (w : bufio.Writer) : M.t bufio.Writer :=
  (M.tell EEach ;; Each_loop r f w)%M.

(** [graphite]: the error it returns, [None] for [nil]. *)
Definition graphite (c : Config) : M.t (option string) :=
  fun env =>
  (now <- time_Now_Unix ;;
   let du := float64.of_int (DurationUnit c) in
   let flushSeconds :=
     float64.div (float64.of_int (FlushInterval c)) (float64.of_int time.Second) in
   conn_err <- DialTCP (Addr c) ;;
   match conn_err with
   | inr err => M.ret (Some err)
   | inl conn =>
       M.defer (conn_Close conn)
         (let w := bufio.NewWriter conn in
          Each (Registry c)
            (visit (int64.of_float (float_overflow env)) c now du flushSeconds) w ;;
          M.ret None)
   end)%M env.

Definition Once (c : Config) : M.t (option string) := graphite c.

(** [WithConfig], for the first [ticks] ticks of [time.Tick]: each tick
    runs one cycle and logs the error it returns.  (For an interval that is
    not positive [time.Tick] returns a nil channel and no tick ever
    comes.) *)
Fixpoint WithConfig (ticks : nat) (c : Config) : M.t unit :=
  match ticks with
  | O => M.ret tt
  | S ticks' =>
      (r <- graphite c ;;
       match r with
       | Some err => M.tell (ELog (err ++ LF))
       | None => M.ret tt
       end ;;
       WithConfig ticks' c)%M
  end.

(** [Graphite], for the first [ticks] ticks. *)
Definition Graphite (ticks : nat) (r : metrics.Registry) (d : Z)
  (prefix : string) (addr : TCPAddr) : M.t unit :=
  WithConfig ticks (GraphiteConfig r d prefix addr).

(* ------------------------------------------------------------------ *)
(** ** Vocabulary of the statements *)

(** A line of the wire format:
    [<prefix>.<name>.<field><tags> <value> <timestamp>\n]. *)
Definition line (prefix name field tags value : string) (now : Z) : string :=
  prefix ++ "." ++ name ++ "." ++ field ++ tags ++ " " ++ value ++ " "
    ++ strconv.itoa now ++ LF.

(** The percentile line as [graphite] prints it: its format takes the tag
    suffix where the key is meant and the key behind ["-percentile"]. *)
Definition percentile_line (prefix name tags key value : string) (now : Z) : string :=
  prefix ++ "." ++ name ++ "." ++ tags ++ "-percentile" ++ key ++ " " ++ value
    ++ " " ++ strconv.itoa now ++ LF.

(** The texts a callback hands to [fmt.Fprintf]. *)
Fixpoint texts (cs : list cmd) : list string :=
  match cs with
  | [] => []
  | CFprintf s :: cs' => s :: texts cs'
  | _ :: cs' => texts cs'
  end.

Definition EndsWith (s suffix : string) : Prop := exists body, s = body ++ suffix.

(** The callback as [graphite] builds it: [du] and [flushSeconds] computed
    from the configuration, [int64(du)] by the platform's conversion. *)
Definition callback (c : Config) (env : Env) (now : Z)
  : string -> metrics.Metric -> Out.t unit :=
  visit (int64.of_float (float_overflow env)) c now
    (float64.of_int (DurationUnit c))
    (float64.div (float64.of_int (FlushInterval c)) (float64.of_int time.Second)).

(** The trace without the writes on the connection. *)
Definition erase (tr : trace) : trace :=
  filter (fun e => negb (is_write e)) tr.

Definition cmd_event (x : cmd) : io_event :=
  match x with
  | CFprintf s => EFprintf s
  | CLogf s => ELog s
  | CFlush => EFlush
  end.

(** What [Each] does apart from connection writes: every callback's
    commands in turn, up to the first panic. *)
Fixpoint Each_events (r : metrics.Registry)
  (f : string -> metrics.Metric -> Out.t unit) : trace * result unit :=
  match r with
  | [] => ([], Ok tt)
  | (name, i) :: r' =>
      let '(cs, res) := f name i in
      let evs := EVisit name :: map cmd_event cs in
      match res with
      | Ok _ => let '(evs', res') := Each_events r' f in ((evs ++ evs')%list, res')
      | Panic msg => (evs, Panic msg)
      end
  end.

(** One cycle apart from connection writes, started when the clock has
    been read [nclock] times and [ndial] connections were dialled. *)
Definition cycle (c : Config) (env : Env) (nclock ndial : nat)
  : trace * result (option string) :=
  let now := clock env nclock in
  match dial env ndial (Addr c) with
  | Some err => ([ETime now; EDial (Addr c) (Some err)], Ok (Some err))
  | None =>
      let '(evs, r) := Each_events (Registry c) (callback c env now) in
      (([ETime now; EDial (Addr c) None; EEach] ++ evs ++ [EClose ndial])%list,
       match r with
       | Ok _ => Ok None
       | Panic msg => Panic msg
       end)
  end.

(** The same surroundings with another connection behaviour, and the same
    configuration with another registry. *)
Definition with_writes (env : Env) (w : nat -> string -> write_outcome) : Env :=
  {| clock := clock env; dial := dial env; conn_write := w;
     float_overflow := float_overflow env |}.

Definition with_registry (c : Config) (r : metrics.Registry) : Config :=
  {| Addr := Addr c; Registry := r; FlushInterval := FlushInterval c;
     DurationUnit := DurationUnit c; Prefix := Prefix c;
     Percentiles := Percentiles c |}.

(** *** Decimals and the rounding interval

    [a * 10^k] against the bounds of [iv], in the integers of
    [strconv.scale_num] and [strconv.scale_den]: above the lower midpoint,
    below the upper one, the midpoints themselves included when the
    interval is inclusive. *)
Definition lower_ok (iv : strconv.interval) (a k : Z) : bool :=
  let E := strconv.iv_exp iv in
  let nl := strconv.scale_num E k (strconv.iv_lower iv) in
  (nl <? a * strconv.scale_den E k)
  || (strconv.iv_inclusive iv && (nl =? a * strconv.scale_den E k)).

Definition upper_ok (iv : strconv.interval) (a k : Z) : bool :=
  let E := strconv.iv_exp iv in
  let nu := strconv.scale_num E k (strconv.iv_upper iv) in
  (a * strconv.scale_den E k <? nu)
  || (strconv.iv_inclusive iv && (a * strconv.scale_den E k =? nu)).

Definition inside (iv : strconv.interval) (a k : Z) : bool :=
  lower_ok iv a k && upper_ok iv a k.

(** The distance of [a * 10^k] from the value of [iv], in the same
    integers. *)
Definition distance (iv : strconv.interval) (a k : Z) : Z :=
  let E := strconv.iv_exp iv in
  Z.abs (a * strconv.scale_den E k - strconv.scale_num E k (strconv.iv_x iv)).

(** [(a, k)] are shortest digits for [iv]: [a * 10^k] is inside, no
    decimal with a coarser last digit is, and no decimal with the same last
    digit position that is inside lies nearer to the value. *)
Definition shortest_digits (iv : strconv.interval) (a k : Z) : Prop :=
  inside iv a k = true /\
  (forall j b, k < j -> inside iv b j = false) /\
  (forall b, inside iv b k = true -> distance iv a k <= distance iv b k).

(** [a * 10^k], [a >= 0], written without its decimal point. *)
Definition undotted (a k : Z) : string :=
  if 0 <=? k then strconv.itoa (a * 10 ^ k)
  else strconv.itoa (a / 10 ^ (- k)) ++ strconv.lastDigits (Z.to_nat (- k)) a.

Definition no_dot (s : string) : Prop := strings.Index s "." = -1.

(** The lines of a Timer as the specification words them, for a duration
    unit [unit]: [min] and [max] by integer division (truncating, in
    [int64]), [mean], [std-dev] and the percentile values by [float64]
    division, the four rates as they are. *)
Definition timer_lines (c : Config) (now : Z) (name tags : string)
  (t : metrics.Timer.Snapshot) : list string :=
  let unit := DurationUnit c in
  let du := float64.of_int unit in
  let flushSeconds :=
    float64.div (float64.of_int (FlushInterval c)) (float64.of_int time.Second) in
  ([line (Prefix c) name "count" tags (strconv.itoa (metrics.Timer.Count t)) now;
    line (Prefix c) name "count_ps" tags
      (fmt.fmtFloat (float64.div (float64.of_int (metrics.Timer.Count t)) flushSeconds) 2) now;
    line (Prefix c) name "min" tags
      (strconv.itoa (int64.wrap (Z.quot (metrics.Timer.Min t) unit))) now;
    line (Prefix c) name "max" tags
      (strconv.itoa (int64.wrap (Z.quot (metrics.Timer.Max t) unit))) now;
    line (Prefix c) name "mean" tags
      (fmt.fmtFloat (float64.div (metrics.Timer.Mean t) du) 2) now;
    line (Prefix c) name "std-dev" tags
      (fmt.fmtFloat (float64.div (metrics.Timer.StdDev t) du) 2) now]
   ++ map (fun p =>
             percentile_line (Prefix c) name tags (percentileKey p)
               (fmt.fmtFloat (float64.div (metrics.Timer.Percentile t p) du) 2) now)
        (Percentiles c)
   ++ [line (Prefix c) name "one-minute" tags (fmt.fmtFloat (metrics.Timer.Rate1 t) 2) now;
       line (Prefix c) name "five-minute" tags (fmt.fmtFloat (metrics.Timer.Rate5 t) 2) now;
       line (Prefix c) name "fifteen-minute" tags (fmt.fmtFloat (metrics.Timer.Rate15 t) 2) now;
       line (Prefix c) name "mean-rate" tags (fmt.fmtFloat (metrics.Timer.RateMean t) 2) now])%list.

(** The value of [iv] cut off at position [k]. *)
Definition cut (iv : strconv.interval) (k : Z) : Z :=
  strconv.scale_num (strconv.iv_exp iv) k (strconv.iv_x iv)
  / strconv.scale_den (strconv.iv_exp iv) k.

(** Events that are all writes on the connection. *)
Definition only_writes (evs : trace) : Prop :=
  Forall (fun e => is_write e = true) evs.

(** A result without its value. *)
Definition forget {A} (r : result A) : result unit :=
  match r with
  | Ok _ => Ok tt
  | Panic msg => Panic msg
  end.

(** How a line of the cycle that read [now] ends. *)
Definition stamp (now : Z) : string := " " ++ strconv.itoa now ++ LF.

(** The same comparisons in the rationals: the decimal [a * 10^k] and a
    bound [v * 2^E]. *)
Definition Qdecimal (a k : Z) : Q := (inject_Z a * inject_Z 10 ^ k)%Q.
Definition Qbinary (v E : Z) : Q := (inject_Z v * inject_Z 2 ^ E)%Q.

(** The bytes of a text list, in order. *)
Definition bytes (l : list string) : string := fold_right String.append "" l.

(** The shortest digits of a positive float, read as a decimal, give the
    float again. *)
Definition reads_back (m : positive) (e : Z) : bool :=
  match strconv.shortest m e with
  | Some (a, k) =>
      match float64.of_decimal (Z.to_pos a) k with
      | S754_finite false m' e' => Pos.eqb m m' && (e =? e')
      | _ => false
      end
  | None => false
  end.

(** *** Vocabulary of the further properties *)

(** [a] is how [b] begins. *)
Definition IsPrefix (a b : string) : Prop := exists rest, b = a ++ rest.

(** No write in the trace failed. *)
Definition wrote_all (e : io_event) : bool :=
  match e with
  | EWrite _ _ (Failed _ _) => false
  | _ => true
  end.

Definition all_wrote (tr : trace) : bool := forallb wrote_all tr.

(** Every write in the trace went to the connection [k]. *)
Definition writes_on (k : nat) (tr : trace) : Prop :=
  Forall (fun e => match e with EWrite conn _ _ => conn = k | _ => True end) tr.

Definition is_close (e : io_event) : bool :=
  match e with EClose _ => true | _ => false end.
Definition is_dial_ok (e : io_event) : bool :=
  match e with EDial _ None => true | _ => false end.

(** The state of a buffered writer against what was printed through it and
    what its connection took: while no write has failed, the bytes taken
    and the bytes still buffered are the bytes printed; after a failure the
    bytes taken are a beginning of them. *)
Definition pending (b : bufio.Writer) (printed taken : string) : Prop :=
  match bufio.err b with
  | None => taken ++ bufio.buf b = printed
  | Some _ => IsPrefix taken printed
  end.

(** Whenever a metric is visited and no write has failed until then, the
    connection has taken every byte printed until then. *)
Definition visits_flushed (evs : trace) : Prop :=
  forall pre name post,
    evs = (pre ++ EVisit name :: post)%list ->
    all_wrote pre = true ->
    sent pre = bytes (emitted pre).

(** The registry holds a Timer. *)
Definition is_timer (i : metrics.Metric) : bool :=
  match i with metrics.Timer _ => true | _ => false end.

Definition has_timer (r : metrics.Registry) : bool :=
  existsb (fun ni => is_timer (snd ni)) r.

(** The panic of an integer division by zero, and the configurations that
    run into it: [int64(du)] is zero and the registry holds a Timer. *)
Definition division_panic : string := "runtime error: integer divide by zero".

Definition divides_by_zero (c : Config) (env : Env) : bool :=
  has_timer (Registry c)
  && (int64.of_float (float_overflow env) (float64.of_int (DurationUnit c)) =? 0).

(** The clock readings of a trace. *)
Fixpoint times (tr : trace) : list Z :=
  match tr with
  | [] => []
  | ETime v :: tr' => v :: times tr'
  | _ :: tr' => times tr'
  end.

(** The registry up to its first Timer, the Timer included. *)
Fixpoint until_timer (r : metrics.Registry) : metrics.Registry :=
  match r with
  | [] => []
  | (name, i) :: r' =>
      if is_timer i then [(name, i)] else (name, i) :: until_timer r'
  end.

(** The lines of the metrics of a registry, one metric after the other. *)
Definition registry_lines (c : Config) (env : Env) (now : Z)
  (r : metrics.Registry) : list string :=
  List.concat
    (map (fun ni => texts (fst (callback c env now (fst ni) (snd ni)))) r).

(** The same configuration with another duration unit, flush interval or
    percentile list. *)
Definition with_unit (c : Config) (u : Z) : Config :=
  {| Addr := Addr c; Registry := Registry c; FlushInterval := FlushInterval c;
     DurationUnit := u; Prefix := Prefix c; Percentiles := Percentiles c |}.

Definition with_interval (c : Config) (d : Z) : Config :=
  {| Addr := Addr c; Registry := Registry c; FlushInterval := d;
     DurationUnit := DurationUnit c; Prefix := Prefix c;
     Percentiles := Percentiles c |}.

Definition with_percentiles (c : Config) (ps : list float64.t) : Config :=
  {| Addr := Addr c; Registry := Registry c; FlushInterval := FlushInterval c;
     DurationUnit := DurationUnit c; Prefix := Prefix c; Percentiles := ps |}.

(** A text without line feed. *)
Definition no_LF (s : string) : Prop := strings.Index s LF = -1.

(** One line: a text without line feed, and the line feed that ends it. *)
Definition one_line (s : string) : Prop := exists body, s = body ++ LF /\ no_LF body.

(** The field names of the wire format, and the texts of its values: an
    integer or a float with a fixed number of decimals. *)
Definition fields : list string :=
  ["count"; "count_ps"; "value"; "min"; "max"; "mean"; "std-dev";
   "one-minute"; "five-minute"; "fifteen-minute"; "mean-rate"].

Inductive value_text : string -> Prop :=
| value_int (z : Z) : value_text (strconv.itoa z)
| value_float (f : float64.t) (n : nat) : value_text (fmt.fmtFloat f n).

(** The texts a metric registered as [raw] can give: a line for one of the
    fields, or a percentile line. *)
Inductive wire_text (c : Config) (now : Z) (raw : string) : string -> Prop :=
| wire_line (field value : string) :
    In field fields -> value_text value ->
    wire_text c now raw
      (line (Prefix c) (fst (splitNameAndTags raw)) field
         (snd (splitNameAndTags raw)) value now)
| wire_percentile (p f : float64.t) :
    wire_text c now raw
      (percentile_line (Prefix c) (fst (splitNameAndTags raw))
         (snd (splitNameAndTags raw)) (percentileKey p) (fmt.fmtFloat f 2) now).

(** How many texts the callback prints for a metric. *)
Definition line_count (to_int64 : float64.t -> Z) (c : Config) (du : float64.t)
  (i : metrics.Metric) : nat :=
  match i with
  | metrics.Counter _ => 2
  | metrics.Gauge _ => 1
  | metrics.GaugeFloat64 _ => 1
  | metrics.Histogram _ => 5 + List.length (Percentiles c)
  | metrics.Meter _ => 5
  | metrics.Timer _ =>
      if to_int64 du =? 0 then 2 else 10 + List.length (Percentiles c)
  | metrics.Other _ => 0
  end.

(** Which kinds read which field of the configuration. *)
Definition reads_interval (i : metrics.Metric) : bool :=
  match i with metrics.Counter _ | metrics.Timer _ => true | _ => false end.

Definition reads_percentiles (i : metrics.Metric) : bool :=
  match i with metrics.Histogram _ | metrics.Timer _ => true | _ => false end.

(* ------------------------------------------------------------------ *)
(** ** Sample surroundings and metrics *)

Module Sample.

(** A clock that advances one second per reading; a platform that
    converts out-of-range floats as amd64 does. *)
Definition env_ok : Env :=
  {| clock := fun k => 1700000000 + Z.of_nat k;
     dial := fun _ _ => None;
     conn_write := fun _ _ => Wrote;
     float_overflow := fun _ => int64.min_int |}.

(** No server listens. *)
Definition env_refused : Env :=
  {| clock := clock env_ok;
     dial := fun _ _ => Some "connection refused";
     conn_write := conn_write env_ok;
     float_overflow := float_overflow env_ok |}.

(** The connection opens and then fails every write. *)
Definition env_broken : Env :=
  with_writes env_ok (fun _ _ => Failed 0 "broken pipe").

Definition histogram : metrics.Histogram.Snapshot :=
  {| metrics.Histogram.Count := 3;
     metrics.Histogram.Max := 9;
     metrics.Histogram.Mean := float64.lit 45 1;
     metrics.Histogram.Min := 1;
     metrics.Histogram.Percentile := fun p => float64.mul p (float64.of_int 10);
     metrics.Histogram.StdDev := float64.lit 1234 3 |}.

Definition timer : metrics.Timer.Snapshot :=
  {| metrics.Timer.Count := 3;
     metrics.Timer.Max := 9500000;
     metrics.Timer.Mean := float64.of_int 4500000;
     metrics.Timer.Min := 1500000;
     metrics.Timer.Percentile := fun p => float64.mul p (float64.of_int 10000000);
     metrics.Timer.Rate1 := float64.lit 15 1;
     metrics.Timer.Rate5 := float64.lit 25 1;
     metrics.Timer.Rate15 := float64.lit 35 1;
     metrics.Timer.RateMean := float64.lit 45 1;
     metrics.Timer.StdDev := float64.of_int 1234000 |}.

Definition tagged : string := "disk.used;datacenter=dc1;rack=a1;server=web01".

Definition registry : metrics.Registry :=
  [(tagged, metrics.Counter 42);
   ("probe", metrics.Other "metrics.Healthcheck");
   ("latency", metrics.Timer timer)].

(** Ten seconds between flushes, durations in milliseconds. *)
Definition config : Config :=
  {| Addr := "127.0.0.1:2003";
     Registry := registry;
     FlushInterval := 10 * time.Second;
     DurationUnit := 1000000;
     Prefix := "app";
     Percentiles := [float64.lit 5 1; float64.lit 95 2; float64.lit 999 3] |}.

End Sample.

(* ------------------------------------------------------------------ *)
(** * Properties *)

Section SplitFacts.

Lemma take_drop (n : nat) (s : string) :
  strings.take n s ++ strings.drop n s = s.
Proof.
  revert s; induction n as [|n IH]; intros [|c s]; simpl; trivial.
  now rewrite IH.
Qed.

End SplitFacts.


Arguments strconv.itoa : simpl never.
Arguments fmt.fmtFloat : simpl never.
Arguments percentileKey : simpl never.
Arguments float64.div : simpl never.
Arguments float64.mul : simpl never.
Arguments float64.of_int : simpl never.
Arguments splitNameAndTags : simpl never.

Section SplitProofs.

Lemma HasPrefix_char (s : string) (c : ascii) :
  strings.HasPrefix s (String c "") =
  match s with
  | EmptyString => false
  | String d _ => Ascii.eqb c d
  end.
Proof.
  destruct s as [|d s]; simpl; trivial.
  destruct (Ascii.eqb c d); destruct s; reflexivity.
Qed.

(** [Index] never answers below [-1]. *)
Lemma Index_lower (s sep : string) : -1 <= strings.Index s sep.
Proof.
  induction s as [|d s IH]; cbn [strings.Index].
  - destruct (strings.HasPrefix "" sep); lia.
  - destruct (strings.HasPrefix (String d s) sep); [lia|].
    destruct (strings.Index s sep <? 0) eqn:E; [lia|].
    apply Z.ltb_ge in E. lia.
Qed.

(** What [Index] finds for a one-character separator: nothing, or the cut
    [m] with the separator right behind a prefix that has none. *)
Lemma Index_char (s : string) (c : ascii) :
  strings.Index s (String c "") = -1 \/
  exists m : nat,
    strings.Index s (String c "") = Z.of_nat m /\
    s = strings.take m s ++ String c (strings.drop (m + 1) s) /\
    strings.Index (strings.take m s) (String c "") = -1.
Proof.
  induction s as [|d s IH].
  - left. reflexivity.
  - cbn [strings.Index]. rewrite HasPrefix_char.
    destruct (Ascii.eqb c d) eqn:Ecd.
    + right. exists 0%nat. apply Ascii.eqb_eq in Ecd. subst d.
      repeat split.
    + destruct IH as [IH | (m & Hm & Hs & Ht)].
      * left. now rewrite IH.
      * right. exists (S m). rewrite Hm.
        assert ((Z.of_nat m <? 0) = false) as -> by (apply Z.ltb_ge; lia).
        repeat split.
        -- lia.
        -- cbn [strings.take strings.drop Nat.add String.append]. now rewrite <- Hs.
        -- cbn [strings.take strings.Index]. rewrite HasPrefix_char, Ecd, Ht.
           reflexivity.
Qed.

(** [splitNameAndTags] by cases on [Index]. *)
Lemma splitNameAndTags_cases (s : string) :
  (strings.Index s ";" = -1 /\ splitNameAndTags s = (s, "")) \/
  (exists m : nat,
     strings.Index s ";" = Z.of_nat m /\
     s = strings.take m s ++ ";" ++ strings.drop (m + 1) s /\
     strings.Index (strings.take m s) ";" = -1 /\
     splitNameAndTags s = (strings.take m s, ";" ++ strings.drop (m + 1) s)).
Proof.
  unfold splitNameAndTags, strings.Contains.
  destruct (Index_char s ";"%char) as [H | (m & Hm & Hs & Ht)].
  - left. rewrite H. auto.
  - right. exists m. rewrite Hm.
    assert ((0 <=? Z.of_nat m) = true) as -> by (apply Z.leb_le; lia).
    repeat split; trivial.
    unfold strings.SplitN.
    destruct s as [|d s]; [cbn in Hm; lia|].
    replace (Nat.min 2 (String.length (String d s) + 1) - 1)%nat with 1%nat
      by (cbn [String.length]; destruct (String.length s); reflexivity).
    cbn [strings.genSplit_loop]. rewrite Hm.
    assert ((Z.of_nat m <? 0) = false) as -> by (apply Z.ltb_ge; lia).
    rewrite Nat2Z.id. reflexivity.
Qed.

End SplitProofs.

(* ------------------------------------------------------------------ *)
(** ** The callback, kind by kind *)

Section Callback.

Variable to_int64 : float64.t -> Z.
Variable c : Config.
Variable now : Z.
Variables du fs : float64.t.

Lemma nth_error_map_app {A B} (g : A -> B) (pre l : list A) (a : A) :
  nth_error (map g (pre ++ a :: l)) (List.length pre) = Some (g a).
Proof. induction pre; simpl; auto. Qed.

(** A [range] loop that prints one text per element, reading its value at
    the element's index in the mapped list, prints them in list order and
    never runs out of range. *)
Lemma range_index {A} (g : A -> float64.t) (k : A -> float64.t -> Out.t unit)
  (text : A -> float64.t -> string) :
  (forall a v, k a v = ([CFprintf (text a v)], Ok tt)) ->
  forall pre l,
    Out.range_from (List.length pre) l
      (fun i a => Out.bind (Out.index (map g (pre ++ l)) i) (fun v => k a v)) =
    (map (fun a => CFprintf (text a (g a))) l, Ok tt).
Proof.
  intros Hk pre l. revert pre. induction l as [|a l IH]; intros pre.
  - reflexivity.
  - cbn [Out.range_from]. unfold Out.index at 1. rewrite nth_error_map_app.
    cbn [Out.bind Out.ret]. rewrite Hk.
    specialize (IH (pre ++ [a])%list).
    rewrite <- app_assoc in IH. cbn [app] in IH.
    rewrite length_app in IH. cbn [List.length] in IH.
    replace (List.length pre + 1)%nat with (S (List.length pre)) in IH by lia.
    cbn. rewrite IH. reflexivity.
Qed.

Lemma visit_Counter (raw : string) (count : Z) :
  visit to_int64 c now du fs raw (metrics.Counter count) =
  let '(name, tags) := splitNameAndTags raw in
  ([CFprintf (line (Prefix c) name "count" tags (strconv.itoa count) now);
    CFprintf (line (Prefix c) name "count_ps" tags
                (fmt.fmtFloat (float64.div (float64.of_int count) fs) 2) now);
    CFlush], Ok tt).
Proof. unfold visit. destruct (splitNameAndTags raw). reflexivity. Qed.

Lemma visit_Gauge (raw : string) (value : Z) :
  visit to_int64 c now du fs raw (metrics.Gauge value) =
  let '(name, tags) := splitNameAndTags raw in
  ([CFprintf (line (Prefix c) name "value" tags (strconv.itoa value) now);
    CFlush], Ok tt).
Proof. unfold visit. destruct (splitNameAndTags raw). reflexivity. Qed.

Lemma visit_GaugeFloat64 (raw : string) (value : float64.t) :
  visit to_int64 c now du fs raw (metrics.GaugeFloat64 value) =
  let '(name, tags) := splitNameAndTags raw in
  ([CFprintf (line (Prefix c) name "value" tags (fmt.fmtFloat value 6) now);
    CFlush], Ok tt).
Proof. unfold visit. destruct (splitNameAndTags raw). reflexivity. Qed.

Lemma visit_Histogram (raw : string) (h : metrics.Histogram.Snapshot) :
  visit to_int64 c now du fs raw (metrics.Histogram h) =
  let '(name, tags) := splitNameAndTags raw in
  (([CFprintf (line (Prefix c) name "count" tags (strconv.itoa (metrics.Histogram.Count h)) now);
     CFprintf (line (Prefix c) name "min" tags (strconv.itoa (metrics.Histogram.Min h)) now);
     CFprintf (line (Prefix c) name "max" tags (strconv.itoa (metrics.Histogram.Max h)) now);
     CFprintf (line (Prefix c) name "mean" tags (fmt.fmtFloat (metrics.Histogram.Mean h) 2) now);
     CFprintf (line (Prefix c) name "std-dev" tags (fmt.fmtFloat (metrics.Histogram.StdDev h) 2) now)]
    ++ map (fun p =>
              CFprintf (percentile_line (Prefix c) name tags (percentileKey p)
                          (fmt.fmtFloat (metrics.Histogram.Percentile h p) 2) now))
         (Percentiles c)
    ++ [CFlush])%list, Ok tt).
Proof.
  unfold visit. destruct (splitNameAndTags raw) as [name tags].
  cbv zeta. unfold Out.range, metrics.Histogram.Percentiles.
  erewrite (range_index (metrics.Histogram.Percentile h) _
              (fun p v => percentile_line (Prefix c) name tags (percentileKey p)
                            (fmt.fmtFloat v 2) now) _ [] (Percentiles c)).
  - reflexivity.
Unshelve.
  reflexivity.
Qed.

Lemma visit_Meter (raw : string) (m : metrics.Meter.Snapshot) :
  visit to_int64 c now du fs raw (metrics.Meter m) =
  let '(name, tags) := splitNameAndTags raw in
  ([CFprintf (line (Prefix c) name "count" tags (strconv.itoa (metrics.Meter.Count m)) now);
    CFprintf (line (Prefix c) name "one-minute" tags (fmt.fmtFloat (metrics.Meter.Rate1 m) 2) now);
    CFprintf (line (Prefix c) name "five-minute" tags (fmt.fmtFloat (metrics.Meter.Rate5 m) 2) now);
    CFprintf (line (Prefix c) name "fifteen-minute" tags (fmt.fmtFloat (metrics.Meter.Rate15 m) 2) now);
    CFprintf (line (Prefix c) name "mean" tags (fmt.fmtFloat (metrics.Meter.RateMean m) 2) now);
    CFlush], Ok tt).
Proof. unfold visit. destruct (splitNameAndTags raw). reflexivity. Qed.

(** A timer whose unit converts to the integer zero panics at the division
    for [min], with [count] and [count_ps] printed and nothing flushed. *)
Lemma visit_Timer_zero (raw : string) (t : metrics.Timer.Snapshot) :
  to_int64 du = 0 ->
  visit to_int64 c now du fs raw (metrics.Timer t) =
  let '(name, tags) := splitNameAndTags raw in
  ([CFprintf (line (Prefix c) name "count" tags (strconv.itoa (metrics.Timer.Count t)) now);
    CFprintf (line (Prefix c) name "count_ps" tags
                (fmt.fmtFloat (float64.div (float64.of_int (metrics.Timer.Count t)) fs) 2) now)],
   Panic "runtime error: integer divide by zero").
Proof.
  intros Hz. unfold visit. destruct (splitNameAndTags raw) as [name tags].
  cbv zeta. unfold Out.quo, int64.div. rewrite Hz. reflexivity.
Qed.

Lemma visit_Timer (raw : string) (t : metrics.Timer.Snapshot) :
  to_int64 du <> 0 ->
  visit to_int64 c now du fs raw (metrics.Timer t) =
  let '(name, tags) := splitNameAndTags raw in
  (([CFprintf (line (Prefix c) name "count" tags (strconv.itoa (metrics.Timer.Count t)) now);
     CFprintf (line (Prefix c) name "count_ps" tags
                 (fmt.fmtFloat (float64.div (float64.of_int (metrics.Timer.Count t)) fs) 2) now);
     CFprintf (line (Prefix c) name "min" tags
                 (strconv.itoa (int64.wrap (Z.quot (metrics.Timer.Min t) (to_int64 du)))) now);
     CFprintf (line (Prefix c) name "max" tags
                 (strconv.itoa (int64.wrap (Z.quot (metrics.Timer.Max t) (to_int64 du)))) now);
     CFprintf (line (Prefix c) name "mean" tags
                 (fmt.fmtFloat (float64.div (metrics.Timer.Mean t) du) 2) now);
     CFprintf (line (Prefix c) name "std-dev" tags
                 (fmt.fmtFloat (float64.div (metrics.Timer.StdDev t) du) 2) now)]
    ++ map (fun p =>
              CFprintf (percentile_line (Prefix c) name tags (percentileKey p)
                          (fmt.fmtFloat (float64.div (metrics.Timer.Percentile t p) du) 2) now))
         (Percentiles c)
    ++ [CFprintf (line (Prefix c) name "one-minute" tags (fmt.fmtFloat (metrics.Timer.Rate1 t) 2) now);
        CFprintf (line (Prefix c) name "five-minute" tags (fmt.fmtFloat (metrics.Timer.Rate5 t) 2) now);
        CFprintf (line (Prefix c) name "fifteen-minute" tags (fmt.fmtFloat (metrics.Timer.Rate15 t) 2) now);
        CFprintf (line (Prefix c) name "mean-rate" tags (fmt.fmtFloat (metrics.Timer.RateMean t) 2) now);
        CFlush])%list, Ok tt).
Proof.
  intros Hz. unfold visit. destruct (splitNameAndTags raw) as [name tags].
  cbv zeta. unfold Out.quo, int64.div.
  apply Z.eqb_neq in Hz. rewrite Hz.
  unfold Out.range, metrics.Timer.Percentiles.
  erewrite (range_index (metrics.Timer.Percentile t) _
              (fun p v => percentile_line (Prefix c) name tags (percentileKey p)
                            (fmt.fmtFloat (float64.div v du) 2) now) _ [] (Percentiles c)).
  - unfold Out.Fprintf, Out.Flush. cbn [Out.bind Out.ret app].
    rewrite <- !app_assoc. reflexivity.
Unshelve.
  reflexivity.
Qed.

Lemma visit_Other (raw type_name : string) :
  visit to_int64 c now du fs raw (metrics.Other type_name) =
  ([CLogf ("unable to record metric of type " ++ type_name ++ LF); CFlush], Ok tt).
Proof. unfold visit. destruct (splitNameAndTags raw). reflexivity. Qed.

End Callback.

(* ------------------------------------------------------------------ *)
(** ** Traces *)

Section Traces.

Lemma erase_app (a b : trace) : erase (a ++ b)%list = (erase a ++ erase b)%list.
Proof. apply filter_app. Qed.

Lemma erase_only_writes (evs : trace) : only_writes evs -> erase evs = [].
Proof.
  induction 1 as [|e evs He _ IH]; [reflexivity|].
  unfold erase in *. cbn [filter]. now rewrite He.
Qed.

Lemma only_writes_app (a b : trace) :
  only_writes a -> only_writes b -> only_writes (a ++ b)%list.
Proof. intros. now apply Forall_app. Qed.

Lemma emitted_app (a b : trace) : emitted (a ++ b)%list = (emitted a ++ emitted b)%list.
Proof.
  induction a as [|e a IH]; [reflexivity|].
  destruct e; cbn [app emitted]; rewrite IH; reflexivity.
Qed.

Lemma visited_app (a b : trace) : visited (a ++ b)%list = (visited a ++ visited b)%list.
Proof.
  induction a as [|e a IH]; [reflexivity|].
  destruct e; cbn [app visited]; rewrite IH; reflexivity.
Qed.

Lemma logged_app (a b : trace) : logged (a ++ b)%list = (logged a ++ logged b)%list.
Proof.
  induction a as [|e a IH]; [reflexivity|].
  destruct e; cbn [app logged]; rewrite IH; reflexivity.
Qed.

Lemma count_app (p : io_event -> bool) (a b : trace) :
  count p (a ++ b)%list = (count p a + count p b)%nat.
Proof. unfold count. now rewrite filter_app, length_app. Qed.

Lemma emitted_erase (tr : trace) : emitted (erase tr) = emitted tr.
Proof.
  unfold erase. induction tr as [|e tr IH]; [reflexivity|].
  destruct e; cbn; rewrite ?IH; reflexivity.
Qed.

Lemma visited_erase (tr : trace) : visited (erase tr) = visited tr.
Proof.
  unfold erase. induction tr as [|e tr IH]; [reflexivity|].
  destruct e; cbn; rewrite ?IH; reflexivity.
Qed.

Lemma logged_erase (tr : trace) : logged (erase tr) = logged tr.
Proof.
  unfold erase. induction tr as [|e tr IH]; [reflexivity|].
  destruct e; cbn; rewrite ?IH; reflexivity.
Qed.

Lemma count_erase (p : io_event -> bool) (tr : trace) :
  (forall e, is_write e = true -> p e = false) ->
  count p (erase tr) = count p tr.
Proof.
  intros Hp. unfold count, erase.
  induction tr as [|e tr IH]; [reflexivity|].
  cbn [filter]. destruct (is_write e) eqn:Ew; cbn [negb].
  - rewrite (Hp e Ew). exact IH.
  - cbn [filter]. destruct (p e); cbn [List.length]; now rewrite IH.
Qed.

Lemma emitted_cmds (cs : list cmd) : emitted (map cmd_event cs) = texts cs.
Proof.
  induction cs as [|x cs IH]; [reflexivity|].
  destruct x; cbn; now rewrite IH.
Qed.

End Traces.

(* ------------------------------------------------------------------ *)
(** ** The cycle and its writes *)

Section Cycle.

Lemma conn_Write_runs (conn : nat) (p : string) (env : Env) (tr : trace) :
  exists r, conn_Write conn p env tr = (Ok r, (tr ++ [EWrite conn p r])%list).
Proof. unfold conn_Write. eauto. Qed.

Lemma Flush_runs (b : bufio.Writer) (env : Env) (tr : trace) :
  exists b' ws,
    bufio.Flush b env tr = (Ok b', (tr ++ ws)%list) /\ only_writes ws.
Proof.
  unfold bufio.Flush.
  destruct (bufio.err b).
  { exists b, []. rewrite app_nil_r. split; [reflexivity | constructor]. }
  destruct (bufio.Buffered b).
  { exists b, []. rewrite app_nil_r. split; [reflexivity | constructor]. }
  unfold M.bind.
  destruct (conn_Write_runs (bufio.wr b) (bufio.buf b) env tr) as (r & ->).
  destruct r; eexists; eexists; (split; [reflexivity|]);
    repeat constructor.
Qed.

Lemma Write_loop_runs (fuel : nat) (b : bufio.Writer) (p : string)
  (env : Env) (tr : trace) :
  exists bp ws,
    bufio.Write_loop fuel b p env tr = (Ok bp, (tr ++ ws)%list) /\ only_writes ws.
Proof.
  revert b p tr. induction fuel as [|fuel IH]; intros b p tr.
  - cbn [bufio.Write_loop].
    destruct (bufio.err b); [|destruct (_ <=? _)%nat];
      eexists; exists []; rewrite app_nil_r; (split; [reflexivity | constructor]).
  - cbn [bufio.Write_loop].
    destruct (bufio.err b) eqn:Eerr.
    { eexists; exists []; rewrite app_nil_r; split; [reflexivity | constructor]. }
    destruct (_ <=? _)%nat.
    { eexists; exists []; rewrite app_nil_r; split; [reflexivity | constructor]. }
    destruct (bufio.Buffered b).
    + unfold M.bind.
      destruct (conn_Write_runs (bufio.wr b) p env tr) as (r & ->).
      destruct r.
      * destruct (IH b "" (tr ++ [EWrite (bufio.wr b) p Wrote])%list)
          as (bp & ws & -> & Hws).
        exists bp, (EWrite (bufio.wr b) p Wrote :: ws).
        rewrite <- app_assoc. split; [reflexivity|]. constructor; trivial.
      * match goal with
        | |- context [bufio.Write_loop fuel ?b' ?p' env ?tr'] =>
            destruct (IH b' p' tr') as (bp & ws & -> & Hws)
        end.
        eexists bp, (_ :: ws).
        rewrite <- app_assoc. split; [reflexivity|]. constructor; trivial.
    + unfold M.bind.
      match goal with
      | |- context [bufio.Flush ?b' env tr] =>
          destruct (Flush_runs b' env tr) as (b1 & ws1 & -> & Hws1)
      end.
      match goal with
      | |- context [bufio.Write_loop fuel ?b' ?p' env ?tr'] =>
          destruct (IH b' p' tr') as (bp & ws & -> & Hws)
      end.
      exists bp, (ws1 ++ ws)%list. rewrite app_assoc.
      split; [reflexivity|]. now apply only_writes_app.
Qed.

Lemma Write_runs (b : bufio.Writer) (p : string) (env : Env) (tr : trace) :
  exists b' ws,
    bufio.Write b p env tr = (Ok b', (tr ++ ws)%list) /\ only_writes ws.
Proof.
  unfold bufio.Write, M.bind.
  destruct (Write_loop_runs 2 b p env tr) as ([b' p'] & ws & -> & Hws).
  destruct (bufio.err b'); eexists; exists ws; split; trivial; reflexivity.
Qed.

(** Carrying out a callback's commands never panics, and apart from
    connection writes it adds exactly the commands' events. *)
Lemma perform_runs (cs : list cmd) (w : bufio.Writer) (env : Env) (tr : trace) :
  exists w' evs,
    perform w cs env tr = (Ok w', (tr ++ evs)%list) /\
    erase evs = map cmd_event cs.
Proof.
  revert w tr. induction cs as [|x cs IH]; intros w tr.
  - exists w, []. rewrite app_nil_r. split; reflexivity.
  - destruct x; cbn [perform]; unfold M.bind, M.tell.
    + match goal with
      | |- context [bufio.Write w ?p env ?tr'] =>
          destruct (Write_runs w p env tr') as (w1 & ws & -> & Hws)
      end.
      destruct (IH w1 ((tr ++ [EFprintf text]) ++ ws)%list) as (w' & evs & -> & Hevs).
      exists w', (EFprintf text :: ws ++ evs)%list.
      split.
      * f_equal. rewrite <- !app_assoc. reflexivity.
      * change (EFprintf text :: ws ++ evs)%list
          with ([EFprintf text] ++ ws ++ evs)%list.
        rewrite !erase_app, (erase_only_writes ws Hws), Hevs. reflexivity.
    + destruct (IH w (tr ++ [ELog text])%list) as (w' & evs & -> & Hevs).
      exists w', (ELog text :: evs).
      split.
      * f_equal. rewrite <- app_assoc. reflexivity.
      * change (ELog text :: evs) with ([ELog text] ++ evs)%list.
        rewrite erase_app, Hevs. reflexivity.
    + match goal with
      | |- context [bufio.Flush w env ?tr'] =>
          destruct (Flush_runs w env tr') as (w1 & ws & -> & Hws)
      end.
      destruct (IH w1 ((tr ++ [EFlush]) ++ ws)%list) as (w' & evs & -> & Hevs).
      exists w', (EFlush :: ws ++ evs)%list.
      split.
      * f_equal. rewrite <- !app_assoc. reflexivity.
      * change (EFlush :: ws ++ evs)%list with ([EFlush] ++ ws ++ evs)%list.
        rewrite !erase_app, (erase_only_writes ws Hws), Hevs. reflexivity.
Qed.

Lemma Each_loop_runs (r : metrics.Registry)
  (f : string -> metrics.Metric -> Out.t unit)
  (w : bufio.Writer) (env : Env) (tr : trace) :
  exists res evs,
    Each_loop r f w env tr = (res, (tr ++ evs)%list) /\
    erase evs = fst (Each_events r f) /\
    forget res = snd (Each_events r f).
Proof.
  revert w tr. induction r as [|[name i] r IH]; intros w tr.
  - exists (Ok w), []. rewrite app_nil_r. repeat split.
  - cbn [Each_loop Each_events]. unfold M.bind, M.tell.
    destruct (f name i) as [cs res0].
    destruct (perform_runs cs w env (tr ++ [EVisit name])%list)
      as (w1 & evs1 & -> & Hevs1).
    destruct res0 as [[]|msg].
    + destruct (IH w1 ((tr ++ [EVisit name]) ++ evs1)%list)
        as (res & evs & -> & Hevs & Hres).
      destruct (Each_events r f) as [evs' res'].
      exists res, (EVisit name :: evs1 ++ evs)%list.
      repeat split.
      * f_equal. rewrite <- !app_assoc. reflexivity.
      * change (EVisit name :: evs1 ++ evs)%list
          with ([EVisit name] ++ evs1 ++ evs)%list.
        rewrite !erase_app, Hevs1, Hevs. reflexivity.
      * exact Hres.
    + exists (Panic msg), (EVisit name :: evs1)%list.
      repeat split.
      * unfold M.panic. f_equal. rewrite <- app_assoc. reflexivity.
      * change (EVisit name :: evs1)%list with ([EVisit name] ++ evs1)%list.
        rewrite erase_app, Hevs1. reflexivity.
Qed.

(** [graphite] extends the trace, and apart from connection writes it does
    what [cycle] says. *)
Lemma graphite_cycle (c : Config) (env : Env) (tr : trace) :
  exists evs,
    graphite c env tr =
      (snd (cycle c env (count is_time tr) (count is_dial tr)), (tr ++ evs)%list) /\
    erase evs = fst (cycle c env (count is_time tr) (count is_dial tr)).
Proof.
  unfold graphite, cycle, M.bind, time_Now_Unix, DialTCP.
  set (now := clock env (count is_time tr)).
  assert (count is_dial (tr ++ [ETime now])%list = count is_dial tr) as ->
    by (rewrite count_app; cbn; lia).
  set (k := count is_dial tr).
  destruct (dial env k (Addr c)) as [err|].
  - exists [ETime now; EDial (Addr c) (Some err)].
    split; [|reflexivity].
    unfold M.ret. f_equal. rewrite <- app_assoc. reflexivity.
  - unfold M.defer, Each, conn_Close, M.bind, M.tell.
    fold (callback c env now).
    match goal with
    | |- context [Each_loop ?r ?f ?w env ?tr'] =>
        destruct (Each_loop_runs r f w env tr') as (res & evs & -> & Hevs & Hres)
    end.
    destruct (Each_events (Registry c) (callback c env now)) as [evs' res'].
    cbn [fst snd] in *. subst evs'.
    exists ([ETime now; EDial (Addr c) None; EEach] ++ evs ++ [EClose k])%list.
    split.
    + destruct res as [w'|msg]; cbn in Hres; subst res'; unfold M.ret;
        cbv beta iota zeta; f_equal; rewrite <- !app_assoc; reflexivity.
    + rewrite !erase_app. reflexivity.
Qed.

End Cycle.

(* ------------------------------------------------------------------ *)
(** ** What a cycle shows of itself *)

Section Observations.

Lemma graphite_result (c : Config) (env : Env) (tr : trace) :
  fst (graphite c env tr) = snd (cycle c env (count is_time tr) (count is_dial tr)).
Proof. destruct (graphite_cycle c env tr) as (evs & -> & _). reflexivity. Qed.

Lemma graphite_erase (c : Config) (env : Env) (tr : trace) :
  erase (snd (graphite c env tr)) =
  (erase tr ++ fst (cycle c env (count is_time tr) (count is_dial tr)))%list.
Proof.
  destruct (graphite_cycle c env tr) as (evs & -> & H).
  cbn [snd]. now rewrite erase_app, H.
Qed.

Lemma graphite_emitted (c : Config) (env : Env) (tr : trace) :
  emitted (snd (graphite c env tr)) =
  (emitted tr ++ emitted (fst (cycle c env (count is_time tr) (count is_dial tr))))%list.
Proof.
  rewrite <- emitted_erase, graphite_erase, emitted_app, emitted_erase.
  reflexivity.
Qed.

Lemma graphite_visited (c : Config) (env : Env) (tr : trace) :
  visited (snd (graphite c env tr)) =
  (visited tr ++ visited (fst (cycle c env (count is_time tr) (count is_dial tr))))%list.
Proof.
  rewrite <- visited_erase, graphite_erase, visited_app, visited_erase.
  reflexivity.
Qed.

Lemma graphite_logged (c : Config) (env : Env) (tr : trace) :
  logged (snd (graphite c env tr)) =
  (logged tr ++ logged (fst (cycle c env (count is_time tr) (count is_dial tr))))%list.
Proof.
  rewrite <- logged_erase, graphite_erase, logged_app, logged_erase.
  reflexivity.
Qed.

(** The events of [Each] hold no clock reading. *)
Lemma Each_events_no_time (r : metrics.Registry)
  (f : string -> metrics.Metric -> Out.t unit) :
  count is_time (fst (Each_events r f)) = 0%nat.
Proof.
  induction r as [|[name i] r IH]; [reflexivity|].
  cbn [Each_events]. destruct (f name i) as [cs res].
  assert (Hcs : count is_time (map cmd_event cs) = 0%nat).
  { clear. induction cs as [|x cs IH]; [reflexivity|]. destruct x; exact IH. }
  destruct res as [[]|msg].
  - destruct (Each_events r f) as [evs' res']. cbn [fst] in *.
    change (count is_time (map cmd_event cs ++ evs')%list = 0%nat).
    rewrite count_app, Hcs, IH. reflexivity.
  - exact Hcs.
Qed.

(** The texts of [Each] are the texts of its callbacks. *)
Lemma Each_events_emitted (P : string -> Prop) (r : metrics.Registry)
  (f : string -> metrics.Metric -> Out.t unit) :
  (forall name i, Forall P (texts (fst (f name i)))) ->
  Forall P (emitted (fst (Each_events r f))).
Proof.
  intros Hf. induction r as [|[name i] r IH]; [constructor|].
  cbn [Each_events]. specialize (Hf name i).
  destruct (f name i) as [cs res]. cbn [fst] in Hf.
  destruct res as [[]|msg].
  - destruct (Each_events r f) as [evs' res']. cbn [fst] in *.
    change (Forall P (emitted (map cmd_event cs ++ evs')%list)).
    rewrite emitted_app, emitted_cmds.
    apply Forall_app. split; assumption.
  - change (Forall P (emitted (map cmd_event cs))). now rewrite emitted_cmds.
Qed.

(** An enumeration that ends without panic has visited every name. *)
Lemma Each_events_visited (r : metrics.Registry)
  (f : string -> metrics.Metric -> Out.t unit) :
  snd (Each_events r f) = Ok tt ->
  visited (fst (Each_events r f)) = map fst r.
Proof.
  induction r as [|[name i] r IH]; [reflexivity|].
  cbn [Each_events]. destruct (f name i) as [cs res].
  assert (Hcs : forall rest, visited (map cmd_event cs ++ rest)%list = visited rest).
  { clear. intros rest. induction cs as [|x cs IH]; [reflexivity|].
    destruct x; exact IH. }
  destruct res as [[]|msg].
  - destruct (Each_events r f) as [evs' res']. cbn [fst snd] in *.
    intros Hres.
    change (name :: visited (map cmd_event cs ++ evs')%list = name :: map fst r).
    rewrite Hcs, (IH Hres). reflexivity.
  - discriminate.
Qed.

(** A metric of an unknown kind in the middle of a registry. *)
Lemma Each_events_Other (f : string -> metrics.Metric -> Out.t unit)
  (r1 r2 : metrics.Registry) (raw type_name msg : string) :
  f raw (metrics.Other type_name) = ([CLogf msg; CFlush], Ok tt) ->
  snd (Each_events (r1 ++ (raw, metrics.Other type_name) :: r2)%list f) =
    snd (Each_events (r1 ++ r2)%list f) /\
  emitted (fst (Each_events (r1 ++ (raw, metrics.Other type_name) :: r2)%list f)) =
    emitted (fst (Each_events (r1 ++ r2)%list f)) /\
  (snd (Each_events (r1 ++ r2)%list f) = Ok tt ->
   In msg (logged (fst (Each_events (r1 ++ (raw, metrics.Other type_name) :: r2)%list f)))).
Proof.
  intros Hf. induction r1 as [|[name i] r1 IH].
  - cbn [app Each_events]. rewrite Hf.
    destruct (Each_events r2 f) as [evs' res']. cbn. auto.
  - cbn [app Each_events]. destruct (f name i) as [cs res].
    destruct res as [[]|m].
    + destruct IH as (IH1 & IH2 & IH3).
      destruct (Each_events (r1 ++ (raw, metrics.Other type_name) :: r2)%list f)
        as [evsA resA].
      destruct (Each_events (r1 ++ r2)%list f) as [evsB resB].
      cbn [fst snd] in *. subst resA.
      repeat split.
      * change (emitted (map cmd_event cs ++ evsA)%list =
                emitted (map cmd_event cs ++ evsB)%list).
        rewrite !emitted_app, IH2. reflexivity.
      * intros Hres.
        change (In msg (logged (map cmd_event cs ++ evsA)%list)).
        rewrite logged_app. apply in_or_app. right. auto.
    + cbn. repeat split. discriminate.
Qed.

End Observations.

(* ------------------------------------------------------------------ *)
(** ** Line endings *)

Section Endings.

Lemma string_app_assoc (a b c : string) : (a ++ b) ++ c = a ++ b ++ c.
Proof. induction a as [|x a IH]; [reflexivity|]. cbn. now rewrite IH. Qed.

Lemma EndsWith_refl (s : string) : EndsWith s s.
Proof. now exists "". Qed.

Lemma EndsWith_app (a b suffix : string) :
  EndsWith b suffix -> EndsWith (a ++ b) suffix.
Proof.
  intros [body ->]. exists (a ++ body). now rewrite string_app_assoc.
Qed.

Lemma line_stamp (prefix name field tags value : string) (now : Z) :
  EndsWith (line prefix name field tags value now) (stamp now).
Proof. unfold line. do 8 apply EndsWith_app. apply EndsWith_refl. Qed.

Lemma percentile_line_stamp (prefix name tags key value : string) (now : Z) :
  EndsWith (percentile_line prefix name tags key value now) (stamp now).
Proof. unfold percentile_line. do 9 apply EndsWith_app. apply EndsWith_refl. Qed.

Lemma texts_app (a b : list cmd) : texts (a ++ b)%list = (texts a ++ texts b)%list.
Proof.
  induction a as [|x a IH]; [reflexivity|].
  destruct x; cbn [app texts]; now rewrite IH.
Qed.

Lemma texts_map_CFprintf {A} (g : A -> string) (l : list A) :
  texts (map (fun a => CFprintf (g a)) l) = map g l.
Proof. induction l as [|a l IH]; [reflexivity|]. cbn. now rewrite IH. Qed.

(** Whatever the metric, every text its callback prints ends with the
    timestamp the callback was given. *)
Lemma visit_texts_stamp (to_int64 : float64.t -> Z) (c : Config) (now : Z)
  (du fs : float64.t) (raw : string) (i : metrics.Metric) :
  Forall (fun s => EndsWith s (stamp now))
    (texts (fst (visit to_int64 c now du fs raw i))).
Proof.
  destruct i.
  - rewrite visit_Counter. destruct (splitNameAndTags raw).
    cbn [fst texts]. repeat (apply Forall_cons; [apply line_stamp|]); apply Forall_nil.
  - rewrite visit_Gauge. destruct (splitNameAndTags raw).
    cbn [fst texts]. repeat (apply Forall_cons; [apply line_stamp|]); apply Forall_nil.
  - rewrite visit_GaugeFloat64. destruct (splitNameAndTags raw).
    cbn [fst texts]. repeat (apply Forall_cons; [apply line_stamp|]); apply Forall_nil.
  - rewrite visit_Histogram. destruct (splitNameAndTags raw) as [name tags].
    cbn [fst]. rewrite !texts_app, texts_map_CFprintf.
    apply Forall_app; split; [|apply Forall_app; split].
    + cbn [texts]. repeat (apply Forall_cons; [apply line_stamp|]); apply Forall_nil.
    + apply Forall_map, Forall_forall. intros p _. apply percentile_line_stamp.
    + constructor.
  - rewrite visit_Meter. destruct (splitNameAndTags raw).
    cbn [fst texts]. repeat (apply Forall_cons; [apply line_stamp|]); apply Forall_nil.
  - destruct (Z.eq_dec (to_int64 du) 0) as [Hz|Hz].
    + rewrite (visit_Timer_zero _ _ _ _ _ _ _ Hz).
      destruct (splitNameAndTags raw).
      cbn [fst texts]. repeat (apply Forall_cons; [apply line_stamp|]); apply Forall_nil.
    + rewrite (visit_Timer _ _ _ _ _ _ _ Hz).
      destruct (splitNameAndTags raw) as [name tags].
      cbn [fst]. rewrite !texts_app, texts_map_CFprintf.
      apply Forall_app; split; [|apply Forall_app; split].
      * cbn [texts]. repeat (apply Forall_cons; [apply line_stamp|]); apply Forall_nil.
      * apply Forall_map, Forall_forall. intros p _. apply percentile_line_stamp.
      * cbn [texts]. repeat (apply Forall_cons; [apply line_stamp|]); apply Forall_nil.
  - rewrite visit_Other. constructor.
Qed.

(** The texts of a Histogram's callback. *)
Lemma callback_Histogram_texts (c : Config) (env : Env) (now : Z) (raw : string)
  (h : metrics.Histogram.Snapshot) :
  texts (fst (callback c env now raw (metrics.Histogram h))) =
  let '(name, tags) := splitNameAndTags raw in
  ([line (Prefix c) name "count" tags (strconv.itoa (metrics.Histogram.Count h)) now;
    line (Prefix c) name "min" tags (strconv.itoa (metrics.Histogram.Min h)) now;
    line (Prefix c) name "max" tags (strconv.itoa (metrics.Histogram.Max h)) now;
    line (Prefix c) name "mean" tags (fmt.fmtFloat (metrics.Histogram.Mean h) 2) now;
    line (Prefix c) name "std-dev" tags (fmt.fmtFloat (metrics.Histogram.StdDev h) 2) now]
   ++ map (fun p =>
             percentile_line (Prefix c) name tags (percentileKey p)
               (fmt.fmtFloat (metrics.Histogram.Percentile h p) 2) now)
        (Percentiles c))%list.
Proof.
  unfold callback. rewrite visit_Histogram.
  destruct (splitNameAndTags raw) as [name tags].
  cbn [fst]. rewrite !texts_app, texts_map_CFprintf. cbn [texts app].
  now rewrite app_nil_r.
Qed.

End Endings.

(* ------------------------------------------------------------------ *)
(** ** Shortest digits *)

Section Shortest.

Import strconv.

Lemma scale_den_pos (E k : Z) : 0 < scale_den E k.
Proof.
  unfold scale_den. apply Z.mul_pos_pos; apply Z.pow_pos_nonneg; lia.
Qed.

Lemma scale_num_lt (E k v w : Z) :
  v < w -> scale_num E k v < scale_num E k w.
Proof.
  intros H. unfold scale_num.
  assert (0 < 2 ^ Z.max E 0) by (apply Z.pow_pos_nonneg; lia).
  assert (0 < 10 ^ Z.max (- k) 0) by (apply Z.pow_pos_nonneg; lia).
  apply Z.mul_lt_mono_pos_r; trivial.
  apply Z.mul_lt_mono_pos_r; trivial.
Qed.

Variable iv : interval.
Hypothesis lower_pos : 0 < iv_lower iv.
Hypothesis lower_lt : iv_lower iv < iv_x iv.
Hypothesis upper_gt : iv_x iv < iv_upper iv.

Lemma cut_bounds (k : Z) :
  cut iv k * scale_den (iv_exp iv) k <= scale_num (iv_exp iv) k (iv_x iv)
  < (cut iv k + 1) * scale_den (iv_exp iv) k.
Proof.
  unfold cut. pose proof (scale_den_pos (iv_exp iv) k) as Hd.
  pose proof (Z.mul_div_le (scale_num (iv_exp iv) k (iv_x iv)) _ Hd).
  pose proof (Z.mul_succ_div_gt (scale_num (iv_exp iv) k (iv_x iv)) _ Hd).
  lia.
Qed.

Lemma shortest_loop_step (fuel : nat) (k : Z) :
  shortest_loop (S fuel) iv k =
  if lower_ok iv (cut iv k) k && upper_ok iv (cut iv k + 1) k
  then Some (round_half_even (scale_num (iv_exp iv) k (iv_x iv))
               (scale_den (iv_exp iv) k), k)
  else if lower_ok iv (cut iv k) k then Some (cut iv k, k)
  else if upper_ok iv (cut iv k + 1) k then Some (cut iv k + 1, k)
  else shortest_loop fuel iv (k - 1).
Proof. reflexivity. Qed.

Lemma lower_ok_above (k b : Z) : cut iv k + 1 <= b -> lower_ok iv b k = true.
Proof.
  intros Hb. unfold lower_ok. cbv zeta.
  pose proof (cut_bounds k) as [_ H].
  pose proof (scale_num_lt (iv_exp iv) k _ _ lower_lt).
  pose proof (scale_den_pos (iv_exp iv) k).
  assert ((cut iv k + 1) * scale_den (iv_exp iv) k <= b * scale_den (iv_exp iv) k)
    by (apply Z.mul_le_mono_nonneg_r; lia).
  apply orb_true_iff. left. apply Z.ltb_lt. lia.
Qed.

Lemma upper_ok_below (k b : Z) : b <= cut iv k -> upper_ok iv b k = true.
Proof.
  intros Hb. unfold upper_ok. cbv zeta.
  pose proof (cut_bounds k) as [H _].
  pose proof (scale_num_lt (iv_exp iv) k _ _ upper_gt).
  pose proof (scale_den_pos (iv_exp iv) k).
  assert (b * scale_den (iv_exp iv) k <= cut iv k * scale_den (iv_exp iv) k)
    by (apply Z.mul_le_mono_nonneg_r; lia).
  apply orb_true_iff. left. apply Z.ltb_lt. lia.
Qed.

Lemma lower_ok_mono (k b b' : Z) :
  b <= b' -> lower_ok iv b k = true -> lower_ok iv b' k = true.
Proof.
  unfold lower_ok. cbv zeta. intros Hb H.
  pose proof (scale_den_pos (iv_exp iv) k).
  assert (b * scale_den (iv_exp iv) k <= b' * scale_den (iv_exp iv) k)
    by (apply Z.mul_le_mono_nonneg_r; lia).
  apply orb_true_iff in H. apply orb_true_iff.
  destruct H as [H | H].
  - left. apply Z.ltb_lt in H. apply Z.ltb_lt. lia.
  - apply andb_true_iff in H. destruct H as [Hi H]. apply Z.eqb_eq in H.
    destruct (Z.eq_dec (b * scale_den (iv_exp iv) k) (b' * scale_den (iv_exp iv) k)).
    + right. rewrite Hi. apply Z.eqb_eq. lia.
    + left. apply Z.ltb_lt. lia.
Qed.

Lemma upper_ok_anti (k b b' : Z) :
  b <= b' -> upper_ok iv b' k = true -> upper_ok iv b k = true.
Proof.
  unfold upper_ok. cbv zeta. intros Hb H.
  pose proof (scale_den_pos (iv_exp iv) k).
  assert (b * scale_den (iv_exp iv) k <= b' * scale_den (iv_exp iv) k)
    by (apply Z.mul_le_mono_nonneg_r; lia).
  apply orb_true_iff in H. apply orb_true_iff.
  destruct H as [H | H].
  - left. apply Z.ltb_lt in H. apply Z.ltb_lt. lia.
  - apply andb_true_iff in H. destruct H as [Hi H]. apply Z.eqb_eq in H.
    destruct (Z.eq_dec (b * scale_den (iv_exp iv) k) (b' * scale_den (iv_exp iv) k)).
    + right. rewrite Hi. apply Z.eqb_eq. lia.
    + left. apply Z.ltb_lt. lia.
Qed.

(** A decimal inside the interval at position [k] is one of the two
    candidates' side: at most [cut iv k] when the cut is fine from below, at
    least [cut iv k + 1] when the next one is fine from above. *)
Lemma inside_side (k b : Z) :
  inside iv b k = true ->
  (b <= cut iv k /\ lower_ok iv (cut iv k) k = true) \/
  (cut iv k + 1 <= b /\ upper_ok iv (cut iv k + 1) k = true).
Proof.
  unfold inside. intros H. apply andb_true_iff in H. destruct H as [Hl Hu].
  destruct (Z_le_gt_dec b (cut iv k)).
  - left. split; trivial. now apply (lower_ok_mono k b).
  - right. split; [lia|]. apply (upper_ok_anti k _ b); [lia | trivial].
Qed.

Lemma round_half_even_cases (k : Z) :
  let nx := scale_num (iv_exp iv) k (iv_x iv) in
  let den := scale_den (iv_exp iv) k in
  (round_half_even nx den = cut iv k /\ 2 * (nx - cut iv k * den) <= den) \/
  (round_half_even nx den = cut iv k + 1 /\ den <= 2 * (nx - cut iv k * den)).
Proof.
  cbv zeta. unfold round_half_even. fold (cut iv k).
  destruct (Z.compare_spec
              (2 * (scale_num (iv_exp iv) k (iv_x iv)
                    - cut iv k * scale_den (iv_exp iv) k))
              (scale_den (iv_exp iv) k)) as [H|H|H].
  - destruct (Z.even (cut iv k)); [left | right]; split; trivial; lia.
  - left. split; trivial; lia.
  - right. split; trivial; lia.
Qed.

Lemma cut_mul_le (k b : Z) :
  b <= cut iv k -> b * scale_den (iv_exp iv) k <= cut iv k * scale_den (iv_exp iv) k.
Proof.
  intros. pose proof (scale_den_pos (iv_exp iv) k).
  apply Z.mul_le_mono_nonneg_r; lia.
Qed.

Lemma cut_mul_ge (k b : Z) :
  cut iv k + 1 <= b ->
  (cut iv k + 1) * scale_den (iv_exp iv) k <= b * scale_den (iv_exp iv) k.
Proof.
  intros. pose proof (scale_den_pos (iv_exp iv) k).
  apply Z.mul_le_mono_nonneg_r; lia.
Qed.

(** What the walk returns: it has not gone up, its result is inside, no
    position it passed has a decimal inside, and its result is nearest at
    its position. *)
Lemma shortest_loop_sound (fuel : nat) :
  forall k a k',
    shortest_loop fuel iv k = Some (a, k') ->
    k' <= k /\
    inside iv a k' = true /\
    (forall j b, k' < j <= k -> inside iv b j = false) /\
    (forall b, inside iv b k' = true -> distance iv a k' <= distance iv b k').
Proof.
  induction fuel as [|fuel IH]; intros k a k' H; [discriminate|].
  rewrite shortest_loop_step in H.
  pose proof (cut_bounds k) as [Hc1 Hc2].
  destruct (lower_ok iv (cut iv k) k) eqn:Hl;
    destruct (upper_ok iv (cut iv k + 1) k) eqn:Hu; cbn [andb] in H.
  - injection H as <- <-.
    split; [lia|].
    destruct (round_half_even_cases k) as [[-> Hr] | [-> Hr]].
    + split; [|split].
      * unfold inside. rewrite Hl. apply upper_ok_below. lia.
      * intros j b Hj. lia.
      * intros b Hb. unfold distance. cbv zeta.
        destruct (inside_side k b Hb) as [[Hb' _] | [Hb' _]].
        -- pose proof (cut_mul_le k b Hb'). lia.
        -- pose proof (cut_mul_ge k b Hb'). lia.
    + split; [|split].
      * unfold inside. rewrite Hu. rewrite lower_ok_above; [reflexivity | lia].
      * intros j b Hj. lia.
      * intros b Hb. unfold distance. cbv zeta.
        destruct (inside_side k b Hb) as [[Hb' _] | [Hb' _]].
        -- pose proof (cut_mul_le k b Hb'). lia.
        -- pose proof (cut_mul_ge k b Hb'). lia.
  - injection H as <- <-.
    split; [lia|]. split; [|split].
    + unfold inside. rewrite Hl. apply upper_ok_below. lia.
    + intros j b Hj. lia.
    + intros b Hb. unfold distance. cbv zeta.
      destruct (inside_side k b Hb) as [[Hb' _] | [_ Hb']]; [|congruence].
      pose proof (cut_mul_le k b Hb'). lia.
  - injection H as <- <-.
    split; [lia|]. split; [|split].
    + unfold inside. rewrite Hu. rewrite lower_ok_above; [reflexivity | lia].
    + intros j b Hj. lia.
    + intros b Hb. unfold distance. cbv zeta.
      destruct (inside_side k b Hb) as [[_ Hb'] | [Hb' _]]; [congruence|].
      pose proof (cut_mul_ge k b Hb'). lia.
  - destruct (IH (k - 1) a k' H) as (Hk & Hin & Hmin & Hnear).
    split; [lia|]. split; [exact Hin|]. split; [|exact Hnear].
    intros j b Hj.
    destruct (Z.eq_dec j k) as [-> | Hjk].
    + destruct (inside iv b k) eqn:Hb; [|reflexivity].
      destruct (inside_side k b Hb) as [[_ Hb'] | [_ Hb']]; congruence.
    + apply Hmin. lia.
Qed.

(** At the position [min E 0] the value has no digits left to cut. *)
Lemma cut_exact_at_bottom :
  let k := Z.min (iv_exp iv) 0 in
  cut iv k * scale_den (iv_exp iv) k = scale_num (iv_exp iv) k (iv_x iv).
Proof.
  cbv zeta. unfold cut, scale_num, scale_den.
  destruct (Z_le_gt_dec 0 (iv_exp iv)) as [HE | HE].
  - rewrite (Z.min_r _ _ HE), (Z.max_l _ _ HE).
    replace (Z.max (- iv_exp iv) 0) with 0 by lia.
    cbn [Z.opp Z.max Z.compare]. change (2 ^ 0) with 1. change (10 ^ 0) with 1.
    rewrite Z.div_1_r. lia.
  - rewrite Z.min_l by lia.
    replace (Z.max (iv_exp iv) 0) with 0 by lia.
    replace (Z.max (- iv_exp iv) 0) with (- iv_exp iv) by lia.
    change (2 ^ 0) with 1. change (10 ^ 0) with 1.
    change 10 with (5 * 2). rewrite Z.pow_mul_l.
    rewrite !Z.mul_1_r, Z.mul_assoc.
    rewrite Z.div_mul by (apply Z.pow_nonzero; lia).
    reflexivity.
Qed.

Lemma lower_ok_at_bottom :
  lower_ok iv (cut iv (Z.min (iv_exp iv) 0)) (Z.min (iv_exp iv) 0) = true.
Proof.
  unfold lower_ok. cbv zeta. pose proof cut_exact_at_bottom as H.
  cbv zeta in H. rewrite H.
  apply orb_true_iff. left. apply Z.ltb_lt. now apply scale_num_lt.
Qed.

(** The walk ends before it runs out of fuel. *)
Lemma shortest_loop_total (fuel : nat) :
  forall k,
    Z.min (iv_exp iv) 0 <= k ->
    (Z.to_nat (k - Z.min (iv_exp iv) 0) < fuel)%nat ->
    exists a k', shortest_loop fuel iv k = Some (a, k').
Proof.
  induction fuel as [|fuel IH]; intros k Hk Hfuel; [lia|].
  rewrite shortest_loop_step.
  destruct (lower_ok iv (cut iv k) k) eqn:Hl;
    destruct (upper_ok iv (cut iv k + 1) k) eqn:Hu; cbn [andb]; eauto.
  apply IH.
  - destruct (Z.eq_dec k (Z.min (iv_exp iv) 0)) as [-> | Hne]; [|lia].
    rewrite lower_ok_at_bottom in Hl. discriminate.
  - destruct (Z.eq_dec k (Z.min (iv_exp iv) 0)) as [-> | Hne]; [|lia].
    rewrite lower_ok_at_bottom in Hl. discriminate.
Qed.

(** Above the first position every power of ten is beyond the upper
    midpoint. *)
Lemma nothing_above_start (j b : Z) :
  start_pos iv < j -> inside iv b j = false.
Proof.
  unfold start_pos. intros Hj.
  assert (HU : 0 < iv_upper iv) by lia.
  pose proof (Z.log2_spec _ HU) as [_ Hlog].
  pose proof (Z.log2_nonneg (iv_upper iv)) as Hlog0.
  set (g := Z.log2 (iv_upper iv)) in *.
  assert (Hj0 : 0 < j) by lia.
  assert (Hden : scale_num (iv_exp iv) j (iv_upper iv) < scale_den (iv_exp iv) j).
  { unfold scale_num, scale_den.
    replace (Z.max (- j) 0) with 0 by lia. rewrite (Z.max_l j 0) by lia.
    change (10 ^ 0) with 1. rewrite Z.mul_1_r.
    assert (H2j : 2 ^ j <= 10 ^ j) by (apply Z.pow_le_mono_l; lia).
    assert (0 < 2 ^ j) by (apply Z.pow_pos_nonneg; lia).
    destruct (Z_le_gt_dec 0 (iv_exp iv)) as [HE | HE].
    - rewrite (Z.max_l _ _ HE). replace (Z.max (- iv_exp iv) 0) with 0 by lia.
      change (2 ^ 0) with 1. rewrite Z.mul_1_l.
      assert (0 < 2 ^ iv_exp iv) by (apply Z.pow_pos_nonneg; lia).
      assert (iv_upper iv * 2 ^ iv_exp iv < 2 ^ Z.succ g * 2 ^ iv_exp iv)
        by (apply Z.mul_lt_mono_pos_r; trivial).
      rewrite <- Z.pow_add_r in H1 by lia.
      assert (2 ^ (Z.succ g + iv_exp iv) <= 2 ^ j)
        by (apply Z.pow_le_mono_r; lia).
      lia.
    - replace (Z.max (iv_exp iv) 0) with 0 by lia.
      replace (Z.max (- iv_exp iv) 0) with (- iv_exp iv) by lia.
      change (2 ^ 0) with 1. rewrite Z.mul_1_r.
      assert (0 < 2 ^ (- iv_exp iv)) by (apply Z.pow_pos_nonneg; lia).
      assert (2 ^ (- iv_exp iv) * 2 ^ j <= 2 ^ (- iv_exp iv) * 10 ^ j)
        by (apply Z.mul_le_mono_nonneg_l; lia).
      rewrite <- Z.pow_add_r in H1 by lia.
      assert (2 ^ Z.succ g <= 2 ^ (- iv_exp iv + j))
        by (apply Z.pow_le_mono_r; lia).
      lia. }
  unfold inside, lower_ok, upper_ok. cbv zeta.
  pose proof (scale_den_pos (iv_exp iv) j) as Hd.
  assert (Hl0 : 0 < scale_num (iv_exp iv) j (iv_lower iv)).
  { unfold scale_num. repeat apply Z.mul_pos_pos; trivial;
      apply Z.pow_pos_nonneg; lia. }
  destruct (Z_le_gt_dec b 0) as [Hb | Hb].
  - assert (b * scale_den (iv_exp iv) j <= 0)
      by (apply Z.mul_nonpos_nonneg; lia).
    apply andb_false_iff. left.
    apply orb_false_iff. split.
    + apply Z.ltb_ge. lia.
    + apply andb_false_iff. right. apply Z.eqb_neq. lia.
  - assert (1 * scale_den (iv_exp iv) j <= b * scale_den (iv_exp iv) j)
      by (apply Z.mul_le_mono_nonneg_r; lia).
    apply andb_false_iff. right.
    apply orb_false_iff. split.
    + apply Z.ltb_ge. lia.
    + apply andb_false_iff. right. apply Z.eqb_neq. lia.
Qed.

End Shortest.

Section ShortestFloat.

Import strconv.

Lemma bounds_ordered (m : positive) (e : Z) :
  0 < iv_lower (bounds m e) /\
  iv_lower (bounds m e) < iv_x (bounds m e) /\
  iv_x (bounds m e) < iv_upper (bounds m e).
Proof.
  unfold bounds. cbn [iv_lower iv_x iv_upper].
  destruct ((2 ^ 52 <? Z.pos m) || (e =? -1074)); lia.
Qed.

(** [shortest] always answers, and with shortest digits. *)
Lemma shortest_correct (m : positive) (e : Z) :
  exists a k,
    shortest m e = Some (a, k) /\ shortest_digits (bounds m e) a k.
Proof.
  destruct (bounds_ordered m e) as (H0 & H1 & H2).
  unfold shortest. cbv zeta.
  set (iv := bounds m e) in *.
  assert (Hs : 0 <= start_pos iv) by (unfold start_pos; lia).
  destruct (shortest_loop_total iv H1
              (Z.to_nat (start_pos iv - Z.min (iv_exp iv) 0 + 1))
              (start_pos iv)) as (a & k & Hrun); [lia | lia |].
  exists a, k. split; [exact Hrun|].
  destruct (shortest_loop_sound iv H1 H2 _ _ _ _ Hrun)
    as (Hk & Hin & Hmin & Hnear).
  split; [exact Hin|]. split; [|exact Hnear].
  intros j b Hj.
  destruct (Z_le_gt_dec j (start_pos iv)).
  - apply Hmin. lia.
  - apply (nothing_above_start iv H0 H1 H2). lia.
Qed.

(** Behind the decimal point, ten times [b] one position down is [b]. *)
Lemma inside_shift (iv : interval) (b k : Z) :
  k < 0 -> inside iv (10 * b) k = inside iv b (k + 1).
Proof.
  intros Hk. unfold inside, lower_ok, upper_ok. cbv zeta.
  assert (Hd : scale_den (iv_exp iv) k = scale_den (iv_exp iv) (k + 1)).
  { unfold scale_den. now rewrite (Z.max_r k 0), (Z.max_r (k + 1) 0) by lia. }
  assert (Hn : forall v, scale_num (iv_exp iv) k v
                         = 10 * scale_num (iv_exp iv) (k + 1) v).
  { intros v. unfold scale_num.
    rewrite (Z.max_l (- k) 0), (Z.max_l (- (k + 1)) 0) by lia.
    replace (- k) with (Z.succ (- (k + 1))) by lia.
    rewrite Z.pow_succ_r by lia. ring. }
  rewrite Hd, !Hn.
  set (den := scale_den (iv_exp iv) (k + 1)).
  set (nl := scale_num (iv_exp iv) (k + 1) (iv_lower iv)).
  set (nu := scale_num (iv_exp iv) (k + 1) (iv_upper iv)).
  assert (Hlt : forall x y, (10 * x <? 10 * y) = (x <? y)).
  { intros x y. destruct (Z.ltb_spec x y), (Z.ltb_spec (10 * x) (10 * y));
      trivial; lia. }
  assert (Heq : forall x y, (10 * x =? 10 * y) = (x =? y)).
  { intros x y. destruct (Z.eqb_spec x y), (Z.eqb_spec (10 * x) (10 * y));
      trivial; lia. }
  replace (10 * b * den) with (10 * (b * den)) by ring.
  now rewrite !Hlt, !Heq.
Qed.

(** Shortest digits behind the decimal point do not end in zero. *)
Lemma shortest_digits_no_trailing_zero (iv : interval) (a k : Z) :
  shortest_digits iv a k -> k < 0 -> a mod 10 <> 0.
Proof.
  intros (Hin & Hmin & _) Hk Hz.
  assert (Ha : a = 10 * (a / 10)).
  { pose proof (Z.div_mod a 10). lia. }
  rewrite Ha, inside_shift in Hin by trivial.
  rewrite (Hmin (k + 1) (a / 10)) in Hin by lia. discriminate.
Qed.

Lemma trim_fixed (a k : Z) :
  (k < 0 -> a mod 10 <> 0) -> trim (Z.to_nat (- k)) a k = (a, k).
Proof.
  intros H. destruct (Z.to_nat (- k)) eqn:Ef; [reflexivity|].
  cbn [trim]. assert (Hk : k < 0) by lia.
  apply Z.ltb_lt in Hk as Hk'. rewrite Hk'.
  apply H in Hk. apply Z.eqb_neq in Hk. now rewrite Hk.
Qed.

(** The text of a finite non-zero float: its sign and its shortest digits
    in positional notation. *)
Lemma FormatFloat_shortest_finite (s : bool) (m : positive) (e : Z) :
  exists a k,
    shortest_digits (bounds m e) a k /\
    FormatFloat_shortest (S754_finite s m e) = sign_prefix s ++ positional a k.
Proof.
  destruct (shortest_correct m e) as (a & k & Hrun & Hsd).
  exists a, k. split; [exact Hsd|].
  unfold FormatFloat_shortest. rewrite Hrun.
  rewrite trim_fixed; [reflexivity|].
  now apply (shortest_digits_no_trailing_zero (bounds m e)).
Qed.

End ShortestFloat.

(* ------------------------------------------------------------------ *)
(** ** Dropping the decimal point *)

Section Dots.

Lemma no_dot_cons (c : ascii) (s : string) :
  Ascii.eqb "." c = false -> no_dot s -> no_dot (String c s).
Proof.
  unfold no_dot. intros Hc Hs. cbn [strings.Index].
  rewrite HasPrefix_char, Hc, Hs. reflexivity.
Qed.

Lemma no_dot_uint (d : Decimal.uint) : no_dot (NilEmpty.string_of_uint d).
Proof.
  induction d; cbn [NilEmpty.string_of_uint];
    [reflexivity | apply no_dot_cons; [reflexivity | assumption] ..].
Qed.

Lemma no_dot_itoa (z : Z) : no_dot (strconv.itoa z).
Proof.
  unfold strconv.itoa, NilZero.string_of_int, NilZero.string_of_uint.
  destruct (Z.to_int z) as [d | d].
  - destruct d; try reflexivity; apply (no_dot_uint (_ _)).
  - apply no_dot_cons; [reflexivity|].
    destruct d; try reflexivity; apply (no_dot_uint (_ _)).
Qed.

Lemma no_dot_app (a b : string) : no_dot a -> no_dot b -> no_dot (a ++ b).
Proof.
  unfold no_dot. induction a as [|c a IH]; intros Ha Hb; [exact Hb|].
  cbn [String.append]. cbn [strings.Index] in *.
  rewrite HasPrefix_char in *.
  destruct (Ascii.eqb "." c); [discriminate|].
  destruct (strings.Index a "." <? 0) eqn:E.
  - apply Z.ltb_lt in E. pose proof (Index_lower a "."). 
    rewrite IH; [reflexivity | lia | exact Hb].
  - apply Z.ltb_ge in E. lia.
Qed.

Lemma Index_first_dot (a rest : string) :
  no_dot a ->
  strings.Index (a ++ String "." rest) "." = Z.of_nat (String.length a).
Proof.
  unfold no_dot. induction a as [|c a IH]; intros Ha.
  { cbn [String.append strings.Index]. now rewrite HasPrefix_char. }
  cbn [String.append String.length]. cbn [strings.Index] in *.
  rewrite HasPrefix_char in *.
  destruct (Ascii.eqb "." c); [discriminate|].
  destruct (strings.Index a "." <? 0) eqn:E.
  - apply Z.ltb_lt in E. pose proof (Index_lower a ".").
    rewrite IH by lia.
    assert ((Z.of_nat (String.length a) <? 0) = false) as ->
      by (apply Z.ltb_ge; lia).
    lia.
  - apply Z.ltb_ge in E. lia.
Qed.

Lemma take_app_length (a b : string) : strings.take (String.length a) (a ++ b) = a.
Proof. induction a as [|c a IH]; [now destruct b|]. cbn. now rewrite IH. Qed.

Lemma drop_app_length (a b : string) (n : nat) :
  strings.drop (String.length a + n) (a ++ b) = strings.drop n b.
Proof. induction a as [|c a IH]; [reflexivity|]. exact IH. Qed.

(** Replacing the first ["."] by nothing removes the point behind a prefix
    that has none, and leaves a text without point as it is. *)
Lemma Replace1_first_dot (a rest : string) :
  no_dot a -> strings.Replace1 (a ++ "." ++ rest) "." "" = a ++ rest.
Proof.
  intros Ha. unfold strings.Replace1. cbn [String.eqb String.append].
  rewrite (Index_first_dot a rest Ha).
  assert ((Z.of_nat (String.length a) <? 0) = false) as ->
    by (apply Z.ltb_ge; lia).
  rewrite Nat2Z.id, take_app_length.
  change (String.length ".") with 1%nat.
  rewrite drop_app_length. reflexivity.
Qed.

Lemma Replace1_no_dot (a : string) :
  no_dot a -> strings.Replace1 a "." "" = a.
Proof.
  unfold no_dot, strings.Replace1. intros ->. reflexivity.
Qed.

Lemma no_dot_sign (s : bool) : no_dot (strconv.sign_prefix s).
Proof. destruct s; reflexivity. Qed.

Lemma Replace1_positional (s : bool) (a k : Z) :
  strings.Replace1 (strconv.sign_prefix s ++ strconv.positional a k) "." "" =
  strconv.sign_prefix s ++ undotted a k.
Proof.
  unfold strconv.positional, undotted.
  destruct (0 <=? k).
  - apply Replace1_no_dot, no_dot_app; [apply no_dot_sign | apply no_dot_itoa].
  - rewrite <- !string_app_assoc.
    rewrite (string_app_assoc _ "." _).
    apply Replace1_first_dot, no_dot_app; [apply no_dot_sign | apply no_dot_itoa].
Qed.

End Dots.

(* ------------------------------------------------------------------ *)
(** ** Integers that [float64] holds exactly *)

Section ExactIntegers.

Lemma fexp_64 (x : Z) : fexp float64.prec float64.emax x = Z.max (x - 53) (-1074).
Proof. reflexivity. Qed.

Lemma digits2_pos_size (m : positive) : digits2_pos m = Pos.size m.
Proof. induction m; cbn; congruence. Qed.

Lemma digits2_pos_shift (m p : positive) :
  digits2_pos (Pos.iter xO m p) = (digits2_pos m + p)%positive.
Proof.
  induction p using Pos.peano_ind.
  - cbn. now rewrite Pos.add_1_r.
  - rewrite Pos.iter_succ. cbn [digits2_pos]. rewrite IHp.
    now rewrite Pos.add_succ_r.
Qed.

Lemma Zpos_shift (m p : positive) :
  Z.pos (Pos.iter xO m p) = Z.pos m * 2 ^ Z.pos p.
Proof.
  induction p using Pos.peano_ind.
  - cbn [Pos.iter]. rewrite Pos2Z.inj_xO. change (2 ^ 1) with 2. lia.
  - rewrite Pos.iter_succ, Pos2Z.inj_xO, IHp, Pos2Z.inj_succ.
    rewrite Z.pow_succ_r by lia. ring.
Qed.

Lemma digits_below_2_53 (m : positive) :
  Z.pos m < 2 ^ 53 -> Z.pos (digits2_pos m) <= 53.
Proof.
  intros Hm. rewrite digits2_pos_size.
  pose proof (Pos.size_le m) as H.
  apply Pos2Z.pos_le_pos in H. rewrite Pos2Z.inj_pow in H.
  destruct (Z_le_gt_dec (Z.pos (Pos.size m)) 53) as [|Hgt]; [assumption|].
  assert (2 ^ 54 <= 2 ^ Z.pos (Pos.size m)) by (apply Z.pow_le_mono_r; lia).
  change (2 ^ 54) with (2 * 2 ^ 53) in *. lia.
Qed.

(** A positive integer below [2^53] converts to the float with the same
    value: its bits moved up to 53 digits, and the exponent down by as
    much. *)
Lemma of_int_below_2_53 (s : bool) (m : positive) :
  Z.pos m < 2 ^ 53 ->
  exists mz n,
    0 <= n /\ Z.pos mz = Z.pos m * 2 ^ n /\
    binary_round float64.prec float64.emax s m 0 = S754_finite s mz (- n).
Proof.
  intros Hm. pose proof (digits_below_2_53 m Hm) as Hd.
  unfold binary_round. rewrite fexp_64, Z.add_0_r.
  rewrite Z.max_l by lia.
  unfold shl_align.
  destruct (Z.pos (digits2_pos m) - 53 - 0) as [|p|p] eqn:Ep; [| lia |].
  - (* already 53 bits *)
    exists m, 0. split; [lia|]. split; [change (2 ^ 0) with 1; lia|].
    unfold binary_round_aux, shr_fexp.
    cbn [Zdigits2]. rewrite fexp_64.
    replace (Z.max (Z.pos (digits2_pos m) + 0 - 53) (-1074) - 0) with 0 by lia.
    cbn [shr shr_record_of_loc shr_m loc_of_shr_record round_nearest_even Zdigits2].
    rewrite fexp_64.
    replace (Z.max (Z.pos (digits2_pos m) + 0 - 53) (-1074) - 0) with 0 by lia.
    cbn [shr shr_m]. reflexivity.
  - (* shifted up by p bits *)
    exists (Pos.iter xO m p), (Z.pos p).
    split; [lia|]. split; [apply Zpos_shift|].
    assert (He : Z.pos (digits2_pos m) - 53 = - Z.pos p) by lia.
    rewrite He.
    unfold binary_round_aux, shr_fexp.
    cbn [Zdigits2]. rewrite fexp_64, digits2_pos_shift, Pos2Z.inj_add.
    replace (Z.max (Z.pos (digits2_pos m) + Z.pos p + - Z.pos p - 53) (-1074)
             - - Z.pos p) with 0 by lia.
    cbn [shr shr_record_of_loc shr_m loc_of_shr_record round_nearest_even Zdigits2].
    rewrite fexp_64, digits2_pos_shift, Pos2Z.inj_add.
    replace (Z.max (Z.pos (digits2_pos m) + Z.pos p + - Z.pos p - 53) (-1074)
             - - Z.pos p) with 0 by lia.
    cbn [shr shr_m].
    assert ((- Z.pos p <=? float64.emax - float64.prec) = true) as ->
      by (apply Z.leb_le; unfold float64.emax, float64.prec; lia).
    reflexivity.
Qed.

Lemma trunc_of_int_pos (s : bool) (m : positive) :
  Z.pos m <= 2 ^ 53 ->
  float64.trunc (binary_round float64.prec float64.emax s m 0) =
  Some (if s then - Z.pos m else Z.pos m).
Proof.
  intros Hm.
  destruct (Z.eq_dec (Z.pos m) (2 ^ 53)) as [He | Hne].
  - injection He as ->. destruct s; vm_compute; reflexivity.
  - destruct (of_int_below_2_53 s m) as (mz & n & Hn & Hmz & ->); [lia|].
    unfold float64.trunc.
    destruct (0 <=? - n) eqn:E.
    + apply Z.leb_le in E. assert (n = 0) as -> by lia.
      change (- 0) with 0. change (2 ^ 0) with 1 in *.
      now rewrite Z.mul_1_r, Hmz, Z.mul_1_r.
    + rewrite Z.opp_involutive, Hmz.
      rewrite Z.div_mul by (apply Z.pow_nonzero; lia).
      reflexivity.
Qed.

(** Every integer of magnitude up to [2^53] survives the conversion to
    [float64] and back to [int64], on every platform. *)
Lemma int64_of_float_of_int (overflow : float64.t -> Z) (u : Z) :
  Z.abs u <= 2 ^ 53 ->
  int64.of_float overflow (float64.of_int u) = u.
Proof.
  intros Hu. unfold int64.of_float, float64.of_int, binary_normalize.
  assert (Hr : int64.in_range u = true).
  { unfold int64.in_range, int64.min_int, int64.max_int.
    apply andb_true_iff. split; apply Z.leb_le.
    - assert (- 2 ^ 63 <= - 2 ^ 53) by (vm_compute; discriminate). lia.
    - assert (2 ^ 53 <= 2 ^ 63 - 1) by (vm_compute; discriminate). lia. }
  destruct u as [|m|m].
  - reflexivity.
  - rewrite (trunc_of_int_pos false m) by lia. now rewrite Hr.
  - rewrite (trunc_of_int_pos true m) by lia.
    change (- Z.pos m) with (Z.neg m). now rewrite Hr.
Qed.

End ExactIntegers.

(* ------------------------------------------------------------------ *)
(** ** Reading the shortest digits back *)

Section ReadBack.

(** On 99.9, 0.57 * 100, 0.1, 1/3, [2^63] and the float nearest to
    [10^23], the digits [shortest] picks read back as the float they came
    from; for 0.57 * 100 the decimals with one digit less on either side,
    56.9999999999999 and 57, read as other floats. *)
Lemma shortest_reads_back :
  reads_back 7029837543348634 (-46) = true /\
  reads_back 8022036836253695 (-47) = true /\
  reads_back 7205759403792794 (-56) = true /\
  reads_back 6004799503160661 (-54) = true /\
  reads_back 4503599627370496 11 = true /\
  reads_back 5960464477539062 24 = true /\
  strconv.shortest 8022036836253695 (-47) = Some (5699999999999999, -14) /\
  float64.of_decimal 569999999999999 (-13) = S754_finite false 8022036836253682 (-47) /\
  float64.of_decimal 57 0 = S754_finite false 8022036836253696 (-47).
Proof. repeat split; vm_compute; reflexivity. Qed.

End ReadBack.

(* ------------------------------------------------------------------ *)
(** ** The interval test in the rationals *)

Section Rationals.

Import strconv.


Lemma scale_factor (b x : Z) :
  0 < b ->
  (inject_Z b ^ x * inject_Z (b ^ Z.max (- x) 0) == inject_Z (b ^ Z.max x 0))%Q.
Proof.
  intros Hb.
  assert (Hb0 : ~ (inject_Z b == 0)%Q).
  { unfold Qeq. cbn. lia. }
  destruct (Z_le_gt_dec 0 x) as [Hx | Hx].
  - rewrite (Z.max_r (- x) 0), (Z.max_l x 0) by lia.
    change (b ^ 0) with 1. rewrite Zpower_Qpower by lia.
    change (inject_Z 1) with 1%Q. ring.
  - rewrite (Z.max_l (- x) 0), (Z.max_r x 0) by lia.
    change (b ^ 0) with 1. rewrite Zpower_Qpower by lia.
    rewrite <- Qpower_plus by exact Hb0.
    replace (x + - x) with 0 by lia. reflexivity.
Qed.

(** The integers of [scale_num] and [scale_den] are the two rationals
    times one positive factor. *)
Lemma scaled_values (E k v a : Z) :
  exists C : Q,
    (0 < C)%Q /\
    (Qbinary v E * C == inject_Z (scale_num E k v))%Q /\
    (Qdecimal a k * C == inject_Z (a * scale_den E k))%Q.
Proof.
  exists (inject_Z (2 ^ Z.max (- E) 0) * inject_Z (10 ^ Z.max (- k) 0))%Q.
  pose proof (scale_factor 2 E ltac:(lia)) as H2.
  pose proof (scale_factor 10 k ltac:(lia)) as H10.
  split; [|split].
  - rewrite <- inject_Z_mult. change 0%Q with (inject_Z 0).
    rewrite <- Zlt_Qlt.
    apply Z.mul_pos_pos; apply Z.pow_pos_nonneg; lia.
  - unfold Qbinary, scale_num. rewrite !inject_Z_mult, <- H2. ring.
  - unfold Qdecimal, scale_den. rewrite !inject_Z_mult, <- H10. ring.
Qed.

Lemma scaled_lt (E k v a : Z) :
  scale_num E k v < a * scale_den E k <-> (Qbinary v E < Qdecimal a k)%Q.
Proof.
  destruct (scaled_values E k v a) as (C & HC & Hv & Ha).
  rewrite Zlt_Qlt, <- Hv, <- Ha. apply Qmult_lt_r. exact HC.
Qed.

Lemma scaled_gt (E k v a : Z) :
  a * scale_den E k < scale_num E k v <-> (Qdecimal a k < Qbinary v E)%Q.
Proof.
  destruct (scaled_values E k v a) as (C & HC & Hv & Ha).
  rewrite Zlt_Qlt, <- Hv, <- Ha. apply Qmult_lt_r. exact HC.
Qed.

Lemma scaled_eq (E k v a : Z) :
  scale_num E k v = a * scale_den E k <-> (Qbinary v E == Qdecimal a k)%Q.
Proof.
  destruct (scaled_values E k v a) as (C & HC & Hv & Ha).
  rewrite <- inject_Z_injective, <- Hv, <- Ha.
  split.
  - intros H. apply (Qmult_inj_r _ _ C); [|exact H].
    intros H0. rewrite H0 in HC. discriminate.
  - intros H. now rewrite H.
Qed.

(** [inside] says what it is meant to say: the decimal [a * 10^k] is
    strictly between the two midpoints, or on one of them when the interval
    is inclusive. *)
Lemma inside_meaning (iv : interval) (a k : Z) :
  inside iv a k = true <->
  ((Qbinary (iv_lower iv) (iv_exp iv) < Qdecimal a k)%Q \/
   (iv_inclusive iv = true /\
    (Qbinary (iv_lower iv) (iv_exp iv) == Qdecimal a k)%Q)) /\
  ((Qdecimal a k < Qbinary (iv_upper iv) (iv_exp iv))%Q \/
   (iv_inclusive iv = true /\
    (Qbinary (iv_upper iv) (iv_exp iv) == Qdecimal a k)%Q)).
Proof.
  unfold inside, lower_ok, upper_ok. cbv zeta.
  rewrite andb_true_iff, !orb_true_iff, !andb_true_iff.
  rewrite !Z.ltb_lt, !Z.eqb_eq.
  rewrite scaled_lt, scaled_gt, scaled_eq.
  rewrite <- (scaled_eq (iv_exp iv) k (iv_upper iv) a).
  intuition congruence.
Qed.

End Rationals.

(* ------------------------------------------------------------------ *)
(** ** Delivery over a connection that takes every write *)

Section Delivery.

Variable env : Env.
Hypothesis reliable : forall k p, conn_write env k p = Wrote.

Lemma sent_app (a b : trace) : sent (a ++ b)%list = sent a ++ sent b.
Proof.
  induction a as [|e a IH]; [reflexivity|].
  destruct e; cbn [app sent]; trivial.
  destruct r; rewrite IH; now rewrite string_app_assoc.
Qed.

Lemma string_app_nil_r (s : string) : s ++ "" = s.
Proof. induction s as [|c s IH]; [reflexivity|]. cbn. now rewrite IH. Qed.

Lemma conn_Write_reliable (conn : nat) (p : string) (tr : trace) :
  conn_Write conn p env tr = (Ok Wrote, (tr ++ [EWrite conn p Wrote])%list).
Proof. unfold conn_Write. now rewrite reliable. Qed.

(** A flush empties the buffer onto the wire. *)
Lemma Flush_delivers (b : bufio.Writer) (tr : trace) :
  bufio.err b = None ->
  exists b' tr',
    bufio.Flush b env tr = (Ok b', tr') /\
    bufio.err b' = None /\ bufio.buf b' = "" /\
    sent tr' = sent tr ++ bufio.buf b.
Proof.
  intros He. unfold bufio.Flush, bufio.Buffered. rewrite He.
  destruct (bufio.buf b) as [|c rest] eqn:Eb; cbn [String.length].
  - exists b, tr. unfold M.ret. repeat split; trivial.
    now rewrite string_app_nil_r.
  - unfold M.bind. rewrite conn_Write_reliable. unfold M.ret.
    eexists; eexists. split; [reflexivity|]. cbn [bufio.err bufio.buf].
    repeat split. rewrite sent_app. cbn [sent].
    now rewrite string_app_nil_r.
Qed.

(** A write keeps every byte, on the wire or in the buffer, in order. *)
Lemma Write_loop_delivers (fuel : nat) :
  forall (b : bufio.Writer) (p : string) (tr : trace),
    bufio.err b = None ->
    exists b' p' tr',
      bufio.Write_loop fuel b p env tr = (Ok (b', p'), tr') /\
      bufio.err b' = None /\
      sent tr' ++ bufio.buf b' ++ p' = sent tr ++ bufio.buf b ++ p.
Proof.
  induction fuel as [|fuel IH]; intros b p tr He; cbn [bufio.Write_loop];
    rewrite He.
  - destruct (_ <=? _)%nat; exists b, p, tr; repeat split; trivial.
  - destruct (_ <=? _)%nat; [exists b, p, tr; repeat split; trivial|].
    unfold bufio.Buffered.
    destruct (bufio.buf b) as [|c rest] eqn:Eb; cbn [String.length].
    + unfold M.bind. rewrite conn_Write_reliable.
      destruct (IH b "" (tr ++ [EWrite (bufio.wr b) p Wrote])%list He)
        as (b' & p' & tr' & -> & He' & Hs).
      exists b', p', tr'. repeat split; trivial.
      rewrite Hs, sent_app, Eb. cbn [sent String.append].
      now rewrite !string_app_nil_r.
    + unfold M.bind.
      match goal with
      | |- context [bufio.Flush ?b0 env tr] =>
          destruct (Flush_delivers b0 tr eq_refl) as (b1 & tr1 & -> & He1 & Hb1 & Hs1)
      end.
      cbn [bufio.buf] in Hs1.
      match goal with
      | |- context [bufio.Write_loop fuel b1 ?p0 env tr1] =>
          destruct (IH b1 p0 tr1 He1) as (b' & p' & tr' & -> & He' & Hs)
      end.
      exists b', p', tr'. repeat split; trivial.
      rewrite Hs, Hs1, Hb1. rewrite !string_app_assoc.
      cbn [String.append]. rewrite take_drop. reflexivity.
Qed.

Lemma Write_delivers (b : bufio.Writer) (p : string) (tr : trace) :
  bufio.err b = None ->
  exists b' tr',
    bufio.Write b p env tr = (Ok b', tr') /\
    bufio.err b' = None /\
    sent tr' ++ bufio.buf b' = sent tr ++ bufio.buf b ++ p.
Proof.
  intros He. unfold bufio.Write, M.bind.
  destruct (Write_loop_delivers 2 b p tr He) as (b' & p' & tr' & -> & He' & Hs).
  rewrite He'. unfold M.ret. eexists; eexists. split; [reflexivity|].
  cbn [bufio.err bufio.buf]. split; trivial.
Qed.

Lemma bytes_app (a b : list string) : bytes (a ++ b)%list = bytes a ++ bytes b.
Proof.
  unfold bytes. induction a as [|x a IH]; [reflexivity|].
  cbn [app fold_right]. now rewrite IH, string_app_assoc.
Qed.

Lemma perform_delivers (cs : list cmd) :
  forall (w : bufio.Writer) (tr : trace),
    bufio.err w = None ->
    exists w' tr',
      perform w cs env tr = (Ok w', tr') /\
      bufio.err w' = None /\
      sent tr' ++ bufio.buf w' = sent tr ++ bufio.buf w ++ bytes (texts cs) /\
      (forall cs0, cs = (cs0 ++ [CFlush])%list -> bufio.buf w' = "").
Proof.
  induction cs as [|x cs IH]; intros w tr He.
  - exists w, tr. repeat split; trivial.
    + cbn. now rewrite string_app_nil_r.
    + intros [|? ?]; discriminate.
  - destruct x; cbn [perform]; unfold M.bind, M.tell.
    + match goal with
      | |- context [bufio.Write w text env ?tr0] =>
          destruct (Write_delivers w text tr0 He) as (w1 & tr1 & -> & He1 & Hs1)
      end.
      destruct (IH w1 tr1 He1) as (w' & tr' & -> & He' & Hs & Hfl).
      exists w', tr'. repeat split; trivial.
      * rewrite Hs, <- string_app_assoc, Hs1, sent_app. cbn [sent texts bytes fold_right].
        now rewrite string_app_nil_r, !string_app_assoc.
      * intros [|y cs0] Heq; [destruct cs; discriminate|].
        injection Heq as _ Heq. eauto.
    + destruct (IH w (tr ++ [ELog text])%list He) as (w' & tr' & -> & He' & Hs & Hfl).
      exists w', tr'. repeat split; trivial.
      * rewrite Hs, sent_app. cbn [sent texts]. now rewrite string_app_nil_r.
      * intros [|y cs0] Heq; [destruct cs; discriminate|].
        injection Heq as _ Heq. eauto.
    + match goal with
      | |- context [bufio.Flush w env ?tr0] =>
          destruct (Flush_delivers w tr0 He) as (w1 & tr1 & -> & He1 & Hb1 & Hs1)
      end.
      destruct (IH w1 tr1 He1) as (w' & tr' & Hrun & He' & Hs & Hfl).
      rewrite Hrun.
      exists w', tr'. repeat split; trivial.
      * rewrite Hs, Hb1, Hs1, sent_app. cbn [sent texts String.append].
        now rewrite string_app_nil_r, !string_app_assoc.
      * intros [|y cs0] Heq.
        -- destruct cs; [|discriminate]. cbn [perform] in Hrun.
           unfold M.ret in Hrun. injection Hrun as <- <-. exact Hb1.
        -- injection Heq as _ Heq. eauto.
Qed.

(** A callback that does not panic ends with its flush. *)
Lemma visit_ends_with_flush (to_int64 : float64.t -> Z) (c : Config) (now : Z)
  (du fs : float64.t) (raw : string) (i : metrics.Metric) :
  snd (visit to_int64 c now du fs raw i) = Ok tt ->
  exists cs0, fst (visit to_int64 c now du fs raw i) = (cs0 ++ [CFlush])%list.
Proof.
  unfold visit. destruct (splitNameAndTags raw) as [name tags].
  match goal with
  | |- context [Out.bind ?m _] => destruct m as [cs [[]|msg]]
  end; cbn [Out.bind Out.Flush fst snd]; [eauto | discriminate].
Qed.

(** Over a reliable connection, an enumeration that does not panic leaves
    the buffer empty and the printed texts on the wire. *)
Lemma Each_loop_delivers (c : Config) (now : Z) (r : metrics.Registry) :
  forall (w : bufio.Writer) (tr : trace),
    bufio.err w = None -> bufio.buf w = "" ->
    snd (Each_events r (callback c env now)) = Ok tt ->
    exists w' tr',
      Each_loop r (callback c env now) w env tr = (Ok w', tr') /\
      bufio.err w' = None /\ bufio.buf w' = "" /\
      sent tr' = sent tr ++ bytes (emitted (fst (Each_events r (callback c env now)))).
Proof.
  induction r as [|[name i] r IH]; intros w tr He Hb Hok.
  - exists w, tr. repeat split; trivial. cbn. now rewrite string_app_nil_r.
  - cbn [Each_loop Each_events] in *. unfold M.bind, M.tell.
    pose proof (visit_ends_with_flush
                  (int64.of_float (float_overflow env)) c now
                  (float64.of_int (DurationUnit c))
                  (float64.div (float64.of_int (FlushInterval c))
                     (float64.of_int time.Second)) name i) as Hfl.
    fold (callback c env now) in Hfl.
    destruct (callback c env now name i) as [cs [[]|msg]]; [|discriminate].
    destruct (Hfl eq_refl) as (cs0 & Hcs). cbn [fst] in Hcs.
    destruct (perform_delivers cs w (tr ++ [EVisit name])%list He)
      as (w1 & tr1 & -> & He1 & Hs1 & Hb1).
    specialize (Hb1 cs0 Hcs).
    destruct (Each_events r (callback c env now)) as [evs' res'] eqn:EE.
    cbn [fst snd] in *.
    destruct (IH w1 tr1 He1 Hb1 Hok) as (w' & tr' & -> & He' & Hb' & Hs).
    exists w', tr'. repeat split; trivial.
    rewrite Hs.
    change (emitted ((EVisit name :: map cmd_event cs) ++ evs')%list)
      with (emitted (map cmd_event cs ++ evs')%list).
    rewrite emitted_app, emitted_cmds, bytes_app.
    rewrite Hb1, Hb, string_app_nil_r in Hs1.
    rewrite sent_app in Hs1. cbn [sent] in Hs1.
    rewrite string_app_nil_r in Hs1.
    now rewrite Hs1, string_app_assoc.
Qed.

(** Over a reliable connection, a cycle that returns [nil] has put on the
    wire exactly the texts it printed, in order. *)
Lemma graphite_delivers (c : Config) (tr : trace) :
  fst (graphite c env tr) = Ok None ->
  exists evs,
    snd (graphite c env tr) = (tr ++ evs)%list /\
    sent evs = bytes (emitted evs).
Proof.
  intros Hok.
  destruct (graphite_cycle c env tr) as (evs & Hrun & Herase).
  exists evs. split; [now rewrite Hrun|].
  rewrite graphite_result in Hok.
  rewrite <- (emitted_erase evs), Herase.
  revert Hrun Hok. unfold graphite, cycle, M.bind, time_Now_Unix, DialTCP.
  set (now := clock env (count is_time tr)).
  assert (count is_dial (tr ++ [ETime now])%list = count is_dial tr) as ->
    by (rewrite count_app; cbn; lia).
  set (k := count is_dial tr).
  destruct (dial env k (Addr c)) as [err|]; [discriminate|].
  unfold M.defer, Each, conn_Close, M.bind, M.tell.
  fold (callback c env now).
  destruct (Each_events (Registry c) (callback c env now)) as [evs' res'] eqn:EE.
  cbn [fst snd]. intros Hrun Hok.
  destruct res' as [[]|msg]; [|discriminate].
  destruct (Each_loop_delivers c now (Registry c) (bufio.NewWriter k)
              (((tr ++ [ETime now]) ++ [EDial (Addr c) None]) ++ [EEach])%list
              eq_refl eq_refl)
    as (w' & tr' & Hloop & _ & _ & Hs); [now rewrite EE|].
  rewrite Hloop in Hrun. unfold M.ret in Hrun. cbv beta iota zeta in Hrun.
  injection Hrun as Hrun.
  rewrite EE in Hs. cbn [fst] in Hs.
  assert (Hsent : sent (tr ++ evs)%list = sent (tr' ++ [EClose k])%list)
    by now rewrite Hrun.
  rewrite !sent_app in Hsent. rewrite Hs, !sent_app in Hsent.
  cbn [sent] in Hsent. rewrite !string_app_nil_r in Hsent.
  change (emitted ([ETime now; EDial (Addr c) None; EEach] ++ evs' ++ [EClose k])%list)
    with (emitted (evs' ++ [EClose k])%list).
  rewrite emitted_app. cbn [emitted]. rewrite app_nil_r.
  clear - Hsent.
  revert Hsent. generalize (sent evs) (bytes (emitted evs')).
  induction (sent tr) as [|ch rest IH]; intros a b H; [exact H|].
  cbn [String.append] in H. injection H as H. now apply IH.
Qed.

End Delivery.

(* ------------------------------------------------------------------ *)
(** ** Failed dials *)

Section FailedDials.

(** A cycle whose dial fails is over after the dial. *)
Lemma graphite_dial_failed (c : Config) (env : Env) (tr : trace) (err : string) :
  dial env (count is_dial tr) (Addr c) = Some err ->
  graphite c env tr =
    (Ok (Some err),
     (tr ++ [ETime (clock env (count is_time tr)); EDial (Addr c) (Some err)])%list).
Proof.
  intros Hd. unfold graphite, M.bind, time_Now_Unix, DialTCP.
  assert (count is_dial (tr ++ [ETime (clock env (count is_time tr))])%list
          = count is_dial tr) as -> by (rewrite count_app; cbn; lia).
  rewrite Hd. unfold M.ret. rewrite <- app_assoc. reflexivity.
Qed.

(** In continuous mode a failed cycle is logged and the next tick still
    runs its cycle: while no dial succeeds, [n] ticks dial [n] times and
    log the error [n] times. *)
Lemma WithConfig_keeps_ticking (c : Config) (env : Env) (err : string) (n : nat) :
  (forall k, dial env k (Addr c) = Some err) ->
  forall tr,
    exists tr',
      WithConfig n c env tr = (Ok tt, tr') /\
      count is_dial tr' = (count is_dial tr + n)%nat /\
      logged tr' = (logged tr ++ repeat (err ++ LF)%string n)%list /\
      count is_write tr' = count is_write tr.
Proof.
  intros Hd. induction n as [|n IH]; intros tr.
  - exists tr. cbn [WithConfig repeat]. unfold M.ret.
    rewrite app_nil_r, Nat.add_0_r. auto.
  - cbn [WithConfig]. unfold M.bind.
    rewrite (graphite_dial_failed c env tr err (Hd _)).
    unfold M.tell.
    match goal with
    | |- context [WithConfig n c env ?tr0] =>
        destruct (IH tr0) as (tr' & -> & Hdials & Hlog & Hw)
    end.
    exists tr'. split; [reflexivity|].
    rewrite Hdials, Hlog, Hw, !count_app, !logged_app. cbn.
    rewrite <- !app_assoc. cbn [app]. repeat split; lia.
Qed.

End FailedDials.

(* ------------------------------------------------------------------ *)
(** * The claims *)

(** C1, as the code has it.  The key of a percentile fraction [p] is the
    shortest decimal text of the [float64] product [p * 100] with its first
    ["."] removed: when the product is a finite non-zero float, its text is
    the sign and the shortest digits [a * 10^k] that still identify the
    float (inside its rounding interval, no decimal with a coarser last
    digit inside, nearest among those with the same last digit), and the
    key is that same number written without the decimal point.  A
    Histogram's percentile lines carry these keys in the order of the
    configured list.  The fraction 0.5 has the key "50", 0.95 has "95" and
    0.999 has "999"; nothing is rounded or padded: 0.57 has
    "5699999999999999".  The five fractions [Graphite] configures have the
    keys "50", "75", "95", "99" and "999". *)
Theorem percentile_key_rule :
  (forall p s m e,
     float64.mul p (float64.of_int 100) = S754_finite s m e ->
     exists a k,
       shortest_digits (strconv.bounds m e) a k /\
       strconv.FormatFloat_shortest (float64.mul p (float64.of_int 100)) =
         strconv.sign_prefix s ++ strconv.positional a k /\
       percentileKey p = strconv.sign_prefix s ++ undotted a k) /\
  (forall c env now raw h,
     let '(name, tags) := splitNameAndTags raw in
     skipn 5 (texts (fst (callback c env now raw (metrics.Histogram h)))) =
       map (fun p =>
              percentile_line (Prefix c) name tags (percentileKey p)
                (fmt.fmtFloat (metrics.Histogram.Percentile h p) 2) now)
         (Percentiles c)) /\
  percentileKey (float64.lit 5 1) = "50" /\
  percentileKey (float64.lit 95 2) = "95" /\
  percentileKey (float64.lit 999 3) = "999" /\
  percentileKey (float64.lit 57 2) = "5699999999999999" /\
  (forall r d prefix addr,
     map percentileKey (Percentiles (GraphiteConfig r d prefix addr)) =
       ["50"; "75"; "95"; "99"; "999"]).
Proof.
  split; [|split].
  - intros p s m e Hp.
    destruct (FormatFloat_shortest_finite s m e) as (a & k & Hsd & Htext).
    exists a, k. split; [exact Hsd|]. rewrite Hp. split; [exact Htext|].
    unfold percentileKey. rewrite Hp, Htext. apply Replace1_positional.
  - intros c env now raw h.
    pose proof (callback_Histogram_texts c env now raw h) as H.
    destruct (splitNameAndTags raw) as [name tags].
    rewrite H. reflexivity.
  - split; [|split; [|split; [|split]]]; vm_compute; reflexivity.
Qed.

Lemma percentile_key_rule_witness :
  float64.mul (float64.lit 57 2) (float64.of_int 100) =
    S754_finite false 8022036836253695 (-47) /\
  exists a k,
    shortest_digits (strconv.bounds 8022036836253695 (-47)) a k /\
    strconv.FormatFloat_shortest
      (float64.mul (float64.lit 57 2) (float64.of_int 100)) =
      strconv.sign_prefix false ++ strconv.positional a k /\
    percentileKey (float64.lit 57 2) = strconv.sign_prefix false ++ undotted a k.
Proof.
  split; [vm_compute; reflexivity|].
  apply (proj1 percentile_key_rule (float64.lit 57 2) false
           8022036836253695%positive (-47)).
  vm_compute; reflexivity.
Defined.

(** C1 as stated fails: the key of 0.95 is "95", not "950", and the key of
    0.999 is "999", not "9990". *)
Lemma percentile_key_counterexample :
  percentileKey (float64.lit 95 2) = "95" /\
  percentileKey (float64.lit 95 2) <> "950" /\
  percentileKey (float64.lit 999 3) = "999" /\
  percentileKey (float64.lit 999 3) <> "9990".
Proof.
  repeat split; try (vm_compute; reflexivity); vm_compute; discriminate.
Qed.

(** C2, as the code has it.  For a Timer and a duration unit that is not
    zero and of magnitude at most [2^53] (so that it is the same number as
    a [float64]), the callback prints, without panic: [min] and [max] as
    the raw integers divided by the unit in truncating [int64] division;
    [mean], [std-dev] and the value of every percentile as the raw floats
    divided by the unit in [float64]; and the one-minute, five-minute,
    fifteen-minute and mean rates as they are. *)
Theorem timer_unit_conversion (c : Config) (env : Env) (now : Z) (raw : string)
  (t : metrics.Timer.Snapshot) :
  DurationUnit c <> 0 ->
  Z.abs (DurationUnit c) <= 2 ^ 53 ->
  texts (fst (callback c env now raw (metrics.Timer t))) =
    timer_lines c now (fst (splitNameAndTags raw)) (snd (splitNameAndTags raw)) t /\
  snd (callback c env now raw (metrics.Timer t)) = Ok tt.
Proof.
  intros Hnz Hsmall. unfold callback.
  pose proof (int64_of_float_of_int (float_overflow env) (DurationUnit c) Hsmall)
    as Hunit.
  rewrite visit_Timer by (rewrite Hunit; exact Hnz).
  rewrite Hunit. unfold timer_lines.
  destruct (splitNameAndTags raw) as [name tags].
  cbn [fst snd]. split; [|reflexivity].
  rewrite !texts_app, texts_map_CFprintf. cbn [texts app].
  reflexivity.
Qed.

Lemma timer_unit_conversion_witness :
  DurationUnit Sample.config <> 0 /\
  Z.abs (DurationUnit Sample.config) <= 2 ^ 53 /\
  texts (fst (callback Sample.config Sample.env_ok 1700000000 "latency"
                (metrics.Timer Sample.timer))) =
    timer_lines Sample.config 1700000000
      (fst (splitNameAndTags "latency")) (snd (splitNameAndTags "latency"))
      Sample.timer /\
  snd (callback Sample.config Sample.env_ok 1700000000 "latency"
         (metrics.Timer Sample.timer)) = Ok tt.
Proof.
  assert (H1 : DurationUnit Sample.config <> 0) by discriminate.
  assert (H2 : Z.abs (DurationUnit Sample.config) <= 2 ^ 53)
    by (vm_compute; discriminate).
  split; [exact H1|]. split; [exact H2|].
  exact (timer_unit_conversion Sample.config Sample.env_ok 1700000000
           "latency" Sample.timer H1 H2).
Defined.

(** C2 as stated fails for a unit that [float64] does not hold: with a
    unit of [2^53 + 1] nanoseconds and a raw minimum of [2^53], integer
    division by the unit gives 0, and the code prints 1, having divided by
    [int64(float64(unit)) = 2^53]. *)
Lemma timer_unit_counterexample :
  let c := {| Addr := Addr Sample.config; Registry := [];
              FlushInterval := FlushInterval Sample.config;
              DurationUnit := 2 ^ 53 + 1;
              Prefix := "app"; Percentiles := [] |} in
  let t := {| metrics.Timer.Count := 1;
              metrics.Timer.Max := 2 ^ 53;
              metrics.Timer.Mean := float64.of_int (2 ^ 53);
              metrics.Timer.Min := 2 ^ 53;
              metrics.Timer.Percentile := fun p => p;
              metrics.Timer.Rate1 := float64.of_int 0;
              metrics.Timer.Rate5 := float64.of_int 0;
              metrics.Timer.Rate15 := float64.of_int 0;
              metrics.Timer.RateMean := float64.of_int 0;
              metrics.Timer.StdDev := float64.of_int 0 |} in
  Z.quot (metrics.Timer.Min t) (DurationUnit c) = 0 /\
  nth_error (texts (fst (callback c Sample.env_ok 1700000000 "t" (metrics.Timer t)))) 2
    = Some ("app.t.min 1 1700000000" ++ LF) /\
  nth_error (timer_lines c 1700000000 "t" "" t) 2
    = Some ("app.t.min 0 1700000000" ++ LF).
Proof.
  cbv zeta. repeat split; vm_compute; reflexivity.
Qed.

(** Evaluation of the code for C3 (tags on every line): on the tagged name
    of the specification the split is as stated, but the first percentile
    line of a Histogram carries the tag suffix in front of ["-percentile"]
    and the key behind it, where the claim has the key as the field and the
    tags behind the field. *)
Theorem tags_misplaced_on_percentile_lines :
  splitNameAndTags Sample.tagged =
    ("disk.used", ";datacenter=dc1;rack=a1;server=web01") /\
  nth_error
    (texts (fst (callback Sample.config Sample.env_ok 1700000000 Sample.tagged
                   (metrics.Histogram Sample.histogram)))) 5 =
    Some ("app.disk.used.;datacenter=dc1;rack=a1;server=web01-percentile50 5.00 1700000000" ++ LF) /\
  "app.disk.used.;datacenter=dc1;rack=a1;server=web01-percentile50 5.00 1700000000" ++ LF <>
    line "app" "disk.used" "50-percentile" ";datacenter=dc1;rack=a1;server=web01"
      "5.00" 1700000000.
Proof.
  split; [vm_compute; reflexivity|].
  split; [vm_compute; reflexivity|].
  vm_compute. discriminate.
Qed.

(** C4.  Every line produced within one flush cycle carries the same
    timestamp: the cycle reads the clock exactly once, before anything
    else, and every text it prints ends with a blank, that reading in
    decimal, and the line feed -- whatever later readings would return. *)
Theorem cycle_shares_one_timestamp (c : Config) (env : Env) (tr : trace) :
  exists evs,
    snd (graphite c env tr) = (tr ++ evs)%list /\
    hd_error evs = Some (ETime (clock env (count is_time tr))) /\
    count is_time evs = 1%nat /\
    Forall (fun s => EndsWith s (" " ++ strconv.itoa (clock env (count is_time tr)) ++ LF))
      (emitted evs).
Proof.
  destruct (graphite_cycle c env tr) as (evs & Hrun & Herase).
  exists evs. rewrite Hrun. split; [reflexivity|].
  assert (Hhd : hd_error evs = Some (ETime (clock env (count is_time tr)))).
  { revert Hrun. unfold graphite, M.bind, time_Now_Unix.
    set (now := clock env (count is_time tr)).
    destruct (DialTCP (Addr c) env (tr ++ [ETime now])%list) as [[[conn|err]|msg] tr1] eqn:Ed.
    - unfold DialTCP in Ed. injection Ed as _ <-.
      unfold M.defer, M.bind.
      destruct (Each _ _ _ _ _) as [[w|msg] tr2] eqn:EE;
        pose proof EE as EE'; unfold Each, M.bind, M.tell in EE';
        match type of EE' with
        | Each_loop ?r ?f ?w0 env ?t0 = _ =>
            destruct (Each_loop_runs r f w0 env t0) as (res & evs2 & H2 & _)
        end;
        rewrite H2 in EE'; injection EE' as _ <-;
        unfold M.ret, conn_Close, M.tell; intros H;
        injection H as _ H; rewrite <- !app_assoc in H;
        apply app_inv_head in H; subst evs; reflexivity.
    - unfold DialTCP in Ed. injection Ed as _ <-.
      unfold M.ret. intros H. injection H as _ H.
      rewrite <- app_assoc in H. apply app_inv_head in H. subst evs. reflexivity.
    - unfold DialTCP in Ed. discriminate Ed. }
  split; [exact Hhd|].
  split.
  - rewrite <- (count_erase is_time evs) by (intros [] E; trivial; discriminate).
    rewrite Herase. unfold cycle.
    destruct (dial env _ _); [reflexivity|].
    pose proof (Each_events_no_time (Registry c)
                  (callback c env (clock env (count is_time tr)))) as H0.
    destruct (Each_events _ _) as [evs' res']. cbn [fst] in *.
    change (S (count is_time (evs' ++ [EClose (count is_dial tr)])%list) = 1%nat).
    rewrite count_app, H0. reflexivity.
  - rewrite <- emitted_erase, Herase. unfold cycle.
    destruct (dial env _ _); [constructor|].
    pose proof (Each_events_emitted
                  (fun s => EndsWith s (stamp (clock env (count is_time tr))))
                  (Registry c) (callback c env (clock env (count is_time tr)))
                  (fun name i => visit_texts_stamp _ _ _ _ _ name i)) as H0.
    destruct (Each_events _ _) as [evs' res']. cbn [fst] in *.
    change (Forall (fun s => EndsWith s (stamp (clock env (count is_time tr))))
              (emitted (evs' ++ [EClose (count is_dial tr)])%list)).
    rewrite emitted_app. apply Forall_app. split; [exact H0 | constructor].
Qed.

(** C5.  In single-shot mode a failed dial makes [Once] return that error
    (a value other than [nil]) right after the dial: the trace gains the
    clock reading and the dial and nothing else, so the registry is not
    enumerated, no metric is visited, nothing is printed and nothing is
    written to a connection. *)
Theorem Once_connection_failure (c : Config) (env : Env) (tr : trace) (err : string) :
  dial env (count is_dial tr) (Addr c) = Some err ->
  let '(r, tr') := Once c env tr in
  r = Ok (Some err) /\
  tr' = (tr ++ [ETime (clock env (count is_time tr)); EDial (Addr c) (Some err)])%list /\
  count is_each tr' = count is_each tr /\
  visited tr' = visited tr /\
  emitted tr' = emitted tr /\
  count is_write tr' = count is_write tr.
Proof.
  intros Hd. unfold Once.
  rewrite (graphite_dial_failed c env tr err Hd). repeat split.
  - rewrite count_app. cbn. lia.
  - rewrite visited_app. cbn. apply app_nil_r.
  - rewrite emitted_app. cbn. apply app_nil_r.
  - rewrite count_app. cbn. lia.
Qed.

Lemma Once_connection_failure_witness :
  dial Sample.env_refused (count is_dial []) (Addr Sample.config)
    = Some "connection refused" /\
  let '(r, tr') := Once Sample.config Sample.env_refused [] in
  r = Ok (Some "connection refused") /\
  tr' = [ETime 1700000000; EDial "127.0.0.1:2003" (Some "connection refused")] /\
  count is_each tr' = 0%nat /\
  visited tr' = [] /\
  emitted tr' = [] /\
  count is_write tr' = 0%nat.
Proof.
  split; [reflexivity|].
  apply (Once_connection_failure Sample.config Sample.env_refused []
           "connection refused").
  reflexivity.
Defined.

(** C6.  With the connection open, failing writes and flushes change
    neither what the cycle returns nor what it does besides writing:
    [graphite] returns an error exactly when the dial failed (and then that
    error); under any other behaviour of the connection it returns the same
    and leaves the same trace apart from the writes; and a cycle that
    returns [nil] has visited every metric of the registry. *)
Theorem write_failures_stay_local (c : Config) (env : Env) (tr : trace) :
  (forall err,
     fst (graphite c env tr) = Ok (Some err) <->
     dial env (count is_dial tr) (Addr c) = Some err) /\
  (forall w : nat -> string -> write_outcome,
     fst (graphite c (with_writes env w) tr) = fst (graphite c env tr) /\
     erase (snd (graphite c (with_writes env w) tr)) =
       erase (snd (graphite c env tr))) /\
  (fst (graphite c env tr) = Ok None ->
   visited (snd (graphite c env tr)) = (visited tr ++ map fst (Registry c))%list).
Proof.
  repeat split.
  - rewrite graphite_result. unfold cycle.
    destruct (dial env _ _) as [e|].
    + cbn. congruence.
    + destruct (Each_events _ _) as [evs [[]|msg]]; cbn; discriminate.
  - intros Hd. rewrite graphite_result. unfold cycle. now rewrite Hd.
  - rewrite !graphite_result. reflexivity.
  - rewrite !graphite_erase. reflexivity.
  - rewrite graphite_result, graphite_visited. unfold cycle.
    destruct (dial env _ _) as [e|]; [discriminate|].
    pose proof (Each_events_visited (Registry c)
                  (callback c env (clock env (count is_time tr)))) as Hv.
    destruct (Each_events _ _) as [evs [[]|msg]]; cbn [fst snd] in *;
      [|discriminate].
    intros _. f_equal.
    change (visited (evs ++ [EClose (count is_dial tr)])%list = map fst (Registry c)).
    rewrite visited_app, (Hv eq_refl). apply app_nil_r.
Qed.

Lemma write_failures_stay_local_witness :
  fst (graphite Sample.config Sample.env_broken []) = Ok None /\
  visited (snd (graphite Sample.config Sample.env_broken [])) =
    [Sample.tagged; "probe"; "latency"] /\
  erase (snd (graphite Sample.config Sample.env_broken [])) =
    erase (snd (graphite Sample.config Sample.env_ok [])).
Proof.
  pose proof (write_failures_stay_local Sample.config Sample.env_ok [])
    as (_ & Hw & _).
  pose proof (write_failures_stay_local Sample.config Sample.env_broken [])
    as (_ & _ & Hv).
  assert (Hr : fst (graphite Sample.config Sample.env_broken []) = Ok None)
    by (vm_compute; reflexivity).
  split; [exact Hr|]. split.
  - exact (Hv Hr).
  - exact (proj2 (Hw (fun _ _ => Failed 0 "broken pipe"))).
Defined.

(** C7.  A Counter gets exactly two lines, then the flush: [count] with
    the raw integer, and [count_ps] with the count divided by the flush
    interval in seconds, in floating point, printed with two decimals.
    With a count of 42 and a flush interval of ten seconds the two lines
    are [<prefix>.<name>.count<tags> 42 <ts>] and
    [<prefix>.<name>.count_ps<tags> 4.20 <ts>]. *)
Theorem counter_two_lines (c : Config) (env : Env) (now : Z) (raw : string)
  (count : Z) :
  let '(name, tags) := splitNameAndTags raw in
  callback c env now raw (metrics.Counter count) =
    ([CFprintf (line (Prefix c) name "count" tags (strconv.itoa count) now);
      CFprintf (line (Prefix c) name "count_ps" tags
                  (fmt.fmtFloat
                     (float64.div (float64.of_int count)
                        (float64.div (float64.of_int (FlushInterval c))
                           (float64.of_int time.Second))) 2) now);
      CFlush], Ok tt) /\
  texts (fst (callback
                {| Addr := Addr c; Registry := Registry c;
                   FlushInterval := 10 * time.Second;
                   DurationUnit := DurationUnit c; Prefix := Prefix c;
                   Percentiles := Percentiles c |}
                env now raw (metrics.Counter 42))) =
    [Prefix c ++ "." ++ name ++ ".count" ++ tags ++ " 42 " ++ strconv.itoa now ++ LF;
     Prefix c ++ "." ++ name ++ ".count_ps" ++ tags ++ " 4.20 " ++ strconv.itoa now ++ LF].
Proof.
  unfold callback. rewrite !visit_Counter.
  destruct (splitNameAndTags raw) as [name tags].
  split; [reflexivity|].
  cbn [fst texts Prefix FlushInterval].
  assert (fmt.fmtFloat
            (float64.div (float64.of_int 42)
               (float64.div (float64.of_int (10 * time.Second))
                  (float64.of_int time.Second))) 2 = "4.20") as ->
    by (vm_compute; reflexivity).
  reflexivity.
Qed.

(** C8.  A metric of a kind outside Counter, Gauge, GaugeFloat64,
    Histogram, Meter and Timer prints no line: its callback only logs
    [unable to record metric of type <T>] and flushes, without panic.  The
    cycle over a registry holding it returns what the cycle without it
    returns and prints the same lines, so the metrics behind it are
    processed as if it were not there; when the cycle returns [nil], every
    name was visited, the unknown one included, and the notice is in the
    log. *)
Theorem unknown_kind_is_skipped (c : Config) (env : Env) (tr : trace)
  (r1 r2 : metrics.Registry) (raw type_name : string) :
  let notice := "unable to record metric of type " ++ type_name ++ LF in
  let mixed := with_registry c (r1 ++ (raw, metrics.Other type_name) :: r2)%list in
  let known := with_registry c (r1 ++ r2)%list in
  (forall now,
     callback c env now raw (metrics.Other type_name) =
       ([CLogf notice; CFlush], Ok tt)) /\
  fst (graphite mixed env tr) = fst (graphite known env tr) /\
  emitted (snd (graphite mixed env tr)) = emitted (snd (graphite known env tr)) /\
  (fst (graphite mixed env tr) = Ok None ->
   visited (snd (graphite mixed env tr)) =
     (visited tr ++ map fst r1 ++ raw :: map fst r2)%list /\
   In notice (logged (snd (graphite mixed env tr)))).
Proof.
  intros notice mixed known.
  assert (Hcb : forall now,
            callback c env now raw (metrics.Other type_name) =
              ([CLogf notice; CFlush], Ok tt))
    by (intros now; apply visit_Other).
  split; [exact Hcb|].
  set (now := clock env (count is_time tr)).
  destruct (Each_events_Other (callback c env now) r1 r2 raw type_name notice
              (Hcb now)) as (Hres & Hem & Hlog).
  assert (Hcycle : forall r,
            cycle (with_registry c r) env (count is_time tr) (count is_dial tr) =
            match dial env (count is_dial tr) (Addr c) with
            | Some err => ([ETime now; EDial (Addr c) (Some err)], Ok (Some err))
            | None =>
                let '(evs, res) := Each_events r (callback c env now) in
                (([ETime now; EDial (Addr c) None; EEach] ++ evs
                    ++ [EClose (count is_dial tr)])%list,
                 match res with
                 | Ok _ => Ok None
                 | Panic msg => Panic msg
                 end)
            end) by reflexivity.
  split; [|split].
  - unfold mixed, known. rewrite !graphite_result, !Hcycle.
    destruct (dial env _ _); [reflexivity|].
    destruct (Each_events (r1 ++ _ :: r2)%list _) as [evsA resA].
    destruct (Each_events (r1 ++ r2)%list _) as [evsB resB].
    cbn [fst snd] in *. now subst resA.
  - unfold mixed, known. rewrite !graphite_emitted, !Hcycle.
    destruct (dial env _ _); [reflexivity|].
    destruct (Each_events (r1 ++ _ :: r2)%list _) as [evsA resA].
    destruct (Each_events (r1 ++ r2)%list _) as [evsB resB].
    cbn [fst snd] in *. f_equal.
    change (emitted (evsA ++ [EClose (count is_dial tr)])%list =
            emitted (evsB ++ [EClose (count is_dial tr)])%list).
    rewrite !emitted_app, Hem. reflexivity.
  - unfold mixed.
    rewrite graphite_result, graphite_visited, graphite_logged, !Hcycle.
    destruct (dial env _ _); [discriminate|].
    pose proof (Each_events_visited (r1 ++ (raw, metrics.Other type_name) :: r2)%list
                  (callback c env now)) as Hv.
    destruct (Each_events (r1 ++ _ :: r2)%list _) as [evsA resA].
    destruct (Each_events (r1 ++ r2)%list _) as [evsB resB].
    cbn [fst snd] in *. subst resA.
    destruct resB as [[]|msg]; [|discriminate].
    intros _. split.
    + f_equal.
      change (visited (evsA ++ [EClose (count is_dial tr)])%list =
              (map fst r1 ++ raw :: map fst r2)%list).
      rewrite visited_app, (Hv eq_refl), map_app. apply app_nil_r.
    + apply in_or_app. right.
      change (In notice (logged (evsA ++ [EClose (count is_dial tr)])%list)).
      rewrite logged_app. apply in_or_app. left. auto.
Qed.

Lemma unknown_kind_is_skipped_witness :
  fst (graphite Sample.config Sample.env_ok []) = Ok None /\
  emitted (snd (graphite Sample.config Sample.env_ok [])) =
    emitted (snd (graphite
                    (with_registry Sample.config
                       [(Sample.tagged, metrics.Counter 42);
                        ("latency", metrics.Timer Sample.timer)])
                    Sample.env_ok [])) /\
  visited (snd (graphite Sample.config Sample.env_ok [])) =
    [Sample.tagged; "probe"; "latency"] /\
  In ("unable to record metric of type metrics.Healthcheck" ++ LF)
    (logged (snd (graphite Sample.config Sample.env_ok []))).
Proof.
  pose proof (unknown_kind_is_skipped Sample.config Sample.env_ok []
                [(Sample.tagged, metrics.Counter 42)]
                [("latency", metrics.Timer Sample.timer)]
                "probe" "metrics.Healthcheck") as (_ & _ & Hem & Hv).
  assert (Hr : fst (graphite Sample.config Sample.env_ok []) = Ok None)
    by (vm_compute; reflexivity).
  split; [exact Hr|]. split; [exact Hem|]. exact (Hv Hr).
Defined.

(** C9.  A Histogram's lines come in this order: [count], [min], [max]
    (integers), [mean], [std-dev] (two decimals), then one percentile line
    per configured fraction, in the order of the configured list, each with
    the value at its own fraction. *)
Theorem histogram_line_order (c : Config) (env : Env) (now : Z) (raw : string)
  (h : metrics.Histogram.Snapshot) :
  let '(name, tags) := splitNameAndTags raw in
  texts (fst (callback c env now raw (metrics.Histogram h))) =
    ([line (Prefix c) name "count" tags (strconv.itoa (metrics.Histogram.Count h)) now;
      line (Prefix c) name "min" tags (strconv.itoa (metrics.Histogram.Min h)) now;
      line (Prefix c) name "max" tags (strconv.itoa (metrics.Histogram.Max h)) now;
      line (Prefix c) name "mean" tags (fmt.fmtFloat (metrics.Histogram.Mean h) 2) now;
      line (Prefix c) name "std-dev" tags (fmt.fmtFloat (metrics.Histogram.StdDev h) 2) now]
     ++ map (fun p =>
               percentile_line (Prefix c) name tags (percentileKey p)
                 (fmt.fmtFloat (metrics.Histogram.Percentile h p) 2) now)
          (Percentiles c))%list /\
  snd (callback c env now raw (metrics.Histogram h)) = Ok tt.
Proof.
  unfold callback. rewrite visit_Histogram.
  destruct (splitNameAndTags raw) as [name tags].
  cbn [fst snd]. split; [|reflexivity].
  rewrite !texts_app, texts_map_CFprintf. cbn [texts app].
  now rewrite app_nil_r.
Qed.

(** C10.  For every string [s], [splitNameAndTags s] returns a name and a
    tag suffix that concatenate back to [s]; the name holds no semicolon;
    and the tag suffix is empty or starts with a semicolon. *)
Theorem splitNameAndTags_lossless (s : string) :
  let '(name, tags) := splitNameAndTags s in
  name ++ tags = s /\
  strings.Contains name ";" = false /\
  (tags = "" \/ exists rest, tags = ";" ++ rest).
Proof.
  destruct (splitNameAndTags_cases s) as [(Hi & ->) | (m & Hm & Hs & Ht & ->)].
  - repeat split.
    + clear. induction s; simpl; congruence.
    + unfold strings.Contains. now rewrite Hi.
    + now left.
  - repeat split.
    + now rewrite <- Hs.
    + unfold strings.Contains. now rewrite Ht.
    + right. eauto.
Qed.

(* ------------------------------------------------------------------ *)
(** * Further properties of the code *)

(* ------------------------------------------------------------------ *)
(** ** The buffered writer under any connection *)

Section Wire.

Variable env : Env.

Lemma IsPrefix_refl (a : string) : IsPrefix a a.
Proof. exists "". now rewrite string_app_nil_r. Qed.

Lemma IsPrefix_app (a b c : string) : IsPrefix a b -> IsPrefix a (b ++ c).
Proof. intros [rest ->]. exists (rest ++ c). now rewrite string_app_assoc. Qed.

Lemma IsPrefix_intro (a rest : string) : IsPrefix a (a ++ rest).
Proof. now exists rest. Qed.

Lemma all_wrote_app (a b : trace) :
  all_wrote (a ++ b)%list = all_wrote a && all_wrote b.
Proof. apply forallb_app. Qed.

Lemma writes_on_app (k : nat) (a b : trace) :
  writes_on k a -> writes_on k b -> writes_on k (a ++ b)%list.
Proof. intros. now apply Forall_app. Qed.

(** One write on the connection. *)
Lemma conn_Write_step (conn : nat) (p : string) (tr : trace) :
  exists r,
    conn_Write conn p env tr = (Ok r, (tr ++ [EWrite conn p r])%list) /\
    match r with
    | Wrote => True
    | Failed n _ => (n <= String.length p)%nat
    end.
Proof.
  unfold conn_Write. destruct (conn_write env _ p) as [|n e].
  - exists Wrote. auto.
  - exists (Failed (Nat.min n (String.length p)) e). split; [reflexivity | lia].
Qed.

(** [Flush]: the writes go to the writer's connection; the account of
    printed and taken bytes stays right; a successful flush leaves the
    buffer empty; and the writer is in error afterwards only if it was
    before or a write failed. *)
Lemma Flush_steps (b : bufio.Writer) (tr : trace) (printed taken : string) :
  pending b printed taken ->
  exists b' ws,
    bufio.Flush b env tr = (Ok b', (tr ++ ws)%list) /\
    bufio.wr b' = bufio.wr b /\
    only_writes ws /\ writes_on (bufio.wr b) ws /\
    pending b' printed (taken ++ sent ws) /\
    (bufio.err b' = None -> bufio.buf b' = "") /\
    (bufio.err b = None -> all_wrote ws = true -> bufio.err b' = None).
Proof.
  unfold pending, bufio.Flush, bufio.Buffered. intros Hp.
  destruct (bufio.err b) as [e|] eqn:He.
  { exists b, []. rewrite app_nil_r, He, string_app_nil_r. unfold M.ret.
    repeat split; trivial; try constructor; discriminate. }
  destruct (bufio.buf b) as [|ch rest] eqn:Eb; cbn [String.length].
  { exists b, []. rewrite app_nil_r, He, Eb, string_app_nil_r. unfold M.ret.
    rewrite string_app_nil_r in Hp.
    repeat split; trivial; try constructor. now rewrite string_app_nil_r. }
  unfold M.bind.
  destruct (conn_Write_step (bufio.wr b) (String ch rest) tr) as (r & -> & Hr).
  destruct r as [|n e]; unfold M.ret; eexists; eexists;
    (split; [reflexivity|]); cbn [bufio.err bufio.buf bufio.wr sent];
    rewrite ?string_app_nil_r.
  - repeat split; trivial; repeat constructor.
  - repeat split; trivial; try (repeat constructor; fail); try discriminate.
    rewrite <- Hp. exists (strings.drop n (String ch rest)).
    now rewrite string_app_assoc, take_drop.
Qed.

(** The loop of [Write], in the same account; [p'] is what is left to
    copy into the buffer. *)
Lemma Write_loop_steps (fuel : nat) :
  forall (b : bufio.Writer) (p : string) (tr : trace) (printed taken : string),
    pending b printed taken ->
    exists b' p' ws,
      bufio.Write_loop fuel b p env tr = (Ok (b', p'), (tr ++ ws)%list) /\
      bufio.wr b' = bufio.wr b /\
      only_writes ws /\ writes_on (bufio.wr b) ws /\
      match bufio.err b' with
      | None => (taken ++ sent ws) ++ bufio.buf b' ++ p' = printed ++ p
      | Some _ => IsPrefix (taken ++ sent ws) (printed ++ p)
      end /\
      (bufio.err b = None -> all_wrote ws = true -> bufio.err b' = None).
Proof.
  induction fuel as [|fuel IH]; intros b p tr printed taken Hp;
    cbn [bufio.Write_loop]; unfold pending in Hp.
  - destruct (bufio.err b) as [e|] eqn:He; [|destruct (_ <=? _)%nat];
      exists b, p, []; rewrite app_nil_r, He; cbn [sent];
      rewrite ?string_app_nil_r; unfold M.ret;
      repeat split; trivial; try constructor; try discriminate.
    + now apply IsPrefix_app.
    + now rewrite <- Hp, string_app_assoc.
    + now rewrite <- Hp, string_app_assoc.
  - destruct (bufio.err b) as [e|] eqn:He.
    { exists b, p, []. rewrite app_nil_r, He. cbn [sent].
      rewrite string_app_nil_r. unfold M.ret.
      repeat split; trivial; try constructor; try discriminate.
      now apply IsPrefix_app. }
    destruct (_ <=? _)%nat.
    { exists b, p, []. rewrite app_nil_r, He. cbn [sent].
      rewrite string_app_nil_r. unfold M.ret.
      repeat split; trivial; try constructor.
      now rewrite <- Hp, string_app_assoc. }
    unfold bufio.Buffered.
    destruct (bufio.buf b) as [|ch rest] eqn:Eb; cbn [String.length].
    + (* nothing buffered: [p] goes straight to the connection *)
      rewrite string_app_nil_r in Hp. subst printed.
      unfold M.bind.
      destruct (conn_Write_step (bufio.wr b) p tr) as (r & -> & Hr).
      destruct r as [|n e].
      * destruct (IH b "" (tr ++ [EWrite (bufio.wr b) p Wrote])%list
                    (taken ++ p) (taken ++ p))
          as (b' & p' & ws & -> & Hwr & Hw & Hon & Hacc & Herr).
        { unfold pending. now rewrite He, Eb, string_app_nil_r. }
        exists b', p', (EWrite (bufio.wr b) p Wrote :: ws).
        rewrite <- app_assoc. split; [reflexivity|].
        split; [exact Hwr|]. split; [constructor; trivial|].
        split; [constructor; trivial|].
        cbn [sent]. split.
        -- rewrite string_app_nil_r in Hacc.
           rewrite <- (string_app_assoc taken p (sent ws)). exact Hacc.
        -- intros _ Hall. apply Herr; trivial.
      * match goal with
        | |- context [bufio.Write_loop fuel ?b0 ?p0 env ?tr0] =>
            destruct (IH b0 p0 tr0 (taken ++ strings.take n p)
                        (taken ++ strings.take n p))
              as (b' & p' & ws & -> & Hwr & Hw & Hon & Hacc & Herr)
        end.
        { unfold pending. cbn [bufio.err]. apply IsPrefix_refl. }
        cbn [bufio.wr bufio.err] in *.
        exists b', p', (EWrite (bufio.wr b) p (Failed n e) :: ws).
        rewrite <- app_assoc. split; [reflexivity|].
        split; [exact Hwr|]. split; [constructor; trivial|].
        split; [constructor; trivial|].
        cbn [sent]. split.
        -- rewrite (string_app_assoc taken _ (strings.drop n p)), take_drop
             in Hacc.
           rewrite <- (string_app_assoc taken _ (sent ws)). exact Hacc.
        -- intros _ Hall. cbn [all_wrote forallb wrote_all andb] in Hall.
           discriminate.
    + (* fill the buffer up and flush it *)
      unfold M.bind.
      set (n := bufio.Available b).
      match goal with
      | |- context [bufio.Flush ?b0 env tr] =>
          destruct (Flush_steps b0 tr (printed ++ strings.take n p) taken)
            as (b1 & ws1 & -> & Hwr1 & Hw1 & Hon1 & Hp1 & Hb1 & He1)
      end.
      { unfold pending. cbn [bufio.err bufio.buf]. rewrite ?He, ?Eb, <- Hp.
        now rewrite !string_app_assoc. }
      cbn [bufio.wr bufio.err] in *.
      destruct (IH b1 (strings.drop n p) (tr ++ ws1)%list
                  (printed ++ strings.take n p) (taken ++ sent ws1) Hp1)
        as (b' & p' & ws & -> & Hwr & Hw & Hon & Hacc & Herr).
      exists b', p', (ws1 ++ ws)%list. rewrite app_assoc.
      split; [reflexivity|]. split; [congruence|].
      split; [now apply only_writes_app|].
      split; [apply writes_on_app; trivial; now rewrite <- Hwr1|].
      rewrite sent_app, <- string_app_assoc.
      rewrite (string_app_assoc printed), take_drop in Hacc.
      split; [exact Hacc|].
      intros _ Hall. rewrite all_wrote_app in Hall.
      apply andb_true_iff in Hall. destruct Hall as [Ha1 Ha2].
      apply Herr; trivial. apply He1; trivial.
Qed.

(** [Write] in the same account. *)
Lemma Write_steps (b : bufio.Writer) (p : string) (tr : trace)
  (printed taken : string) :
  pending b printed taken ->
  exists b' ws,
    bufio.Write b p env tr = (Ok b', (tr ++ ws)%list) /\
    bufio.wr b' = bufio.wr b /\
    only_writes ws /\ writes_on (bufio.wr b) ws /\
    pending b' (printed ++ p) (taken ++ sent ws) /\
    (bufio.err b = None -> all_wrote ws = true -> bufio.err b' = None).
Proof.
  intros Hp. unfold bufio.Write, M.bind.
  destruct (Write_loop_steps 2 b p tr printed taken Hp)
    as (b' & p' & ws & -> & Hwr & Hw & Hon & Hacc & Herr).
  destruct (bufio.err b') as [e|] eqn:He'; unfold M.ret;
    eexists; exists ws; (split; [reflexivity|]);
    unfold pending; cbn [bufio.wr bufio.err bufio.buf]; rewrite ?He';
    repeat split; trivial.
Qed.

(** The commands of a callback: the writer never panics, its writes go to
    its connection, the account stays right, and after a final flush the
    writer is empty or in error. *)
Lemma perform_steps (cs : list cmd) :
  forall (w : bufio.Writer) (tr : trace) (printed taken : string),
    pending w printed taken ->
    exists w' evs,
      perform w cs env tr = (Ok w', (tr ++ evs)%list) /\
      erase evs = map cmd_event cs /\
      bufio.wr w' = bufio.wr w /\
      writes_on (bufio.wr w) evs /\
      pending w' (printed ++ bytes (texts cs)) (taken ++ sent evs) /\
      (bufio.err w = None -> all_wrote evs = true -> bufio.err w' = None) /\
      (forall cs0, cs = (cs0 ++ [CFlush])%list ->
                   bufio.err w' = None -> bufio.buf w' = "").
Proof.
  induction cs as [|x cs IH]; intros w tr printed taken Hp.
  - exists w, []. rewrite app_nil_r. cbn [perform texts sent].
    unfold bytes. cbn [fold_right]. rewrite !string_app_nil_r. unfold M.ret.
    repeat split; trivial; try constructor.
    intros [|y cs0]; discriminate.
  - destruct x; cbn [perform texts]; unfold M.bind, M.tell.
    + destruct (Write_steps w text (tr ++ [EFprintf text])%list printed taken Hp)
        as (w1 & ws & -> & Hwr1 & Hw1 & Hon1 & Hp1 & He1).
      destruct (IH w1 ((tr ++ [EFprintf text]) ++ ws)%list _ _ Hp1)
        as (w' & evs & -> & Hevs & Hwr & Hon & Hp' & He' & Hfl).
      exists w', (EFprintf text :: ws ++ evs)%list.
      split; [f_equal; now rewrite <- !app_assoc|].
      split.
      { change (EFprintf text :: ws ++ evs)%list
          with ([EFprintf text] ++ ws ++ evs)%list.
        rewrite !erase_app, (erase_only_writes ws Hw1), Hevs. reflexivity. }
      split; [congruence|].
      split.
      { constructor; trivial. apply writes_on_app; trivial.
        now rewrite <- Hwr1. }
      cbn [sent]. rewrite sent_app, <- string_app_assoc.
      change (bytes (text :: texts cs)) with (text ++ bytes (texts cs)).
      rewrite <- string_app_assoc.
      split; [exact Hp'|]. split.
      * intros He Hall. cbn [all_wrote forallb wrote_all andb] in Hall.
        fold (all_wrote (ws ++ evs)%list) in Hall.
        rewrite all_wrote_app in Hall. apply andb_true_iff in Hall.
        destruct Hall as [Ha1 Ha2]. apply He'; auto.
      * intros [|y cs0] Heq; [discriminate|].
        injection Heq as _ Heq. eauto.
    + destruct (IH w (tr ++ [ELog text])%list printed taken Hp)
        as (w' & evs & -> & Hevs & Hwr & Hon & Hp' & He' & Hfl).
      exists w', (ELog text :: evs)%list.
      split; [f_equal; now rewrite <- !app_assoc|].
      split.
      { change (ELog text :: evs)%list with ([ELog text] ++ evs)%list.
        rewrite !erase_app, Hevs. reflexivity. }
      split; [exact Hwr|]. split; [constructor; trivial|].
      cbn [sent]. split; [exact Hp'|]. split.
      * intros He Hall. apply He'; trivial.
      * intros [|y cs0] Heq; [discriminate|].
        injection Heq as _ Heq. eauto.
    + destruct (Flush_steps w (tr ++ [EFlush])%list printed taken Hp)
        as (w1 & ws & Hrun1 & Hwr1 & Hw1 & Hon1 & Hp1 & Hb1 & He1).
      rewrite Hrun1.
      destruct (IH w1 ((tr ++ [EFlush]) ++ ws)%list _ _ Hp1)
        as (w' & evs & Hrun & Hevs & Hwr & Hon & Hp' & He' & Hfl).
      rewrite Hrun.
      exists w', (EFlush :: ws ++ evs)%list.
      split; [f_equal; now rewrite <- !app_assoc|].
      split.
      { change (EFlush :: ws ++ evs)%list with ([EFlush] ++ ws ++ evs)%list.
        rewrite !erase_app, (erase_only_writes ws Hw1), Hevs. reflexivity. }
      split; [congruence|].
      split.
      { constructor; trivial. apply writes_on_app; trivial.
        now rewrite <- Hwr1. }
      cbn [sent]. rewrite sent_app, <- string_app_assoc.
      split; [exact Hp'|]. split.
      * intros He Hall. cbn [all_wrote forallb wrote_all andb] in Hall.
        fold (all_wrote (ws ++ evs)%list) in Hall.
        rewrite all_wrote_app in Hall. apply andb_true_iff in Hall.
        destruct Hall as [Ha1 Ha2]. apply He'; auto.
      * intros [|y cs0] Heq.
        -- destruct cs; [|discriminate]. cbn [perform] in Hrun.
           unfold M.ret in Hrun. injection Hrun as <- _. exact Hb1.
        -- injection Heq as _ Heq. eauto.
Qed.

(** Where a trace that starts with events other than visits is cut at a
    visit. *)
Lemma cut_at_visit (l1 l2 pre post : trace) (name : string) :
  visited l1 = [] ->
  (l1 ++ l2)%list = (pre ++ EVisit name :: post)%list ->
  exists pre', pre = (l1 ++ pre')%list /\ l2 = (pre' ++ EVisit name :: post)%list.
Proof.
  revert pre. induction l1 as [|e l1 IH]; intros pre Hv Heq.
  - exists pre. auto.
  - destruct pre as [|e' pre].
    + cbn [app] in Heq. injection Heq as -> _. discriminate.
    + cbn [app] in Heq. injection Heq as <- Heq.
      assert (Hv' : visited l1 = []) by (destruct e; trivial; discriminate).
      destruct (IH pre Hv' Heq) as (pre' & -> & Hl2).
      exists pre'. auto.
Qed.

Lemma cut_before_last (a pre post : trace) (x : io_event) (name : string) :
  x <> EVisit name ->
  (a ++ [x])%list = (pre ++ EVisit name :: post)%list ->
  exists post', a = (pre ++ EVisit name :: post')%list.
Proof.
  intros Hx Heq. induction post as [|y post' _] using rev_ind.
  - apply app_inj_tail in Heq. destruct Heq as [_ Heq]. contradiction.
  - change (pre ++ EVisit name :: post' ++ [y])%list
      with (pre ++ (EVisit name :: post') ++ [y])%list in Heq.
    rewrite app_assoc in Heq. apply app_inj_tail in Heq.
    destruct Heq as [-> _]. eauto.
Qed.

Lemma visited_cmds (cs : list cmd) : visited (map cmd_event cs) = [].
Proof. induction cs as [|x cs IH]; [reflexivity|]. destruct x; exact IH. Qed.

(** The enumeration, for callbacks that end with their flush: the writes go
    to the writer's connection, the account stays right, and at every visit
    before which no write failed the connection has taken all that was
    printed. *)
Lemma Each_loop_steps (f : string -> metrics.Metric -> Out.t unit)
  (r : metrics.Registry) :
  (forall name i, snd (f name i) = Ok tt ->
                  exists cs0, fst (f name i) = (cs0 ++ [CFlush])%list) ->
  forall (w : bufio.Writer) (tr : trace) (printed taken : string),
    pending w printed taken ->
    (bufio.err w = None -> bufio.buf w = "") ->
    exists res evs w',
      Each_loop r f w env tr = (res, (tr ++ evs)%list) /\
      writes_on (bufio.wr w) evs /\
      pending w' (printed ++ bytes (emitted evs)) (taken ++ sent evs) /\
      (bufio.err w = None ->
       forall pre name post,
         evs = (pre ++ EVisit name :: post)%list ->
         all_wrote pre = true ->
         taken ++ sent pre = printed ++ bytes (emitted pre)).
Proof.
  intros Hf. induction r as [|[name i] r IH]; intros w tr printed taken Hp Hb.
  - exists (Ok w), [], w. rewrite app_nil_r. cbn [emitted sent].
    unfold bytes. cbn [fold_right]. rewrite !string_app_nil_r.
    repeat split; trivial; try constructor.
    intros _ [|e pre] name post Heq; discriminate.
  - cbn [Each_loop]. unfold M.bind, M.tell.
    specialize (Hf name i) as Hfl.
    destruct (f name i) as [cs res0]. cbn [fst snd] in Hfl.
    destruct (perform_steps cs w (tr ++ [EVisit name])%list printed taken Hp)
      as (w1 & evs1 & -> & Hevs1 & Hwr1 & Hon1 & Hp1 & He1 & Hfl1).
    assert (Hem1 : emitted evs1 = texts cs)
      by now rewrite <- emitted_erase, Hevs1, emitted_cmds.
    assert (Hv1 : visited evs1 = [])
      by now rewrite <- visited_erase, Hevs1, visited_cmds.
    assert (Hstart : bufio.err w = None -> taken = printed).
    { intros He. unfold pending in Hp. rewrite He, (Hb He) in Hp.
      now rewrite string_app_nil_r in Hp. }
    destruct res0 as [[]|msg].
    + destruct (Hfl eq_refl) as (cs0 & Hcs).
      destruct (IH w1 ((tr ++ [EVisit name]) ++ evs1)%list _ _ Hp1
                  (Hfl1 cs0 Hcs))
        as (res & evs & w' & -> & Hon & Hp' & Hvis).
      exists res, (EVisit name :: evs1 ++ evs)%list, w'.
      split; [f_equal; now rewrite <- !app_assoc|].
      split.
      { constructor; trivial. apply writes_on_app; trivial.
        now rewrite <- Hwr1. }
      cbn [emitted sent]. rewrite emitted_app, sent_app, bytes_app, Hem1.
      rewrite <- !string_app_assoc. split; [exact Hp'|].
      intros He [|e pre] name' post Heq Hall.
      * cbn [sent emitted]. unfold bytes. cbn [fold_right].
        rewrite !string_app_nil_r. auto.
      * cbn [app] in Heq. injection Heq as <- Heq.
        destruct (cut_at_visit evs1 evs pre post name' Hv1 Heq)
          as (pre' & -> & Hevs).
        cbn [all_wrote forallb wrote_all andb] in Hall.
        fold (all_wrote (evs1 ++ pre')%list) in Hall.
        rewrite all_wrote_app in Hall. apply andb_true_iff in Hall.
        destruct Hall as [Ha1 Ha2].
        cbn [sent emitted]. rewrite sent_app, emitted_app, bytes_app, Hem1.
        rewrite <- !string_app_assoc.
        exact (Hvis (He1 He Ha1) pre' name' post Hevs Ha2).
    + exists (Panic msg), (EVisit name :: evs1)%list, w1.
      split; [unfold M.panic; f_equal; now rewrite <- app_assoc|].
      split; [constructor; trivial|].
      cbn [emitted sent]. rewrite Hem1. split; [exact Hp1|].
      intros He [|e pre] name' post Heq Hall.
      * cbn [sent emitted]. unfold bytes. cbn [fold_right].
        rewrite !string_app_nil_r. auto.
      * cbn [app] in Heq. injection Heq as <- Heq.
        exfalso.
        assert (Hin : In name' (visited evs1)).
        { rewrite Heq, visited_app. apply in_or_app. right. now left. }
        now rewrite Hv1 in Hin.
Qed.

Lemma pending_prefix (b : bufio.Writer) (printed taken : string) :
  pending b printed taken -> IsPrefix taken printed.
Proof.
  unfold pending. destruct (bufio.err b); trivial.
  intros <-. apply IsPrefix_intro.
Qed.

(** One cycle under any connection: its writes go to the connection it
    dialled, the connection took a beginning of what was printed, at every
    visit before which no write failed it had taken all that was printed,
    and when the dial succeeded the cycle's last event closes the
    connection. *)
Lemma graphite_wire (c : Config) (tr : trace) :
  exists evs,
    snd (graphite c env tr) = (tr ++ evs)%list /\
    writes_on (count is_dial tr) evs /\
    IsPrefix (sent evs) (bytes (emitted evs)) /\
    visits_flushed evs /\
    (dial env (count is_dial tr) (Addr c) = None ->
     exists body, evs = (body ++ [EClose (count is_dial tr)])%list).
Proof.
  unfold graphite, M.bind, time_Now_Unix, DialTCP.
  set (now := clock env (count is_time tr)).
  assert (count is_dial (tr ++ [ETime now])%list = count is_dial tr) as ->
    by (rewrite count_app; cbn; lia).
  set (k := count is_dial tr).
  destruct (dial env k (Addr c)) as [err|].
  - exists [ETime now; EDial (Addr c) (Some err)].
    unfold M.ret. cbn [snd]. rewrite <- app_assoc.
    split; [reflexivity|]. split; [repeat constructor|].
    split; [apply IsPrefix_refl|]. split; [|discriminate].
    intros [|e1 [|e2 [|e3 pre]]] name post Heq; discriminate.
  - unfold M.defer, Each, conn_Close, M.bind, M.tell.
    fold (callback c env now).
    destruct (Each_loop_steps (callback c env now) (Registry c)
                (fun name i => visit_ends_with_flush _ c now _ _ name i)
                (bufio.NewWriter k)
                (((tr ++ [ETime now]) ++ [EDial (Addr c) None]) ++ [EEach])%list
                "" "" eq_refl (fun _ => eq_refl))
      as (res & evs & w' & -> & Hon & Hp & Hvis).
    cbn [String.append] in Hp, Hvis. apply pending_prefix in Hp.
    exists ([ETime now; EDial (Addr c) None; EEach] ++ evs ++ [EClose k])%list.
    split.
    { destruct res as [w1|msg]; unfold M.ret; cbn [snd];
        rewrite <- !app_assoc; reflexivity. }
    split.
    { repeat (constructor; trivial). apply writes_on_app; trivial.
      repeat constructor. }
    split.
    { cbn [app sent emitted]. rewrite sent_app, emitted_app. cbn [sent emitted].
      now rewrite string_app_nil_r, app_nil_r. }
    split; [|intros _; exists ([ETime now; EDial (Addr c) None; EEach] ++ evs)%list;
             now rewrite <- app_assoc].
    intros pre name post Heq Hall.
    destruct (cut_at_visit [ETime now; EDial (Addr c) None; EEach]
                (evs ++ [EClose k])%list pre post name eq_refl Heq)
      as (pre' & -> & Heq').
    destruct (cut_before_last evs pre' post (EClose k) name) as (post' & Hevs);
      [discriminate | exact Heq' |].
    cbn [app sent emitted]. apply (Hvis eq_refl pre' name post' Hevs).
    exact Hall.
Qed.

End Wire.

(* ------------------------------------------------------------------ *)
(** ** How a cycle ends *)

Section Results.

Variables (c : Config) (env : Env).

Let to_int64 := int64.of_float (float_overflow env).

(** A callback panics on a Timer when [int64(du)] is zero, and on nothing
    else. *)
Lemma visit_result (now : Z) (du fs : float64.t) (raw : string)
  (i : metrics.Metric) :
  snd (visit to_int64 c now du fs raw i) =
    if is_timer i && (to_int64 du =? 0) then Panic division_panic else Ok tt.
Proof.
  destruct i; cbn [is_timer andb].
  - rewrite visit_Counter. now destruct (splitNameAndTags raw).
  - rewrite visit_Gauge. now destruct (splitNameAndTags raw).
  - rewrite visit_GaugeFloat64. now destruct (splitNameAndTags raw).
  - rewrite visit_Histogram. now destruct (splitNameAndTags raw).
  - rewrite visit_Meter. now destruct (splitNameAndTags raw).
  - destruct (Z.eqb_spec (to_int64 du) 0) as [Hz|Hz].
    + rewrite visit_Timer_zero by exact Hz. now destruct (splitNameAndTags raw).
    + rewrite visit_Timer by exact Hz. now destruct (splitNameAndTags raw).
  - rewrite visit_Other. reflexivity.
Qed.

Lemma Each_events_result (now : Z) (r : metrics.Registry) :
  snd (Each_events r (callback c env now)) =
    if has_timer r && (to_int64 (float64.of_int (DurationUnit c)) =? 0)
    then Panic division_panic else Ok tt.
Proof.
  induction r as [|[name i] r IH]; [reflexivity|].
  cbn [Each_events has_timer existsb snd].
  fold (has_timer r).
  assert (Hv : snd (callback c env now name i) =
               if is_timer i && (to_int64 (float64.of_int (DurationUnit c)) =? 0)
               then Panic division_panic else Ok tt) by apply visit_result.
  destruct (callback c env now name i) as [cs res]. cbn [snd] in Hv.
  destruct (Each_events r (callback c env now)) as [evs' res'].
  cbn [snd] in IH. subst res res'.
  destruct (is_timer i); cbn [andb orb];
    destruct (to_int64 (float64.of_int (DurationUnit c)) =? 0);
    rewrite ?andb_true_r, ?andb_false_r; reflexivity.
Qed.

(** The events of [Each] are visits and the callbacks' commands. *)
Lemma Each_events_count (p : io_event -> bool) (r : metrics.Registry)
  (f : string -> metrics.Metric -> Out.t unit) :
  (forall name, p (EVisit name) = false) ->
  (forall x, p (cmd_event x) = false) ->
  count p (fst (Each_events r f)) = 0%nat.
Proof.
  intros Hv Hc. induction r as [|[name i] r IH]; [reflexivity|].
  cbn [Each_events]. destruct (f name i) as [cs res].
  assert (Hcs : count p (map cmd_event cs) = 0%nat).
  { clear - Hc. unfold count. induction cs as [|x cs IH]; [reflexivity|].
    cbn [map filter]. now rewrite Hc. }
  assert (Hhd : count p (EVisit name :: map cmd_event cs) = 0%nat).
  { unfold count in *. cbn [filter]. now rewrite Hv. }
  destruct res as [[]|msg]; [|exact Hhd].
  destruct (Each_events r f) as [evs' res']. cbn [fst] in *.
  rewrite count_app, Hhd, IH. reflexivity.
Qed.

Lemma times_app (a b : trace) : times (a ++ b)%list = (times a ++ times b)%list.
Proof.
  induction a as [|e a IH]; [reflexivity|].
  destruct e; cbn [app times]; rewrite IH; reflexivity.
Qed.

Lemma times_count (tr : trace) : List.length (times tr) = count is_time tr.
Proof.
  unfold count. induction tr as [|e tr IH]; [reflexivity|].
  destruct e; cbn [times filter is_time List.length]; now rewrite ?IH.
Qed.

(** One cycle in numbers: how it ends, one clock reading, one dial, and one
    enumeration and one close exactly when the dial succeeded. *)
Lemma graphite_counts (tr : trace) :
  exists evs,
    graphite c env tr =
      (match dial env (count is_dial tr) (Addr c) with
       | Some err => Ok (Some err)
       | None => if divides_by_zero c env then Panic division_panic else Ok None
       end, (tr ++ evs)%list) /\
    times evs = [clock env (count is_time tr)] /\
    count is_dial evs = 1%nat /\
    count is_dial_ok evs =
      match dial env (count is_dial tr) (Addr c) with
      | Some _ => 0%nat
      | None => 1%nat
      end /\
    count is_each evs = count is_dial_ok evs /\
    count is_close evs = count is_dial_ok evs.
Proof.
  destruct (graphite_cycle c env tr) as (evs & Hrun & Herase).
  exists evs.
  assert (Hcount : forall p, (forall e, is_write e = true -> p e = false) ->
                             count p evs =
                             count p (fst (cycle c env (count is_time tr)
                                             (count is_dial tr)))).
  { intros p Hp. now rewrite <- Herase, count_erase. }
  assert (Htimes : times evs =
                   times (fst (cycle c env (count is_time tr) (count is_dial tr)))).
  { rewrite <- Herase. clear. unfold erase.
    induction evs as [|e evs IH]; [reflexivity|].
    destruct e; cbn; now rewrite ?IH. }
  rewrite Hrun, Htimes, !Hcount by (intros [] H; trivial; discriminate).
  clear Hrun Herase Hcount Htimes.
  unfold cycle, divides_by_zero.
  destruct (dial env (count is_dial tr) (Addr c)) as [err|].
  { repeat split. }
  pose proof (Each_events_result (clock env (count is_time tr)) (Registry c)) as Hres.
  pose proof (fun p Hv Hc => Each_events_count p (Registry c)
                (callback c env (clock env (count is_time tr))) Hv Hc) as Hcnt.
  destruct (Each_events (Registry c) (callback c env (clock env (count is_time tr))))
    as [evs' res']. cbn [fst snd] in *.
  assert (Ht : times evs' = []).
  { apply length_zero_iff_nil. rewrite times_count. now apply Hcnt; [|intros []]. }
  cbn [app times]. rewrite times_app, Ht.
  change (count ?p (?a :: ?b :: ?d :: ?l)%list)
    with (count p ([a; b; d] ++ l)%list).
  rewrite !count_app, !Hcnt by (trivial; now intros []).
  split.
  { f_equal. subst res'. unfold to_int64.
    now destruct (has_timer (Registry c) && _). }
  repeat split.
Qed.

Lemma seq_cons (a n : nat) : (a :: seq (a + 1) n)%list = seq a (1 + n).
Proof. cbn [seq Nat.add]. now rewrite Nat.add_1_r. Qed.

(** Continuous mode, tick by tick: every tick that comes reads the clock
    and dials once; every connection is enumerated once and closed; the
    loop runs all its ticks unless a cycle panics, which happens in the
    first cycle that connects when the configuration divides by zero. *)
Lemma WithConfig_runs (n : nat) :
  forall tr,
    exists evs,
      snd (WithConfig n c env tr) = (tr ++ evs)%list /\
      times evs = map (clock env) (seq (count is_time tr) (count is_dial evs)) /\
      count is_each evs = count is_dial_ok evs /\
      count is_close evs = count is_dial_ok evs /\
      match fst (WithConfig n c env tr) with
      | Ok _ =>
          count is_dial evs = n /\
          (divides_by_zero c env = true -> count is_dial_ok evs = 0%nat)
      | Panic msg =>
          msg = division_panic /\ divides_by_zero c env = true /\
          (count is_dial evs <= n)%nat /\ count is_dial_ok evs = 1%nat
      end.
Proof.
  induction n as [|n IH]; intros tr.
  - exists []. cbn [WithConfig]. unfold M.ret. cbn [fst snd].
    rewrite app_nil_r. repeat split.
  - cbn [WithConfig]. unfold M.bind.
    destruct (graphite_counts tr)
      as (evs1 & -> & Ht1 & Hd1 & Hok1 & He1 & Hc1).
    assert (Htime1 : count is_time evs1 = 1%nat)
      by now rewrite <- times_count, Ht1.
    destruct (dial env (count is_dial tr) (Addr c)) as [err|].
    + unfold M.tell. rewrite Hok1 in He1, Hc1.
      destruct (IH ((tr ++ evs1) ++ [ELog (err ++ LF)])%list)
        as (evs & Hrun & Ht & He & Hc & Hres).
      assert (Hn : count is_time ((tr ++ evs1) ++ [ELog (err ++ LF)])%list
                   = (count is_time tr + 1)%nat)
        by (rewrite !count_app, Htime1; cbn; lia).
      rewrite Hn in Ht.
      exists (evs1 ++ [ELog (err ++ LF)] ++ evs)%list.
      destruct (WithConfig n c env ((tr ++ evs1) ++ [ELog (err ++ LF)])%list)
        as [res tr'].
      cbn [fst snd] in *. subst tr'.
      split; [now rewrite <- !app_assoc|].
      rewrite !count_app, !times_app, Ht1, Hd1, Hok1, He1, Hc1, Ht.
      change (count ?p [ELog (err ++ LF)]) with 0%nat.
      cbn [times app Nat.add].
      split; [now rewrite <- seq_cons|].
      split; [exact He|]. split; [exact Hc|].
      destruct res as [[]|msg]; [split; [lia | tauto] |].
      repeat split; try tauto; lia.
    + rewrite Hok1 in He1, Hc1. destruct (divides_by_zero c env) eqn:Ez.
      * exists evs1. cbn [fst snd]. rewrite Hd1, Ht1, He1, Hc1, Hok1.
        split; [reflexivity|]. split; [reflexivity|].
        repeat split; trivial; lia.
      * unfold M.ret.
        destruct (IH (tr ++ evs1)%list) as (evs & Hrun & Ht & He & Hc & Hres).
        assert (Hn : count is_time (tr ++ evs1)%list = (count is_time tr + 1)%nat)
          by (rewrite !count_app, Htime1; lia).
        rewrite Hn in Ht.
        exists (evs1 ++ evs)%list.
        destruct (WithConfig n c env (tr ++ evs1)%list) as [res tr'].
        cbn [fst snd] in *. subst tr'.
        split; [now rewrite <- !app_assoc|].
        rewrite !count_app, !times_app, Ht1, Hd1, Hok1, He1, Hc1, Ht, He, Hc.
        cbn [times app Nat.add].
        split; [now rewrite <- seq_cons|].
        repeat split.
        destruct res as [[]|msg]; [split; [lia | discriminate] |].
        destruct Hres as (_ & Hf & _). discriminate.
Qed.

End Results.

(* ------------------------------------------------------------------ *)
(** ** The texts of a callback *)

Section Grammar.

Lemma In_fields (f : string) :
  In f fields ->
  f = "count" \/ f = "count_ps" \/ f = "value" \/ f = "min" \/ f = "max" \/
  f = "mean" \/ f = "std-dev" \/ f = "one-minute" \/ f = "five-minute" \/
  f = "fifteen-minute" \/ f = "mean-rate".
Proof. unfold fields. cbn [In]. intuition auto. Qed.

Ltac field_listed :=
  unfold fields; cbn [In]; repeat (first [left; reflexivity | right]).

Ltac lines_listed Hl :=
  cbn [texts];
  repeat (apply Forall_cons; [apply Hl; [field_listed | constructor]|]);
  apply Forall_nil.

(** Whatever the metric, every text its callback prints is a line of the
    wire format or a percentile line. *)
Lemma visit_texts_wire (to_int64 : float64.t -> Z) (c : Config) (now : Z)
  (du fs : float64.t) (raw : string) (i : metrics.Metric) :
  Forall (wire_text c now raw) (texts (fst (visit to_int64 c now du fs raw i))).
Proof.
  pose proof (wire_line c now raw) as Hl.
  pose proof (wire_percentile c now raw) as Hp.
  destruct i.
  - rewrite visit_Counter. destruct (splitNameAndTags raw).
    cbn [fst snd] in *. lines_listed Hl.
  - rewrite visit_Gauge. destruct (splitNameAndTags raw).
    cbn [fst snd] in *. lines_listed Hl.
  - rewrite visit_GaugeFloat64. destruct (splitNameAndTags raw).
    cbn [fst snd] in *. lines_listed Hl.
  - rewrite visit_Histogram. destruct (splitNameAndTags raw) as [name tags].
    cbn [fst snd] in *. rewrite !texts_app, texts_map_CFprintf.
    apply Forall_app; split; [|apply Forall_app; split].
    + lines_listed Hl.
    + apply Forall_map, Forall_forall. intros p _. apply Hp.
    + constructor.
  - rewrite visit_Meter. destruct (splitNameAndTags raw).
    cbn [fst snd] in *. lines_listed Hl.
  - destruct (Z.eq_dec (to_int64 du) 0) as [Hz|Hz].
    + rewrite (visit_Timer_zero _ _ _ _ _ _ _ Hz).
      destruct (splitNameAndTags raw).
      cbn [fst snd] in *. lines_listed Hl.
    + rewrite (visit_Timer _ _ _ _ _ _ _ Hz).
      destruct (splitNameAndTags raw) as [name tags].
      cbn [fst snd] in *. rewrite !texts_app, texts_map_CFprintf.
      apply Forall_app; split; [|apply Forall_app; split].
      * lines_listed Hl.
      * apply Forall_map, Forall_forall. intros p _. apply Hp.
      * lines_listed Hl.
  - rewrite visit_Other. constructor.
Qed.

(** How many texts the callback prints. *)
Lemma visit_line_count (to_int64 : float64.t -> Z) (c : Config) (now : Z)
  (du fs : float64.t) (raw : string) (i : metrics.Metric) :
  List.length (texts (fst (visit to_int64 c now du fs raw i))) =
  line_count to_int64 c du i.
Proof.
  destruct i; cbn [line_count].
  - rewrite visit_Counter. now destruct (splitNameAndTags raw).
  - rewrite visit_Gauge. now destruct (splitNameAndTags raw).
  - rewrite visit_GaugeFloat64. now destruct (splitNameAndTags raw).
  - rewrite visit_Histogram. destruct (splitNameAndTags raw) as [name tags].
    cbn [fst]. rewrite !texts_app, texts_map_CFprintf, !length_app, length_map.
    cbn [texts List.length]. lia.
  - rewrite visit_Meter. now destruct (splitNameAndTags raw).
  - destruct (Z.eqb_spec (to_int64 du) 0) as [Hz|Hz].
    + rewrite (visit_Timer_zero _ _ _ _ _ _ _ Hz).
      now destruct (splitNameAndTags raw).
    + rewrite (visit_Timer _ _ _ _ _ _ _ Hz).
      destruct (splitNameAndTags raw) as [name tags].
      cbn [fst]. rewrite !texts_app, texts_map_CFprintf, !length_app, length_map.
      cbn [texts List.length]. lia.
  - rewrite visit_Other. reflexivity.
Qed.

(** The texts a cycle prints when it does not panic: the texts of each
    metric, in the order of the registry. *)
Lemma Each_events_lines (r : metrics.Registry)
  (f : string -> metrics.Metric -> Out.t unit) :
  snd (Each_events r f) = Ok tt ->
  emitted (fst (Each_events r f)) =
  List.concat (map (fun ni => texts (fst (f (fst ni) (snd ni)))) r).
Proof.
  induction r as [|[name i] r IH]; [reflexivity|].
  cbn [Each_events map List.concat fst snd].
  destruct (f name i) as [cs res]. cbn [fst].
  destruct res as [[]|msg]; [|discriminate].
  destruct (Each_events r f) as [evs' res']. cbn [fst snd] in *.
  intros Hok.
  change (emitted ((EVisit name :: map cmd_event cs) ++ evs')%list)
    with (emitted (map cmd_event cs ++ evs')%list).
  now rewrite emitted_app, emitted_cmds, IH.
Qed.

End Grammar.

(* ------------------------------------------------------------------ *)
(** ** Line feeds *)

Section LineFeeds.

Lemma no_LF_cons (c : ascii) (s : string) :
  Ascii.eqb (ascii_of_nat 10) c = false -> no_LF s -> no_LF (String c s).
Proof.
  unfold no_LF, LF. intros Hc Hs. cbn [strings.Index].
  rewrite HasPrefix_char, Hc, Hs. reflexivity.
Qed.

Lemma no_LF_inv (c : ascii) (s : string) :
  no_LF (String c s) -> Ascii.eqb (ascii_of_nat 10) c = false /\ no_LF s.
Proof.
  unfold no_LF, LF. cbn [strings.Index]. rewrite HasPrefix_char.
  destruct (Ascii.eqb (ascii_of_nat 10) c); [discriminate|].
  pose proof (Index_lower s (String (ascii_of_nat 10) "")).
  destruct (strings.Index s (String (ascii_of_nat 10) "") <? 0) eqn:E.
  - apply Z.ltb_lt in E. split; [reflexivity | lia].
  - apply Z.ltb_ge in E. lia.
Qed.

Lemma no_LF_app (a b : string) : no_LF a -> no_LF b -> no_LF (a ++ b).
Proof.
  induction a as [|c a IH]; intros Ha Hb; [exact Hb|].
  apply no_LF_inv in Ha. destruct Ha as [Hc Ha].
  cbn [String.append]. apply no_LF_cons; auto.
Qed.

Lemma no_LF_app_inv (a b : string) : no_LF (a ++ b) -> no_LF a /\ no_LF b.
Proof.
  induction a as [|c a IH]; intros H; [split; [reflexivity | exact H]|].
  cbn [String.append] in H. apply no_LF_inv in H. destruct H as [Hc H].
  destruct (IH H) as [Ha Hb]. split; [now apply no_LF_cons | exact Hb].
Qed.

Lemma no_LF_take (n : nat) (s : string) : no_LF s -> no_LF (strings.take n s).
Proof.
  intros H. rewrite <- (take_drop n s) in H. now apply no_LF_app_inv in H.
Qed.

Lemma no_LF_drop (n : nat) (s : string) : no_LF s -> no_LF (strings.drop n s).
Proof.
  intros H. rewrite <- (take_drop n s) in H. now apply no_LF_app_inv in H.
Qed.

Lemma no_LF_uint (d : Decimal.uint) : no_LF (NilEmpty.string_of_uint d).
Proof.
  induction d; cbn [NilEmpty.string_of_uint];
    [reflexivity | apply no_LF_cons; [reflexivity | assumption] ..].
Qed.

Lemma no_LF_itoa (z : Z) : no_LF (strconv.itoa z).
Proof.
  unfold strconv.itoa, NilZero.string_of_int, NilZero.string_of_uint.
  destruct (Z.to_int z) as [d | d].
  - destruct d; try reflexivity; apply (no_LF_uint (_ _)).
  - apply no_LF_cons; [reflexivity|].
    destruct d; try reflexivity; apply (no_LF_uint (_ _)).
Qed.

Lemma no_LF_lastDigits (n : nat) : forall v, no_LF (strconv.lastDigits n v).
Proof.
  induction n as [|n IH]; intros v; [reflexivity|].
  cbn [strconv.lastDigits]. apply no_LF_app; [apply IH|].
  apply no_LF_cons; [|reflexivity].
  unfold strconv.digit_char.
  pose proof (Z.mod_pos_bound v 10 ltac:(lia)) as Hd.
  assert (Hn : (Z.to_nat (v mod 10) < 10)%nat) by lia.
  revert Hn. generalize (Z.to_nat (v mod 10)). intros k Hk.
  do 10 (destruct k as [|k]; [reflexivity|]). lia.
Qed.

Lemma no_LF_sign (s : bool) : no_LF (strconv.sign_prefix s).
Proof. destruct s; reflexivity. Qed.

Lemma no_LF_fmtFloat (f : float64.t) (n : nat) : no_LF (fmt.fmtFloat f n).
Proof.
  unfold fmt.fmtFloat, strconv.FormatFloat_fixed.
  assert (Hfrac : forall q, no_LF match n with
                                  | O => ""
                                  | S _ => "." ++ strconv.lastDigits n q
                                  end).
  { intros q. destruct n; [reflexivity|].
    apply no_LF_app; [reflexivity | apply no_LF_lastDigits]. }
  destruct f as [s| [|] | | s m e]; try reflexivity.
  - apply no_LF_app; [apply no_LF_sign|].
    apply no_LF_app; [reflexivity | apply Hfrac].
  - cbv zeta. apply no_LF_app; [apply no_LF_sign|].
    apply no_LF_app; [apply no_LF_itoa | apply Hfrac].
Qed.

Lemma no_LF_positional (a k : Z) : no_LF (strconv.positional a k).
Proof.
  unfold strconv.positional. destruct (0 <=? k); [apply no_LF_itoa|].
  apply no_LF_app; [apply no_LF_itoa|].
  apply no_LF_app; [reflexivity | apply no_LF_lastDigits].
Qed.

Lemma no_LF_percentileKey (p : float64.t) : no_LF (percentileKey p).
Proof.
  unfold percentileKey.
  assert (H : no_LF (strconv.FormatFloat_shortest
                       (float64.mul p (float64.of_int 100)))).
  { unfold strconv.FormatFloat_shortest.
    destruct (float64.mul p (float64.of_int 100)) as [s| [|] | | s m e];
      try reflexivity.
    - apply no_LF_app; [apply no_LF_sign | reflexivity].
    - destruct (strconv.shortest m e) as [[a k]|].
      + destruct (strconv.trim _ a k) as [a' k'].
        apply no_LF_app; [apply no_LF_sign | apply no_LF_positional].
      + apply no_LF_app; [apply no_LF_sign | reflexivity]. }
  revert H. generalize (strconv.FormatFloat_shortest
                          (float64.mul p (float64.of_int 100))).
  intros t Ht. unfold strings.Replace1. cbn [String.eqb Ascii.eqb Bool.eqb].
  destruct (strings.Index t "." <? 0); [exact Ht|].
  apply no_LF_app; [now apply no_LF_take|].
  apply no_LF_app; [reflexivity | now apply no_LF_drop].
Qed.

Lemma no_LF_value (v : string) : value_text v -> no_LF v.
Proof. intros []; [apply no_LF_itoa | apply no_LF_fmtFloat]. Qed.

Lemma no_LF_field (f : string) : In f fields -> no_LF f.
Proof.
  intros H. apply In_fields in H.
  repeat (destruct H as [-> | H]; [reflexivity|]). subst f. reflexivity.
Qed.

(** The name and the tags of a registered name without line feed have
    none. *)
Lemma no_LF_split (raw : string) :
  no_LF raw ->
  no_LF (fst (splitNameAndTags raw)) /\ no_LF (snd (splitNameAndTags raw)).
Proof.
  intros H.
  destruct (splitNameAndTags_cases raw) as [[_ ->] | (m & _ & _ & _ & ->)];
    cbn [fst snd].
  - split; [exact H | reflexivity].
  - split; [now apply no_LF_take|].
    apply no_LF_app; [reflexivity | now apply no_LF_drop].
Qed.

Lemma line_one_line (prefix name field tags value : string) (now : Z) :
  no_LF prefix -> no_LF name -> no_LF field -> no_LF tags -> no_LF value ->
  one_line (line prefix name field tags value now).
Proof.
  intros Hp Hn Hf Ht Hv.
  exists (prefix ++ "." ++ name ++ "." ++ field ++ tags ++ " " ++ value ++ " "
            ++ strconv.itoa now).
  split.
  - unfold line. now rewrite !string_app_assoc.
  - repeat (apply no_LF_app; [first [assumption | reflexivity]|]).
    apply no_LF_itoa.
Qed.

Lemma percentile_line_one_line (prefix name tags key value : string) (now : Z) :
  no_LF prefix -> no_LF name -> no_LF tags -> no_LF key -> no_LF value ->
  one_line (percentile_line prefix name tags key value now).
Proof.
  intros Hp Hn Ht Hk Hv.
  exists (prefix ++ "." ++ name ++ "." ++ tags ++ "-percentile" ++ key ++ " "
            ++ value ++ " " ++ strconv.itoa now).
  split.
  - unfold percentile_line. now rewrite !string_app_assoc.
  - repeat (apply no_LF_app; [first [assumption | reflexivity]|]).
    apply no_LF_itoa.
Qed.

Lemma wire_text_one_line (c : Config) (now : Z) (raw s : string) :
  no_LF (Prefix c) -> no_LF raw -> wire_text c now raw s -> one_line s.
Proof.
  intros Hp Hraw Hs. destruct (no_LF_split raw Hraw) as [Hn Ht].
  destruct Hs as [field value Hf Hv | p f].
  - apply line_one_line; trivial; [now apply no_LF_field | now apply no_LF_value].
  - apply percentile_line_one_line; trivial;
      [apply no_LF_percentileKey | apply no_LF_fmtFloat].
Qed.

Lemma wire_text_prefix (c : Config) (now : Z) (raw s : string) :
  wire_text c now raw s ->
  IsPrefix (Prefix c ++ "." ++ fst (splitNameAndTags raw) ++ ".") s.
Proof.
  intros [field value _ _ | p f].
  - exists (field ++ snd (splitNameAndTags raw) ++ " " ++ value ++ " "
              ++ strconv.itoa now ++ LF).
    unfold line. now rewrite !string_app_assoc.
  - exists (snd (splitNameAndTags raw) ++ "-percentile" ++ percentileKey p ++ " "
              ++ fmt.fmtFloat f 2 ++ " " ++ strconv.itoa now ++ LF).
    unfold percentile_line. now rewrite !string_app_assoc.
Qed.

End LineFeeds.

(* ------------------------------------------------------------------ *)
(** ** Joined names, visits and rates *)

Section Further.

Lemma Index_first_char (ch : ascii) (a rest : string) :
  strings.Index a (String ch "") = -1 ->
  strings.Index (a ++ String ch rest) (String ch "") = Z.of_nat (String.length a).
Proof.
  induction a as [|c a IH]; intros Ha.
  { cbn [String.append strings.Index]. rewrite HasPrefix_char.
    now rewrite Ascii.eqb_refl. }
  cbn [String.append String.length]. cbn [strings.Index] in *.
  rewrite HasPrefix_char in *.
  destruct (Ascii.eqb ch c); [discriminate|].
  pose proof (Index_lower a (String ch "")).
  destruct (strings.Index a (String ch "") <? 0) eqn:E.
  - apply Z.ltb_lt in E. rewrite IH by lia.
    assert ((Z.of_nat (String.length a) <? 0) = false) as ->
      by (apply Z.ltb_ge; lia).
    lia.
  - apply Z.ltb_ge in E. lia.
Qed.

(** The texts of a cycle that does not panic. *)
Lemma cycle_lines (c : Config) (env : Env) (nclock ndial : nat) :
  snd (cycle c env nclock ndial) = Ok None ->
  emitted (fst (cycle c env nclock ndial)) =
  registry_lines c env (clock env nclock) (Registry c).
Proof.
  unfold cycle, registry_lines.
  destruct (dial env ndial (Addr c)) as [err|]; [discriminate|].
  pose proof (Each_events_lines (Registry c) (callback c env (clock env nclock)))
    as Hl.
  destruct (Each_events (Registry c) (callback c env (clock env nclock)))
    as [evs res]. cbn [fst snd] in *.
  destruct res as [[]|msg]; [|discriminate]. intros _.
  change (emitted ([ETime (clock env nclock); EDial (Addr c) None; EEach]
                     ++ evs ++ [EClose ndial])%list)
    with (emitted (evs ++ [EClose ndial])%list).
  rewrite emitted_app. cbn [emitted]. rewrite app_nil_r. now apply Hl.
Qed.

(** The metrics a cycle visits: all of them, or those up to the first
    Timer when [int64(du)] is zero. *)
Lemma Each_events_visited_until (c : Config) (env : Env) (now : Z)
  (r : metrics.Registry) :
  visited (fst (Each_events r (callback c env now))) =
  map fst
    (if int64.of_float (float_overflow env) (float64.of_int (DurationUnit c)) =? 0
     then until_timer r else r).
Proof.
  induction r as [|[name i] r IH]; [now destruct (_ =? 0)|].
  cbn [Each_events until_timer].
  assert (Hv : snd (callback c env now name i) =
               if is_timer i
                  && (int64.of_float (float_overflow env)
                        (float64.of_int (DurationUnit c)) =? 0)
               then Panic division_panic else Ok tt) by apply visit_result.
  destruct (callback c env now name i) as [cs res]. cbn [snd] in Hv. subst res.
  destruct (Each_events r (callback c env now)) as [evs' res'].
  cbn [fst] in IH.
  assert (Hcs : forall rest,
             visited ((EVisit name :: map cmd_event cs) ++ rest)%list
             = name :: visited rest).
  { intros rest. cbn [app visited]. now rewrite visited_app, visited_cmds. }
  destruct (is_timer i);
    destruct (int64.of_float (float_overflow env)
                (float64.of_int (DurationUnit c)) =? 0);
    cbn [andb fst map].
  - rewrite <- (app_nil_r (EVisit name :: map cmd_event cs)), Hcs. reflexivity.
  - now rewrite Hcs, IH.
  - now rewrite Hcs, IH.
  - now rewrite Hcs, IH.
Qed.

(** A count below [2^53] divided by a zero interval: Go divides floats by
    zero without panic. *)
Lemma rate_over_zero (count : Z) :
  0 <= count < 2 ^ 53 ->
  fmt.fmtFloat
    (float64.div (float64.of_int count)
       (float64.div (float64.of_int 0) (float64.of_int time.Second))) 2 =
  if count =? 0 then "NaN" else "+Inf".
Proof.
  intros Hc.
  assert (float64.div (float64.of_int 0) (float64.of_int time.Second)
          = S754_zero false) as -> by (vm_compute; reflexivity).
  destruct count as [|m|m]; [vm_compute; reflexivity | | lia].
  destruct (of_int_below_2_53 false m) as (mz & n & _ & _ & Hr); [lia|].
  unfold float64.of_int, binary_normalize. rewrite Hr.
  reflexivity.
Qed.

End Further.

(* ------------------------------------------------------------------ *)
(** ** Statements beyond the claims *)

(** X1.  Splitting undoes joining: a name without semicolon, joined to any
    text by a semicolon, is split into that name and the semicolon with the
    text behind it; only the first semicolon counts. *)
Theorem joined_name_splits_back (name rest : string) :
  strings.Contains name ";" = false ->
  splitNameAndTags (name ++ ";" ++ rest) = (name, ";" ++ rest).
Proof.
  intros Hc.
  assert (Hi : strings.Index name ";" = -1).
  { unfold strings.Contains in Hc. apply Z.leb_gt in Hc.
    pose proof (Index_lower name ";"). lia. }
  change (";" ++ rest) with (String ";" rest).
  pose proof (Index_first_char ";" name rest Hi) as Hfirst.
  destruct (splitNameAndTags_cases (name ++ String ";" rest))
    as [[Hidx _] | (m & Hm & _ & _ & ->)].
  - rewrite Hfirst in Hidx. lia.
  - rewrite Hfirst in Hm. apply Nat2Z.inj in Hm. subst m.
    rewrite take_app_length, drop_app_length. reflexivity.
Qed.

Lemma joined_name_splits_back_witness :
  strings.Contains "disk.used" ";" = false /\
  splitNameAndTags ("disk.used" ++ ";" ++ "dc=dc1;rack=a1")
    = ("disk.used", ";" ++ "dc=dc1;rack=a1").
Proof.
  split; [reflexivity|].
  apply (joined_name_splits_back "disk.used" "dc=dc1;rack=a1"). reflexivity.
Defined.

(** X2.  Whatever the connection does, the bytes it took during a cycle
    are a beginning of the texts the cycle printed, in order: the buffered
    writer neither reorders nor repeats nor invents bytes, and after a
    failed write it sends nothing more. *)
Theorem wire_takes_a_beginning_of_the_lines (c : Config) (env : Env) (tr : trace) :
  exists evs,
    snd (Once c env tr) = (tr ++ evs)%list /\
    IsPrefix (sent evs) (bytes (emitted evs)).
Proof.
  destruct (graphite_wire env c tr) as (evs & Hrun & _ & Hpre & _).
  exists evs. split; [exact Hrun | exact Hpre].
Qed.

(** X3.  The flush behind every metric: whenever a metric is visited and
    no write has failed until then, the connection has taken every byte
    printed until then. *)
Theorem visits_find_the_wire_up_to_date (c : Config) (env : Env) (tr : trace) :
  exists evs,
    snd (Once c env tr) = (tr ++ evs)%list /\ visits_flushed evs.
Proof.
  destruct (graphite_wire env c tr) as (evs & Hrun & _ & _ & Hvis & _).
  exists evs. split; [exact Hrun | exact Hvis].
Qed.

(** X4.  Over a connection that takes every write, a cycle that returns
    [nil] has put on the wire exactly the lines of the registry's metrics, in
    the order of the registry, under the timestamp the cycle read. *)
Theorem reliable_wire_carries_the_registry_lines (c : Config) (env : Env)
  (tr : trace) :
  (forall k p, conn_write env k p = Wrote) ->
  fst (Once c env tr) = Ok None ->
  exists evs,
    snd (Once c env tr) = (tr ++ evs)%list /\
    sent evs =
      bytes (registry_lines c env (clock env (count is_time tr)) (Registry c)).
Proof.
  unfold Once. intros Hrel Hok.
  destruct (graphite_delivers env Hrel c tr Hok) as (evs & Hrun & Hsent).
  exists evs. split; [exact Hrun|]. rewrite Hsent. f_equal.
  pose proof (graphite_emitted c env tr) as Hem.
  rewrite Hrun, emitted_app in Hem. apply app_inv_head in Hem.
  rewrite Hem. apply cycle_lines. now rewrite <- graphite_result.
Qed.

Lemma reliable_wire_carries_the_registry_lines_witness :
  (forall k p, conn_write Sample.env_ok k p = Wrote) /\
  fst (Once Sample.config Sample.env_ok []) = Ok None /\
  exists evs,
    snd (Once Sample.config Sample.env_ok []) = ([] ++ evs)%list /\
    sent evs =
      bytes (registry_lines Sample.config Sample.env_ok
               (clock Sample.env_ok (count is_time [])) (Registry Sample.config)).
Proof.
  split; [intros; reflexivity|].
  split; [vm_compute; reflexivity|].
  apply (reliable_wire_carries_the_registry_lines Sample.config Sample.env_ok []);
    [intros; reflexivity | vm_compute; reflexivity].
Defined.

(** X5.  The connection of a cycle: a cycle dials once; every write of the
    cycle goes to the connection it dialled; when the dial succeeded the
    cycle's last event closes that connection, also when a callback panics,
    and nothing else is closed; when the dial failed nothing is closed and
    nothing written. *)
Theorem connection_is_closed_last (c : Config) (env : Env) (tr : trace) :
  exists evs,
    snd (Once c env tr) = (tr ++ evs)%list /\
    writes_on (count is_dial tr) evs /\
    count is_dial evs = 1%nat /\
    match dial env (count is_dial tr) (Addr c) with
    | None =>
        exists body,
          evs = (body ++ [EClose (count is_dial tr)])%list /\
          count is_close body = 0%nat
    | Some _ => count is_close evs = 0%nat /\ count is_write evs = 0%nat
    end.
Proof.
  unfold Once.
  destruct (graphite_wire env c tr) as (evs & Hrun & Hon & _ & _ & Hclose).
  destruct (graphite_counts c env tr) as (evs' & Hrun' & _ & Hd & Hok & _ & Hc).
  assert (evs' = evs).
  { rewrite Hrun' in Hrun. cbn [snd] in Hrun. now apply app_inv_head in Hrun. }
  subst evs'. exists evs.
  split; [exact Hrun|]. split; [exact Hon|]. split; [exact Hd|].
  destruct (dial env (count is_dial tr) (Addr c)) as [err|] eqn:E.
  - split; [lia|].
    rewrite (graphite_dial_failed c env tr err E) in Hrun. cbn [snd] in Hrun.
    apply app_inv_head in Hrun. now subst evs.
  - destruct (Hclose eq_refl) as (body & ->). exists body.
    split; [reflexivity|].
    rewrite count_app in Hc. cbn in Hc. lia.
Qed.

(** X6.  How a cycle ends: with the dial's error when the dial fails; in
    the panic of an integer division by zero when the dial succeeds, the
    registry holds a Timer and [int64(float64(DurationUnit))] is zero; with
    [nil] otherwise.  Write errors never show.  For a unit up to [2^53] in
    magnitude the conversion is zero only for the unit zero. *)
Theorem cycle_result (c : Config) (env : Env) (tr : trace) :
  fst (Once c env tr) =
    match dial env (count is_dial tr) (Addr c) with
    | Some err => Ok (Some err)
    | None => if divides_by_zero c env then Panic division_panic else Ok None
    end /\
  (Z.abs (DurationUnit c) <= 2 ^ 53 ->
   divides_by_zero c env = has_timer (Registry c) && (DurationUnit c =? 0)).
Proof.
  split.
  - unfold Once. destruct (graphite_counts c env tr) as (evs & -> & _).
    reflexivity.
  - intros Hu. unfold divides_by_zero.
    now rewrite int64_of_float_of_int.
Qed.

(** X7.  Continuous mode, for the ticks that come: every tick reads the
    clock once and dials once, the clock readings being consecutive; every
    connection opened is enumerated once and closed once; the loop outlives
    every failed dial and every failed write, and it ends before its last
    tick only in the panic of a division by zero, in the first cycle that
    connects. *)
Theorem continuous_mode_tick_by_tick (c : Config) (env : Env) (n : nat)
  (tr : trace) :
  exists evs,
    snd (WithConfig n c env tr) = (tr ++ evs)%list /\
    times evs = map (clock env) (seq (count is_time tr) (count is_dial evs)) /\
    count is_each evs = count is_dial_ok evs /\
    count is_close evs = count is_dial_ok evs /\
    match fst (WithConfig n c env tr) with
    | Ok _ =>
        count is_dial evs = n /\
        (divides_by_zero c env = true -> count is_dial_ok evs = 0%nat)
    | Panic msg =>
        msg = division_panic /\ divides_by_zero c env = true /\
        (count is_dial evs <= n)%nat /\ count is_dial_ok evs = 1%nat
    end.
Proof. exact (WithConfig_runs c env n tr). Qed.

(** X8.  [Graphite] never panics: its configuration measures durations in
    nanoseconds, so no division by zero can happen; whatever the registry,
    the dials and the writes do, [ticks] ticks run [ticks] cycles, each
    with its own clock reading, and every connection opened is closed. *)
Theorem Graphite_never_panics (ticks : nat) (r : metrics.Registry) (d : Z)
  (prefix : string) (addr : TCPAddr) (env : Env) (tr : trace) :
  exists evs,
    Graphite ticks r d prefix addr env tr = (Ok tt, (tr ++ evs)%list) /\
    count is_dial evs = ticks /\
    times evs = map (clock env) (seq (count is_time tr) ticks) /\
    count is_close evs = count is_dial_ok evs.
Proof.
  unfold Graphite.
  destruct (WithConfig_runs (GraphiteConfig r d prefix addr) env ticks tr)
    as (evs & Hrun & Ht & _ & Hc & Hres).
  assert (Hz : divides_by_zero (GraphiteConfig r d prefix addr) env = false).
  { unfold divides_by_zero. cbn [DurationUnit GraphiteConfig].
    rewrite int64_of_float_of_int by (vm_compute; discriminate).
    apply andb_false_r. }
  exists evs.
  destruct (WithConfig ticks (GraphiteConfig r d prefix addr) env tr)
    as [[[]|msg] tr']; cbn [fst snd] in *; subst tr'.
  - destruct Hres as [Hd _]. rewrite Hd in Ht. auto.
  - destruct Hres as (_ & Hf & _). rewrite Hz in Hf. discriminate.
Qed.

(** X9.  The shape of the output: whatever the metric, every text its
    callback prints is a line for one of the eleven field names with an
    integer or fixed-precision float as value, or a percentile line; it
    starts with the prefix, a dot, the name in front of the first semicolon
    and a dot. *)
Theorem callback_texts_are_wire_lines (c : Config) (env : Env) (now : Z)
  (raw : string) (i : metrics.Metric) :
  Forall (fun s =>
            wire_text c now raw s /\
            IsPrefix (Prefix c ++ "." ++ fst (splitNameAndTags raw) ++ ".") s)
    (texts (fst (callback c env now raw i))).
Proof.
  eapply Forall_impl; [|apply visit_texts_wire].
  intros s Hs. split; [exact Hs | now apply wire_text_prefix with now].
Qed.

(** X10.  No line feed slips in: when neither the prefix nor the registered
    name holds a line feed, every text a callback prints is one line, its
    only line feed being the last character, whatever the values and the
    percentile list. *)
Theorem texts_are_single_lines (c : Config) (env : Env) (now : Z)
  (raw : string) (i : metrics.Metric) :
  no_LF (Prefix c) -> no_LF raw ->
  Forall one_line (texts (fst (callback c env now raw i))).
Proof.
  intros Hp Hraw.
  eapply Forall_impl; [|apply visit_texts_wire].
  intros s Hs. now apply wire_text_one_line with c now raw.
Qed.

Lemma texts_are_single_lines_witness :
  no_LF (Prefix Sample.config) /\ no_LF Sample.tagged /\
  Forall one_line
    (texts (fst (callback Sample.config Sample.env_ok 1700000000 Sample.tagged
                   (metrics.Timer Sample.timer)))).
Proof.
  split; [reflexivity|]. split; [reflexivity|].
  apply (texts_are_single_lines Sample.config Sample.env_ok 1700000000
           Sample.tagged (metrics.Timer Sample.timer)); reflexivity.
Defined.

(** X11.  How many lines a metric gives: two for a Counter, one for a
    Gauge and for a GaugeFloat64, five for a Meter, five and one per
    configured percentile for a Histogram, ten and one per configured
    percentile for a Timer (two when [int64(du)] is zero and the callback
    panics), none for any other kind. *)
Theorem lines_per_metric (c : Config) (env : Env) (now : Z) (raw : string)
  (i : metrics.Metric) :
  List.length (texts (fst (callback c env now raw i))) =
  line_count (int64.of_float (float_overflow env)) c
    (float64.of_int (DurationUnit c)) i.
Proof. apply visit_line_count. Qed.

(** X12.  A cycle that returns [nil] has printed, whatever the connection
    did, the lines of each registered metric in the order of the registry,
    and nothing else. *)
Theorem cycle_prints_the_registry_in_order (c : Config) (env : Env) (tr : trace) :
  fst (Once c env tr) = Ok None ->
  emitted (snd (Once c env tr)) =
  (emitted tr
   ++ registry_lines c env (clock env (count is_time tr)) (Registry c))%list.
Proof.
  unfold Once. intros Hok.
  rewrite graphite_emitted. f_equal.
  apply cycle_lines. now rewrite <- graphite_result.
Qed.

Lemma cycle_prints_the_registry_in_order_witness :
  fst (Once Sample.config Sample.env_broken []) = Ok None /\
  emitted (snd (Once Sample.config Sample.env_broken [])) =
  (emitted []
   ++ registry_lines Sample.config Sample.env_broken
        (clock Sample.env_broken (count is_time [])) (Registry Sample.config))%list.
Proof.
  split; [vm_compute; reflexivity|].
  apply (cycle_prints_the_registry_in_order Sample.config Sample.env_broken []).
  vm_compute; reflexivity.
Defined.

(** X13.  Which kinds read which setting: the duration unit changes the
    output of Timers only, the flush interval that of Counters and Timers
    only, the percentile list that of Histograms and Timers only. *)
Theorem settings_reach_only_their_kinds (c : Config) (env : Env) (now : Z)
  (raw : string) (i : metrics.Metric) (u d : Z) (ps : list float64.t) :
  (is_timer i = false ->
   callback (with_unit c u) env now raw i = callback c env now raw i) /\
  (reads_interval i = false ->
   callback (with_interval c d) env now raw i = callback c env now raw i) /\
  (reads_percentiles i = false ->
   callback (with_percentiles c ps) env now raw i = callback c env now raw i).
Proof.
  unfold callback.
  repeat split; intros H; destruct i; try discriminate H; reflexivity.
Qed.

(** X14.  A flush interval of zero (a configuration that leaves the field
    out) does not panic: a Counter's rate is a float division by zero, so
    its [count_ps] line reads [+Inf], or [NaN] for a count of zero. *)
Theorem zero_flush_interval_rate (c : Config) (env : Env) (now : Z)
  (raw : string) (count : Z) :
  FlushInterval c = 0 ->
  0 <= count < 2 ^ 53 ->
  callback c env now raw (metrics.Counter count) =
    ([CFprintf (line (Prefix c) (fst (splitNameAndTags raw)) "count"
                  (snd (splitNameAndTags raw)) (strconv.itoa count) now);
      CFprintf (line (Prefix c) (fst (splitNameAndTags raw)) "count_ps"
                  (snd (splitNameAndTags raw))
                  (if count =? 0 then "NaN" else "+Inf") now);
      CFlush], Ok tt).
Proof.
  intros Hf Hc. unfold callback. rewrite visit_Counter, Hf.
  destruct (splitNameAndTags raw) as [name tags]. cbn [fst snd].
  now rewrite rate_over_zero.
Qed.

Lemma zero_flush_interval_rate_witness :
  FlushInterval (with_interval Sample.config 0) = 0 /\
  0 <= 42 < 2 ^ 53 /\
  callback (with_interval Sample.config 0) Sample.env_ok 1700000000 "hits"
    (metrics.Counter 42) =
    ([CFprintf ("app.hits.count 42 1700000000" ++ LF);
      CFprintf ("app.hits.count_ps +Inf 1700000000" ++ LF);
      CFlush], Ok tt).
Proof.
  split; [reflexivity|]. split; [lia|].
  apply (zero_flush_interval_rate (with_interval Sample.config 0) Sample.env_ok
           1700000000 "hits" 42); [reflexivity | lia].
Defined.

(** X15.  Percentile keys are not unique: two different fractions can have
    the same key, so that their percentile lines carry the same path; 0.999
    and 0.0999 both have the key "999". *)
Theorem percentile_keys_collide :
  exists p q : float64.t,
    p <> q /\ percentileKey p = percentileKey q /\
    p = float64.lit 999 3 /\ q = float64.lit 999 4.
Proof.
  exists (float64.lit 999 3), (float64.lit 999 4).
  split; [vm_compute; discriminate|].
  split; [vm_compute; reflexivity|].
  split; reflexivity.
Qed.

(** X16.  Continuous mode while the server is away: when every dial fails
    with an error, [n] ticks dial [n] times, log the error with a line feed
    [n] times and write nothing. *)
Theorem failed_dials_are_logged (c : Config) (env : Env) (err : string)
  (n : nat) (tr : trace) :
  (forall k, dial env k (Addr c) = Some err) ->
  exists tr',
    WithConfig n c env tr = (Ok tt, tr') /\
    count is_dial tr' = (count is_dial tr + n)%nat /\
    logged tr' = (logged tr ++ repeat (err ++ LF)%string n)%list /\
    count is_write tr' = count is_write tr.
Proof. intros Hd. exact (WithConfig_keeps_ticking c env err n Hd tr). Qed.

Lemma failed_dials_are_logged_witness :
  (forall k, dial Sample.env_refused k (Addr Sample.config)
             = Some "connection refused") /\
  exists tr',
    WithConfig 3 Sample.config Sample.env_refused [] = (Ok tt, tr') /\
    count is_dial tr' = (count is_dial [] + 3)%nat /\
    logged tr' = (logged [] ++ repeat ("connection refused" ++ LF)%string 3)%list /\
    count is_write tr' = count is_write [].
Proof.
  split; [intros; reflexivity|].
  apply (failed_dials_are_logged Sample.config Sample.env_refused
           "connection refused" 3 []).
  intros; reflexivity.
Defined.

(** X17.  The metrics a cycle reaches: when the dial succeeds, a cycle
    visits every registered metric in the order of the registry, unless
    [int64(du)] is zero: then it visits the metrics up to the first Timer
    and none behind it. *)
Theorem metrics_behind_a_panic_are_not_visited (c : Config) (env : Env)
  (tr : trace) :
  dial env (count is_dial tr) (Addr c) = None ->
  visited (snd (Once c env tr)) =
  (visited tr
   ++ map fst
        (if int64.of_float (float_overflow env) (float64.of_int (DurationUnit c))
            =? 0
         then until_timer (Registry c) else Registry c))%list.
Proof.
  unfold Once. intros Hd. rewrite graphite_visited. f_equal.
  unfold cycle. rewrite Hd.
  pose proof (Each_events_visited_until c env (clock env (count is_time tr))
                (Registry c)) as Hv.
  destruct (Each_events (Registry c) (callback c env (clock env (count is_time tr))))
    as [evs res]. cbn [fst] in *.
  change (visited ([ETime (clock env (count is_time tr)); EDial (Addr c) None; EEach]
                     ++ evs ++ [EClose (count is_dial tr)])%list)
    with (visited (evs ++ [EClose (count is_dial tr)])%list).
  rewrite visited_app. cbn [visited]. now rewrite app_nil_r.
Qed.

Lemma metrics_behind_a_panic_are_not_visited_witness :
  dial Sample.env_ok (count is_dial [])
    (Addr (with_unit (with_registry Sample.config
                        (Sample.registry ++ [("late", metrics.Gauge 1)])%list) 0))
    = None /\
  visited (snd (Once (with_unit (with_registry Sample.config
                                   (Sample.registry ++ [("late", metrics.Gauge 1)])%list) 0)
                  Sample.env_ok [])) =
  [Sample.tagged; "probe"; "latency"].
Proof.
  split; [reflexivity|].
  apply (metrics_behind_a_panic_are_not_visited
           (with_unit (with_registry Sample.config
                         (Sample.registry ++ [("late", metrics.Gauge 1)])%list) 0)
           Sample.env_ok []).
  reflexivity.
Defined.
